(** * LinkedIn-to-Airtable extension: extraction validators, field pipeline,
      schema cache and error classifier.

    A shallow embedding of the parts of [content.js] and [background.js]
    that the specification makes claims about, with the claims stated and
    proved (or refuted at a concrete input) over that embedding.

    JavaScript strings are sequences of UTF-16 code units; they are
    modelled as lists of [N].  JavaScript objects are modelled by their own
    enumerable string-keyed properties in the order of their creation (a
    property name that is an array index, which JavaScript would enumerate
    before the others, is not treated specially). *)

From Stdlib Require Import Ascii String.
From Stdlib Require Import List NArith ZArith Arith Bool Lia.
From Stdlib Require Import DecimalPos DecimalN.
Import ListNotations.

Set Implicit Arguments.
Set Warnings "-register-all,-abstract-large-number".

(* ================================================================== *)
(** * JavaScript strings *)
(* ================================================================== *)

Module Js.

Definition jschar := N.
Definition jsstring := list jschar.

(** An ASCII literal of the source as a code-unit sequence. *)
Definition lit (s : string) : jsstring :=
  map N_of_ascii (list_ascii_of_string s).

Definition chr (a : ascii) : jschar := N_of_ascii a.

Fixpoint str_eqb (a b : jsstring) : bool :=
  match a, b with
  | [], [] => true
  | x :: a', y :: b' => N.eqb x y && str_eqb a' b'
  | _, _ => false
  end.

(** [\s] of a regular expression and the characters [trim] strips: the
    WhiteSpace and LineTerminator code points of ECMAScript. *)
Definition is_ws (c : jschar) : bool :=
  ((9 <=? c) && (c <=? 13) || (c =? 32) || (c =? 160) || (c =? 5760)
   || (8192 <=? c) && (c <=? 8202) || (c =? 8232) || (c =? 8233)
   || (c =? 8239) || (c =? 8287) || (c =? 12288) || (c =? 65279))%N.

Definition is_digit (c : jschar) : bool := ((48 <=? c) && (c <=? 57))%N.

(** [.] of a regular expression without the [s] flag. *)
Definition is_dot (c : jschar) : bool :=
  negb ((c =? 10) || (c =? 13) || (c =? 8232) || (c =? 8233))%N.

Definition is_quote (c : jschar) : bool := ((c =? 34) || (c =? 39))%N.

Definition space : jschar := 32%N.
Definition comma : jschar := 44%N.

(** ASCII case folding.  Under the [i] flag without the [u] flag a code
    unit above 127 never canonicalizes to an ASCII one, so for patterns made
    of ASCII letters this is exactly the engine's comparison. *)
Definition lower_ascii (c : jschar) : jschar :=
  if ((65 <=? c) && (c <=? 90))%N then (c + 32)%N else c.

Definition ci_eqb (a b : jschar) : bool := N.eqb (lower_ascii a) (lower_ascii b).

(** [String.prototype.toLowerCase].  The two code units above 127 whose
    lower case contains an ASCII letter are U+0130 and U+212A; every other
    non-ASCII unit is left as it is, which does not change any comparison
    with, or search for, an ASCII literal. *)
Definition toLowerCase (s : jsstring) : jsstring :=
  flat_map (fun c =>
    if (c =? 304)%N then [105; 775]%N
    else if (c =? 8490)%N then [107]%N
    else [lower_ascii c]) s.

Fixpoint dropWhile (p : jschar -> bool) (s : jsstring) : jsstring :=
  match s with
  | [] => []
  | c :: s' => if p c then dropWhile p s' else s
  end.

Fixpoint takeWhile (p : jschar -> bool) (s : jsstring) : jsstring :=
  match s with
  | [] => []
  | c :: s' => if p c then c :: takeWhile p s' else []
  end.

Definition dropWhileEnd (p : jschar -> bool) (s : jsstring) : jsstring :=
  rev (dropWhile p (rev s)).

(** [String.prototype.trim]. *)
Definition trim (s : jsstring) : jsstring :=
  dropWhileEnd is_ws (dropWhile is_ws s).

(** [s.replace(/\s+/g, ' ')]: every maximal run of white space becomes one
    space.  [inrun] records that the previous unit was white space. *)
Fixpoint collapse_from (inrun : bool) (s : jsstring) : jsstring :=
  match s with
  | [] => []
  | c :: s' =>
      if is_ws c
      then (if inrun then collapse_from true s' else space :: collapse_from true s')
      else c :: collapse_from false s'
  end.

Definition collapse_ws (s : jsstring) : jsstring := collapse_from false s.

(** [s.replace(/\n/g, ' ')]. *)
Definition newlines_to_spaces (s : jsstring) : jsstring :=
  map (fun c => if (c =? 10)%N then space else c) s.

(** [s.substring(0, n)] for a non-negative [n]. *)
Definition substring0 (n : nat) (s : jsstring) : jsstring := firstn n s.

Fixpoint startsWith (p s : jsstring) : bool :=
  match p, s with
  | [], _ => true
  | x :: p', y :: s' => N.eqb x y && startsWith p' s'
  | _ :: _, [] => false
  end.

Fixpoint includes (p s : jsstring) : bool :=
  startsWith p s || match s with [] => false | _ :: s' => includes p s' end.

(** [s.split(sep)] for a one-unit separator: never an empty array. *)
Fixpoint split (sep : jschar) (s : jsstring) : list jsstring :=
  match s with
  | [] => [[]]
  | c :: s' =>
      if N.eqb c sep then [] :: split sep s'
      else match split sep s' with
           | h :: t => (c :: h) :: t
           | [] => [[c]]
           end
  end.

Definition nonempty (s : jsstring) : bool :=
  match s with [] => false | _ => true end.

(** The first unit of [s], if any, does not satisfy [p]; likewise the
    last. *)
Definition startsClean (p : jschar -> bool) (s : jsstring) : bool :=
  match s with
  | c :: _ => negb (p c)
  | [] => true
  end.

Definition endsClean (p : jschar -> bool) (s : jsstring) : bool :=
  startsClean p (rev s).

(** No unit of [s] is U+0000. *)
Definition noNullByte (s : jsstring) : bool :=
  forallb (fun c => negb (N.eqb c 0)) s.

(** No two adjacent units of [s] are both white space. *)
Fixpoint noWhitespaceRun (s : jsstring) : bool :=
  match s with
  | a :: s' =>
      match s' with
      | b :: _ => negb (is_ws a && is_ws b) && noWhitespaceRun s'
      | [] => true
      end
  | [] => true
  end.

(** No white space at either end. *)
Definition noEdgeWhitespace (s : jsstring) : bool :=
  startsClean is_ws s && endsClean is_ws s.

End Js.
Import Js.

(* ================================================================== *)
(** * Regular expressions *)
(* ================================================================== *)

(** The fragment of ECMAScript regular expressions that the validators
    use, with a backtracking matcher in continuation-passing style.  The
    matcher tries alternatives in the order the engine does (left
    alternative first, greedy repetition). *)

Module Regex.

Inductive regex : Type :=
| Eps
| Cls (p : jschar -> bool)
| Seq (a b : regex)
| Alt (a b : regex)
| Star (a : regex)
| Bol
| Eol.

Section Matcher.

(** The matcher is generic in what a successful match yields, so that a
    continuation can return a captured group. *)
Variable A : Type.

Definition orelse (x y : option A) : option A :=
  match x with Some _ => x | None => y end.

(** [rmatch r b s k]: match [r] at the head of [s] and hand the rest to
    [k]; [b] tells whether the head of [s] is index 0 of the subject.  An
    iteration of a repetition that consumes nothing is rejected, as the
    engine does, so [length s] iterations are all there can be. *)
Fixpoint rmatch (r : regex) (b : bool) (s : jsstring)
         (k : bool -> jsstring -> option A) {struct r} : option A :=
  match r with
  | Eps => k b s
  | Cls p => match s with
             | c :: s' => if p c then k false s' else None
             | [] => None
             end
  | Seq a c => rmatch a b s (fun b' s' => rmatch c b' s' k)
  | Alt a c => orelse (rmatch a b s k) (rmatch c b s k)
  | Star a =>
      (fix loop (n : nat) (b : bool) (s : jsstring) {struct n} : option A :=
         match n with
         | O => k b s
         | S n' =>
             orelse
               (rmatch a b s
                  (fun b' s' =>
                     if length s' <? length s then loop n' b' s' else None))
               (k b s)
         end) (length s) b s
  | Bol => if b then k b s else None
  | Eol => match s with [] => k b s | _ :: _ => None end
  end.

(** The leftmost start position at which [m] succeeds. *)
Fixpoint search (m : bool -> jsstring -> option A) (b : bool) (s : jsstring)
  : option A :=
  orelse (m b s)
         (match s with
          | [] => None
          | _ :: s' => search m false s'
          end).

End Matcher.

(** [RegExp.prototype.test] for a pattern without the [g] or [y] flag. *)
Definition test (r : regex) (s : jsstring) : bool :=
  match search (fun b s' => rmatch r b s' (fun _ _ => Some tt)) true s with
  | Some _ => true
  | None => false
  end.

(** [s.match(/pre(grp)post/)?.[1]]: the text of the only capture group of
    the leftmost match. *)
Definition group1 (pre grp post : regex) (s : jsstring) : option jsstring :=
  search
    (fun b s0 =>
       rmatch pre b s0 (fun b1 s1 =>
         rmatch grp b1 s1 (fun b2 s2 =>
           rmatch post b2 s2 (fun _ _ =>
             Some (firstn (length s1 - length s2) s1)))))
    true s.

Fixpoint seqs (l : list regex) : regex :=
  match l with
  | [] => Eps
  | [r] => r
  | r :: l' => Seq r (seqs l')
  end.

Fixpoint alts (l : list regex) : regex :=
  match l with
  | [] => Cls (fun _ => false)
  | [r] => r
  | r :: l' => Alt r (alts l')
  end.

Definition opt (r : regex) : regex := Alt r Eps.
Definition plus (r : regex) : regex := Seq r (Star r).
Fixpoint rep (n : nat) (r : regex) : regex :=
  match n with O => Eps | S n' => Seq r (rep n' r) end.

(** A literal under the [i] flag. *)
Definition ci (s : string) : regex :=
  seqs (map (fun c => Cls (ci_eqb c)) (lit s)).

Definition ch (c : jschar) : regex := Cls (N.eqb c).
Definition digit : regex := Cls is_digit.
Definition ws : regex := Cls is_ws.
Definition dot : regex := Cls is_dot.

End Regex.
Import Regex.

(* ================================================================== *)
(** * content.js: text normalisation, validators, locator cascades *)
(* ================================================================== *)

Module Content.

(** U+00B7 MIDDLE DOT and U+2013 EN DASH, which the patterns mention. *)
Definition middot : jschar := 183%N.
Definition endash : jschar := 8211%N.

(** [cleanText(text)]. *)
Definition cleanText (text : jsstring) : jsstring :=
  if negb (nonempty text) then []
  else substring0 1000 (trim (newlines_to_spaces (collapse_ws text))).

(** ** Patterns *)

(** [(Full-time|Part-time|Contract|Freelance|Internship|Self-employed)] *)
Definition employmentTypes6 : regex :=
  alts [ci "Full-time"; ci "Part-time"; ci "Contract"; ci "Freelance";
        ci "Internship"; ci "Self-employed"].

(** [(Full-time|Part-time|Contract|Freelance|Internship)] *)
Definition employmentTypes5 : regex :=
  alts [ci "Full-time"; ci "Part-time"; ci "Contract"; ci "Freelance";
        ci "Internship"].

(** The class of the hyphen-minus and the en dash. *)
Definition dash : regex := Cls (fun c => N.eqb c 45 || N.eqb c endash).

(** [(Jan|Feb|Mar|Apr|May|Jun|Jul|Aug|Sep|Oct|Nov|Dec)] *)
Definition months : regex :=
  alts [ci "Jan"; ci "Feb"; ci "Mar"; ci "Apr"; ci "May"; ci "Jun";
        ci "Jul"; ci "Aug"; ci "Sep"; ci "Oct"; ci "Nov"; ci "Dec"].

(** [(st|nd|rd|th)] *)
Definition ordinalSuffix : regex := alts [ci "st"; ci "nd"; ci "rd"; ci "th"].

(** [/^\d{4}\s*D\s*(\d{4}|Present|Current)$/i], with D the class [dash]. *)
Definition yearRange : regex :=
  seqs [Bol; rep 4 digit; Star ws; dash; Star ws;
        alts [rep 4 digit; ci "Present"; ci "Current"]; Eol].

(** [/^\d+\s*yr(s)?\s*\d*\s*mo(s)?$/i] *)
Definition yearsMonths : regex :=
  seqs [Bol; plus digit; Star ws; ci "yr"; opt (ci "s"); Star ws;
        Star digit; Star ws; ci "mo"; opt (ci "s"); Eol].

(** [/^(Message|Connect|Follow|More|Experience|Show all|See less)$/i] *)
Definition uiChrome : regex :=
  seqs [Bol;
        alts [ci "Message"; ci "Connect"; ci "Follow"; ci "More";
              ci "Experience"; ci "Show all"; ci "See less"];
        Eol].

(** [/^(Edit|Delete|Add|Remove)$/i] *)
Definition uiActions : regex :=
  seqs [Bol; alts [ci "Edit"; ci "Delete"; ci "Add"; ci "Remove"]; Eol].

(** ** [isConnectionDegreeText] *)

Definition connectionPatterns : list regex :=
  [ seqs [plus digit; ordinalSuffix; Star ws; ci "degree"];
    seqs [plus digit; Star ws; ci "connection"];
    ci "mutual connection";
    ci "follow";
    ci "message";
    ci "connect" ].

Definition isConnectionDegreeText (text : jsstring) : bool :=
  existsb (fun p => test p text) connectionPatterns.

(** ** [isValidCompanyName] *)

Definition employmentTypePatterns : list regex :=
  [ seqs [Bol; employmentTypes6; Eol];
    seqs [Bol; ch middot; Star ws; employmentTypes5; Eol] ].

Definition datePatterns : list regex :=
  [ yearRange;
    seqs [Bol; months; plus ws; rep 4 digit];
    yearsMonths;
    seqs [Bol; plus digit; Star ws; ci "yr"; opt (ci "s"); Eol] ].

Definition jobTitlePatterns : list regex :=
  [ seqs [Bol;
          alts [ci "Senior"; ci "Junior"; ci "Lead"; ci "Principal";
                ci "Chief"; ci "Head of"; ci "Director of"; ci "Manager of";
                ci "Associate"]];
    seqs [ci "Engineer"; Eol];
    seqs [ci "Developer"; Eol];
    seqs [ci "Designer"; Eol];
    seqs [ci "Analyst"; Eol];
    seqs [ci "Consultant"; Eol];
    seqs [ci "Specialist"; Eol] ].

(** The loop [for (const pattern of jobTitlePatterns) if (pattern.test(text))
    jobTitleScore++]. *)
Definition jobTitleScore (text : jsstring) : nat :=
  fold_left (fun score p => if test p text then S score else score)
            jobTitlePatterns 0.

Definition companyUiElements : list regex :=
  [ uiChrome; uiActions; seqs [Bol; ci "Company name"; Eol] ].

Definition matchesAny (ps : list regex) (text : jsstring) : bool :=
  existsb (fun p => test p text) ps.

Definition isValidCompanyName (text : jsstring) : bool :=
  if negb (nonempty text) || (length text <? 2) then false
  else if 150 <? length text then false
  else if matchesAny employmentTypePatterns text then false
  else if matchesAny datePatterns text then false
  else if 2 <=? jobTitleScore text then false
  else if matchesAny companyUiElements text then false
  else if isConnectionDegreeText text then false
  else true.

(** ** [isValidCompanyNameRelaxed] *)

Definition rejectPatterns : list regex :=
  [ seqs [Bol; employmentTypes5; Eol];
    seqs [Bol; rep 4 digit; Star ws; dash; Star ws;
          alts [rep 4 digit; ci "Present"]; Eol];
    yearsMonths;
    seqs [Bol;
          alts [ci "Message"; ci "Connect"; ci "Follow"; ci "More";
                ci "Show all"];
          Eol] ].

Definition isValidCompanyNameRelaxed (text : jsstring) : bool :=
  if negb (nonempty text) || (length text <? 2) then false
  else if 150 <? length text then false
  else negb (matchesAny rejectPatterns text).

(** ** [isValidJobTitle] *)

Definition dateOnlyPatterns : list regex :=
  [ yearRange;
    seqs [Bol; months; plus ws; rep 4 digit; Star ws; dash; Star dot; Eol];
    yearsMonths ].

Definition jobUiElements : list regex :=
  [ uiChrome;
    seqs [Bol; plus digit; ordinalSuffix; Star ws; Eol];
    uiActions ].

(** [/^[A-Z\s&,\.]+\s+(Inc\.|LLC|Ltd\.|Corp\.|Corporation|Company)$/i] *)
Definition companyPatterns : list regex :=
  [ seqs [Bol;
          plus (Cls (fun c =>
                  let l := lower_ascii c in
                  ((97 <=? l) && (l <=? 122))%N || is_ws c
                  || N.eqb c 38 || N.eqb c 44 || N.eqb c 46));
          plus ws;
          alts [ci "Inc."; ci "LLC"; ci "Ltd."; ci "Corp."; ci "Corporation";
                ci "Company"];
          Eol] ].

Definition isValidJobTitle (text : jsstring) : bool :=
  if negb (nonempty text) || (length text <? 2) then false
  else if 200 <? length text then false
  else if matchesAny dateOnlyPatterns text then false
  else if isConnectionDegreeText text then false
  else if matchesAny jobUiElements text then false
  else if matchesAny companyPatterns text then false
  else true.

(** ** Locator cascades *)

Section Cascade.

(** CSS selectors are never inspected, only handed to
    [document.querySelector]. *)
Variable selector : Type.

(** [document.querySelector(sel)]: the [textContent] of the first element
    the selector matches, [None] when it returns [null]. *)
Variable querySelector : selector -> option jsstring.

Variable validate : jsstring -> bool.

(** The loop [for (const selector of selectors) { element = ...; if
    (element) { text = cleanText(...); if (validate(text)) { result =
    text; matchedSelector = selector; break; } } }], returning the final
    value of the result variable (initially the empty string) and of
    [matchedSelector] (initially [null]). *)
Fixpoint cascade (selectors : list selector) : jsstring * option selector :=
  match selectors with
  | [] => ([], None)
  | sel :: rest =>
      match querySelector sel with
      | Some raw =>
          let text := cleanText raw in
          if validate text then (text, Some sel) else cascade rest
      | None => cascade rest
      end
  end.

End Cascade.

(** The selection loop of [extractJobTitle] (lines 284-299) and of
    [extractCompany] (lines 450-470), over the selector list each is
    given. *)
Definition jobTitleLoop (selector : Type) (querySelector : selector -> option jsstring)
  : list selector -> jsstring * option selector :=
  cascade querySelector isValidJobTitle.

Definition companyLoop (selector : Type) (querySelector : selector -> option jsstring)
  : list selector -> jsstring * option selector :=
  cascade querySelector isValidCompanyName.

(** ** Single-flight extraction *)

(** The content script is event driven.  [extractProfileData] is an async
    function: it runs synchronously up to its first [await], so the test of
    [isExtracting] and the assignment [isExtracting = true] are one atomic
    step; the body then suspends (polling in [waitForProfileContent]) and
    other events may run before it resumes.  A call that hits the guard
    returns at once, and the continuation of its caller runs as a microtask,
    before any other event.  The callers are [handleMessage] (the explicit
    request [extractProfile]) and [performInitialExtraction], which a timer
    runs: [init] arms one on load, the observer of navigation arms one when
    the URL changes to a profile, and [performInitialExtraction] arms one
    itself, 3 seconds ahead, while the profile data has no full name. *)




Definition maxAttempts : nat := 20.

    (* invocation [i] extracts, with this full name, or throws ([None]);
       it runs [finally] and its caller continues *)










(** The rules of [isValidCompanyName] other than the job-title score. *)
Definition otherCompanyRulesPass (text : jsstring) : bool :=
  negb (negb (nonempty text) || (length text <? 2))
  && negb (150 <? length text)
  && negb (matchesAny employmentTypePatterns text)
  && negb (matchesAny datePatterns text)
  && negb (matchesAny companyUiElements text)
  && negb (isConnectionDegreeText text).


(** A page on which locator 0 matches a button label, locator 1 matches
    nothing, locator 2 matches an organization name and locator 3 a date
    range. *)
Definition demoPage (sel : nat) : option jsstring :=
  match sel with
  | 0 => Some (lit "Message")
  | 2 => Some (lit "  Acme   Robotics ")
  | 3 => Some (lit "2019 - Present")
  | _ => None
  end.

End Content.
Import Content.

(* ================================================================== *)
(** * background.js: values *)
(* ================================================================== *)

Module Background.

(** JavaScript numbers are IEEE-754 doubles.  Their arithmetic is not
    needed here; what the code uses of them is collected in an interface. *)
Class NumberModel : Type := {
  num : Type;
  num_falsy : num -> bool;            (* [+0], [-0] and [NaN] *)
  num_isNaN : num -> bool;            (* [isNaN(n)] *)
  num_toString : num -> jsstring;     (* [String(n)] *)
  str_parseFloat : jsstring -> num    (* [parseFloat(s)] *)
}.

Section Values.

Context {NM : NumberModel}.

(** The values that reach the background script: contact data and field
    mappings arrive in a runtime message and response bodies come from
    [response.json()], so they are JSON-like.  No value is a [Date] (a
    message carries no [Date] instance), so [value instanceof Date] is
    false throughout.  Property reads see own properties only: mapping
    keys and field names are assumed not to be names of members of
    [Object.prototype]. *)
Inductive jsvalue : Type :=
| VUndefined
| VNull
| VBool (b : bool)
| VNum (n : num)
| VStr (s : jsstring)
| VArr (items : list jsvalue)
| VObj (props : list (jsstring * jsvalue)).

Definition object : Type := list (jsstring * jsvalue).

(** ** Objects as ordered property lists *)

Section Props.
Variable A : Type.

Fixpoint prop_get (o : list (jsstring * A)) (k : jsstring) : option A :=
  match o with
  | [] => None
  | (k', v) :: o' => if str_eqb k' k then Some v else prop_get o' k
  end.

(** [o[k] = v]: an existing property keeps its place. *)
Fixpoint prop_set (o : list (jsstring * A)) (k : jsstring) (v : A)
  : list (jsstring * A) :=
  match o with
  | [] => [(k, v)]
  | (k', v') :: o' =>
      if str_eqb k' k then (k', v) :: o' else (k', v') :: prop_set o' k v
  end.

Definition keys (o : list (jsstring * A)) : list jsstring := map fst o.
End Props.

(** [o[k]] on an object of values: [undefined] when absent. *)
Definition get (o : object) (k : jsstring) : jsvalue :=
  match prop_get o k with Some v => v | None => VUndefined end.

(** [v.k] for an arbitrary value [v] that is not [null] or [undefined]. *)
Definition member (v : jsvalue) (k : jsstring) : jsvalue :=
  match v with
  | VObj o => get o k
  | _ => VUndefined
  end.

(** ** Coercions *)

(** [Boolean(v)], the test of [if (v)], [!v] negated. *)
Definition truthy (v : jsvalue) : bool :=
  match v with
  | VUndefined | VNull => false
  | VBool b => b
  | VNum n => negb (num_falsy n)
  | VStr s => nonempty s
  | VArr _ | VObj _ => true
  end.

(** [typeof v]. *)
Definition typeof (v : jsvalue) : jsstring :=
  match v with
  | VUndefined => lit "undefined"
  | VNull | VArr _ | VObj _ => lit "object"
  | VBool _ => lit "boolean"
  | VNum _ => lit "number"
  | VStr _ => lit "string"
  end.

Definition isString (v : jsvalue) : bool :=
  match v with VStr _ => true | _ => false end.

Definition nonempty_list (A : Type) (l : list A) : bool :=
  match l with [] => false | _ => true end.

Definition isArray (v : jsvalue) : bool :=
  match v with VArr _ => true | _ => false end.

(** [v === ''] *)
Definition isEmptyString (v : jsvalue) : bool :=
  match v with VStr [] => true | _ => false end.

(** [v === null || v === undefined || v === ''] *)
Definition isBlank (v : jsvalue) : bool :=
  match v with
  | VUndefined | VNull | VStr [] => true
  | _ => false
  end.

(** [Array.prototype.join(',')] over already converted elements. *)
Fixpoint join (l : list jsstring) : jsstring :=
  match l with
  | [] => []
  | [s] => s
  | s :: l' => s ++ comma :: join l'
  end.

(** Thrown exceptions: a computation yields [None] when it throws. *)
Fixpoint sequence (A : Type) (l : list (option A)) : option (list A) :=
  match l with
  | [] => Some []
  | None :: _ => None
  | Some a :: l' =>
      match sequence l' with Some r => Some (a :: r) | None => None end
  end.

(** [String(v)].  A plain object converts through
    [Object.prototype.toString] unless it has an own property [toString]
    (never callable in JSON-like data), in which case the conversion throws
    a [TypeError]; an array converts through [join], where [null] and
    [undefined] elements become empty. *)
Fixpoint toString (v : jsvalue) : option jsstring :=
  match v with
  | VUndefined => Some (lit "undefined")
  | VNull => Some (lit "null")
  | VBool true => Some (lit "true")
  | VBool false => Some (lit "false")
  | VNum n => Some (num_toString n)
  | VStr s => Some s
  | VArr items =>
      match sequence (map (fun x =>
                             match x with
                             | VUndefined | VNull => Some []
                             | _ => toString x
                             end) items) with
      | Some parts => Some (join parts)
      | None => None
      end
  | VObj props =>
      match prop_get props (lit "toString") with
      | Some _ => None
      | None => Some (lit "[object Object]")
      end
  end.

(** ** [sanitizeValue] *)

Definition maxLength : nat := 100000.

(** [s.replace(/^Q|Q$/g, empty)], writing Q for the class of the two quote
    characters: one quote at the start and one at the end.  The pattern has
    the [g] flag; the first alternative can match at index 0 only, and the
    second only a quote that is the last unit of what is left. *)
Definition stripOneQuote (s : jsstring) : jsstring :=
  let s1 := match s with
            | c :: s' => if is_quote c then s' else s
            | [] => []
            end in
  match rev s1 with
  | c :: r => if is_quote c then rev r else s1
  | [] => []
  end.

(** [s.replace(/\0/g, '')] *)
Definition removeNulls (s : jsstring) : jsstring :=
  filter (fun c => negb (N.eqb c 0)) s.

Definition sanitizeString (s : jsstring) : jsstring :=
  let sanitized := trim s in
  let sanitized := stripOneQuote sanitized in
  let sanitized := removeNulls sanitized in
  let sanitized := collapse_ws sanitized in
  if maxLength <? length sanitized
  then substring0 maxLength sanitized
  else sanitized.

Fixpoint sanitizeValue (v : jsvalue) : jsvalue :=
  match v with
  | VUndefined | VNull => VNull
  | VStr s => VStr (sanitizeString s)
  | VArr items => VArr (map sanitizeValue items)
  | VObj props =>
      VObj (fold_left (fun sanitized kv =>
                         prop_set sanitized (fst kv) (sanitizeValue (snd kv)))
                      props [])
  | VBool _ | VNum _ => v
  end.

(** Every string value inside [v], through arrays and the property values
    of plain objects. *)
Fixpoint stringsOf (v : jsvalue) : list jsstring :=
  match v with
  | VStr s => [s]
  | VArr items => flat_map stringsOf items
  | VObj props => flat_map (fun kv => stringsOf (snd kv)) props
  | _ => []
  end.

(** ** [mapContactDataToAirtable] *)

Definition mapping : Type := list (jsstring * jsstring).

Definition defaultMappings : mapping :=
  [ (lit "fullName", lit "Name");
    (lit "jobTitle", lit "Job Title");
    (lit "company", lit "Company");
    (lit "location", lit "Location");
    (lit "email", lit "Email");
    (lit "phone", lit "Phone");
    (lit "profileUrl", lit "LinkedIn URL");
    (lit "profilePicture", lit "Profile Picture");
    (lit "tags", lit "Tag");
    (lit "notes", lit "Notes");
    (lit "contactDate", lit "Contact Date");
    (lit "followUpDate", lit "Follow Up On") ].

(** [{ ...a, ...b }] *)
Definition spread (A : Type) (a b : list (jsstring * A)) : list (jsstring * A) :=
  fold_left (fun o kv => prop_set o (fst kv) (snd kv)) b a.

(** The body of the [forEach] over the keys of the merged mappings. *)
Definition mapStep (contactData : object) (fields : object)
           (entry : jsstring * jsstring) : object :=
  let (dataKey, airtableField) := entry in
  if nonempty airtableField
     && truthy (get contactData dataKey)
     && negb (isEmptyString (get contactData dataKey))
  then prop_set fields airtableField (sanitizeValue (get contactData dataKey))
  else fields.

Definition mapContactDataToAirtable (contactData : object)
           (fieldMappings : mapping) : object :=
  let mappings := spread defaultMappings fieldMappings in
  fold_left (mapStep contactData) mappings [].

(** ** Field types *)

Inductive fieldKind : Type :=
| multipleAttachments | multipleRecordLinks | multipleSelects | singleSelect
| multilineText | singleLineText | richText
| number | currency | percent | rating
| checkbox | date | dateTime | url | email | phoneNumber
| otherKind.

Definition kindNames : list (string * fieldKind) :=
  [ ("multipleAttachments", multipleAttachments);
    ("multipleRecordLinks", multipleRecordLinks);
    ("multipleSelects", multipleSelects);
    ("singleSelect", singleSelect);
    ("multilineText", multilineText);
    ("singleLineText", singleLineText);
    ("richText", richText);
    ("number", number);
    ("currency", currency);
    ("percent", percent);
    ("rating", rating);
    ("checkbox", checkbox);
    ("date", date);
    ("dateTime", dateTime);
    ("url", url);
    ("email", email);
    ("phoneNumber", phoneNumber) ]%string.

(** The [case] label a [switch (fieldType)] selects. *)
Definition kindOf (fieldType : jsstring) : fieldKind :=
  match find (fun e => str_eqb (lit (fst e)) fieldType) kindNames with
  | Some e => snd e
  | None => otherKind
  end.

(** The type names that have a [case] of their own. *)
Definition knownTypes : list jsstring := map (fun e => lit (fst e)) kindNames.

(** ** [transformByFieldType] *)

(** [s.replace(/^Q+|Q+$/g, empty)], with Q the class of the two quote
    characters. *)
Definition stripQuotes (s : jsstring) : jsstring :=
  dropWhileEnd is_quote (dropWhile is_quote s).

(** [s.split(',').map(v => v.trim()).filter(v => v.length > 0)] *)
Definition splitList (s : jsstring) : list jsstring :=
  filter nonempty (map trim (split comma s)).

Definition isUrl (s : jsstring) : bool :=
  startsWith (lit "http://") s || startsWith (lit "https://") s.

Definition attachmentOf (v : jsvalue) : jsvalue :=
  match v with
  | VStr s => if startsWith (lit "http") s then VObj [(lit "url", v)] else VNull
  | VObj o => if truthy (get o (lit "url")) then v else VNull
  | _ => VNull
  end.

Definition isNull (v : jsvalue) : bool :=
  match v with VNull => true | _ => false end.

Definition validId (v : jsvalue) : bool :=
  match v with
  | VStr s => nonempty s && negb (startsWith (lit "http://") s)
              && negb (startsWith (lit "https://") s)
  | _ => false
  end.

Definition linkedRecord (value : jsvalue) : jsvalue :=
  if negb (truthy value)
     || match value with VStr [] | VArr [] => true | _ => false end
  then VNull
  else match value with
       | VArr items =>
           let validIds := filter validId items in
           match validIds with
           | [] => VNull
           | _ => VArr validIds
           end
       | VStr s =>
           if nonempty s then
             if isUrl s then VNull
             else if includes [comma] s then VArr (map VStr (splitList s))
             else VArr [value]
           else VNull
       | _ => VNull
       end.

(** The result is [None] when the transformation throws; [VNull] is the
    [null] that asks for the field to be excluded. *)
Definition transformByFieldType (fieldName : jsstring) (value : jsvalue)
           (fieldType : jsstring) : option jsvalue :=
  match kindOf fieldType with
  | multipleAttachments =>
      match value with
      | VStr s =>
          if startsWith (lit "http") s
          then Some (VArr [VObj [(lit "url", value)]])
          else Some (VArr [])
      | VArr items =>
          Some (VArr (filter (fun v => negb (isNull v)) (map attachmentOf items)))
      | _ => Some (VArr [])
      end
  | multipleRecordLinks => Some (linkedRecord value)
  | multipleSelects =>
      match value with
      | VStr s => Some (VArr (map VStr (splitList s)))
      | VArr items =>
          match sequence (map toString items) with
          | Some strs => Some (VArr (map VStr (filter nonempty strs)))
          | None => None
          end
      | _ =>
          match toString value with
          | Some s => Some (VArr [VStr s])
          | None => None
          end
      end
  | singleSelect =>
      let singleValue :=
        match value with
        | VArr items =>
            match items with
            | first :: _ => if truthy first then toString first else Some []
            | [] => Some []
            end
        | _ => toString value
        end in
      match singleValue with
      | Some s => Some (VStr (trim (stripQuotes s)))
      | None => None
      end
  | multilineText | singleLineText | richText =>
      match toString value with
      | Some s => Some (VStr (trim (stripQuotes s)))
      | None => None
      end
  | number | currency | percent | rating =>
      match toString value with
      | Some s =>
          let n := str_parseFloat s in
          Some (if num_isNaN n then VNull else VNum n)
      | None => None
      end
  | checkbox =>
      match value with
      | VBool _ => Some value
      | VStr s =>
          Some (VBool (str_eqb (toLowerCase s) (lit "true") || str_eqb s (lit "1")))
      | _ => Some (VBool (truthy value))
      end
  | date | dateTime | url | email | phoneNumber =>
      match toString value with
      | Some s => Some (VStr s)
      | None => None
      end
  | otherKind => Some value
  end.

(** ** [transformByHeuristic] *)

Definition transformByHeuristic (fieldName : jsstring) (value : jsvalue)
  : jsvalue :=
  let lowerName := toLowerCase fieldName in
  if match value with VStr s => startsWith (lit "http") s | _ => false end
     && (includes (lit "picture") lowerName || includes (lit "photo") lowerName
         || includes (lit "image") lowerName)
  then value
  else
    if includes (lit "tag") lowerName || includes (lit "categor") lowerName
    then match value with
         | VStr s =>
             match splitList s with
             | [] => value
             | [item] => VStr item
             | items => VArr (map VStr items)
             end
         | _ => value
         end
    else value.

(** ** [transformFieldsForAirtable] *)

(** A fetched schema maps field names to type names; [None] is the [null]
    of an unknown schema. *)
Definition schema : Type := option (list (jsstring * jsstring)).

(** [schema ? schema[fieldName] : null]; a missing or empty type is falsy. *)
Definition fieldTypeOf (sch : schema) (fieldName : jsstring) : option jsstring :=
  match sch with
  | Some types =>
      match prop_get types fieldName with
      | Some t => if nonempty t then Some t else None
      | None => None
      end
  | None => None
  end.

Definition transformStep (sch : schema) (transformedFields : object)
           (entry : jsstring * jsvalue) : object :=
  let (fieldName, value) := entry in
  if isBlank value then transformedFields
  else
    let attempt :=
      match fieldTypeOf sch fieldName with
      | Some fieldType => transformByFieldType fieldName value fieldType
      | None => Some (transformByHeuristic fieldName value)
      end in
    match attempt with
    | Some VNull => transformedFields
    | Some transformedValue => prop_set transformedFields fieldName transformedValue
    | None => prop_set transformedFields fieldName value
    end.

(** The schema is the one [fetchTableSchema] returned for this request. *)
Definition transformFieldsForAirtable (fields : object) (sch : schema) : object :=
  fold_left (transformStep sch) fields [].

(** ** [validateFieldValue] *)

Record validation : Type := { isValid : bool; reason : option jsstring }.

Definition valid : validation := {| isValid := true; reason := None |}.
Definition invalid (why : jsstring) : validation :=
  {| isValid := false; reason := Some why |}.

Definition hasUrlString (v : jsvalue) : bool :=
  match v with
  | VObj o => isString (get o (lit "url"))
  | _ => false
  end.

Definition validateFieldValue (fieldName : jsstring) (value : jsvalue)
           (fieldType : jsstring) : validation :=
  match kindOf fieldType with
  | multipleRecordLinks =>
      match value with
      | VArr items =>
          if forallb isString items then valid
          else invalid (lit "All record IDs must be strings")
      | _ => invalid (lit "Expected array of record IDs for linked record field, got "
                        ++ typeof value)
      end
  | multipleAttachments =>
      match value with
      | VArr items =>
          if forallb hasUrlString items then valid
          else invalid (lit "All attachments must be objects with url property")
      | _ => invalid (lit "Expected array of attachment objects, got " ++ typeof value)
      end
  | multipleSelects =>
      match value with
      | VArr _ => valid
      | _ => invalid (lit "Expected array of strings for multi-select, got "
                        ++ typeof value)
      end
  | singleSelect =>
      match value with
      | VStr _ => valid
      | _ => invalid (lit "Expected string for single select, got " ++ typeof value)
      end
  | number | currency | percent | rating =>
      match value with
      | VNum n =>
          if num_isNaN n then invalid (lit "Expected number, got " ++ typeof value)
          else valid
      | _ => invalid (lit "Expected number, got " ++ typeof value)
      end
  | checkbox =>
      match value with
      | VBool _ => valid
      | _ => invalid (lit "Expected boolean, got " ++ typeof value)
      end
  | singleLineText | multilineText | richText | email | url | phoneNumber
  | date | dateTime =>
      match value with
      | VStr _ => valid
      | _ => invalid (lit "Expected string, got " ++ typeof value)
      end
  | otherKind => valid
  end.

(** ** [validateAndFilterFields] *)

(** The two shapes of entry pushed on [excludedFields]:
    [{field, reason, value}] and [{field, reason, expectedType,
    actualValue}]. *)
Inductive excludedField : Type :=
| NotInSchema (field reason : jsstring) (value : jsvalue)
| Mismatch (field : jsstring) (reason : option jsstring)
           (expectedType : jsstring) (actualValue : jsvalue).

Definition isValidLinkedRecord (value : jsvalue) : bool :=
  match value with
  | VArr items =>
      nonempty_list items
      && forallb (fun v => match v with
                           | VStr s => negb (startsWith (lit "http") s)
                           | _ => false
                           end) items
  | _ => false
  end.

Inductive verdict : Type :=
| Skipped
| Accepted
| Excluded (e : excludedField).

(** What one iteration of the loop decides for an entry. *)
Definition judge (sch : schema) (fieldName : jsstring) (value : jsvalue) : verdict :=
  if isBlank value then Skipped
  else
    match sch with
    | None => Accepted
    | Some types =>
        match fieldTypeOf sch fieldName with
        | None =>
            Excluded (NotInSchema fieldName
                        (lit "Field does not exist in Airtable table") value)
        | Some fieldType =>
            if str_eqb fieldType (lit "multipleRecordLinks")
               && negb (isValidLinkedRecord value)
            then Excluded (Mismatch fieldName
                             (Some (lit "Linked record field requires array of record IDs, not URLs or text"))
                             fieldType value)
            else
              let validationResult := validateFieldValue fieldName value fieldType in
              if isValid validationResult then Accepted
              else Excluded (Mismatch fieldName (reason validationResult)
                               fieldType value)
        end
    end.

Definition validateStep (sch : schema) (acc : object * list excludedField)
           (entry : jsstring * jsvalue) : object * list excludedField :=
  let (validFields, excludedFields) := acc in
  match judge sch (fst entry) (snd entry) with
  | Skipped => acc
  | Accepted => (prop_set validFields (fst entry) (snd entry), excludedFields)
  | Excluded e => (validFields, excludedFields ++ [e])
  end.

Definition validateAndFilterFields (fields : object) (sch : schema)
  : object * list excludedField :=
  fold_left (validateStep sch) fields ([], []).

(** ** [fetchTableSchema] *)

Definition types : Type := list (jsstring * jsstring).
Definition details : Type := list (jsstring * (jsstring * jsvalue)).

(** The object kept in [this.cachedSchema]. *)
Record cacheEntry : Type := {
  configKey : jsstring;
  fieldTypes : types;
  fieldDetails : details;
  timestamp : Z
}.

(** The object kept in [chrome.storage.local] under
    [airtableSchema_<configKey>]. *)
Record storedSchema : Type := {
  storedFieldTypes : types;
  storedFieldDetails : details;
  storedTimestamp : Z
}.

(** The state the function reads and writes: the service's
    [cachedSchema] property ([None] when unset) and the durable store. *)
Record service : Type := {
  cachedSchema : option cacheEntry;
  storage : list (jsstring * storedSchema)
}.

Record config : Type := {
  apiToken : jsstring;
  baseId : jsstring;
  tableId : jsstring
}.

Record fieldInfo : Type := {
  fieldName : jsstring;
  fieldType : jsstring;
  fieldOptions : jsvalue
}.

Record tableInfo : Type := {
  tableIdent : jsstring;
  tableName : jsstring;
  tableFields : option (list fieldInfo)      (* [None]: falsy or missing *)
}.

(** What the network does when [fetch] is called. *)
Inductive fetchOutcome : Type :=
| NetworkError                               (* [fetch] rejects *)
| HttpError (status : Z)                     (* [response.ok] is false *)
| HttpOk (tables : option (list tableInfo)).
    (* [Some l]: [data.tables] ([[]] when it is missing); [None]: reading
       the body throws. *)

(** Everything outside the service that one call observes. *)
Record world : Type := {
  now : Z;                     (* [Date.now()] when the cache is examined *)
  response : fetchOutcome;
  storeTime : Z;               (* [Date.now()] put in the new cache entry *)
  persistTime : Z;             (* [Date.now()] put in the stored copy *)
  storageSetFails : bool;      (* [chrome.storage.local.set] rejects *)
  storageGetFails : bool       (* [chrome.storage.local.get] rejects *)
}.

Definition cacheTimeout : Z := 5 * 60 * 1000.

Definition configKeyOf (cfg : config) : jsstring :=
  baseId cfg ++ lit ":" ++ tableId cfg.

Definition storageKey (key : jsstring) : jsstring :=
  lit "airtableSchema_" ++ key.

(** The condition of the first [if]. *)
Definition cacheIsFresh (st : service) (key : jsstring) (t : Z) : bool :=
  match cachedSchema st with
  | Some c =>
      str_eqb (configKey c) key
      && negb (Z.eqb (timestamp c) 0)
      && Z.ltb (t - timestamp c) cacheTimeout
  | None => false
  end.

Definition schemaOfFields (fields : list fieldInfo) : types * details :=
  fold_left
    (fun acc f =>
       (prop_set (fst acc) (fieldName f) (fieldType f),
        prop_set (snd acc) (fieldName f)
          (fieldType f,
           if truthy (fieldOptions f) then fieldOptions f else VNull)))
    fields ([], []).

(** The [catch] block: the stored copy, else [null]. *)
Definition storageFallback (st : service) (w : world) (key : jsstring)
  : schema * service :=
  if storageGetFails w then (None, st)
  else
    match prop_get (storage st) (storageKey key) with
    | Some stored =>
        (Some (storedFieldTypes stored),
         {| cachedSchema :=
              Some {| configKey := key;
                      fieldTypes := storedFieldTypes stored;
                      fieldDetails := storedFieldDetails stored;
                      timestamp := storedTimestamp stored |};
            storage := storage st |})
    | None => (None, st)
    end.

(** The result, the state afterwards and the number of calls of [fetch]. *)
Definition fetchTableSchema (cfg : config) (st : service) (w : world)
  : schema * service * nat :=
  let key := configKeyOf cfg in
  if cacheIsFresh st key (now w) then
    match cachedSchema st with
    | Some c => (Some (fieldTypes c), st, 0)
    | None => (None, st, 0)
    end
  else
    match response w with
    | HttpError _ =>
        match cachedSchema st with
        | Some c =>
            if str_eqb (configKey c) key then (Some (fieldTypes c), st, 1)
            else (None, st, 1)
        | None => (None, st, 1)
        end
    | HttpOk (Some tables) =>
        match find (fun t => str_eqb (tableIdent t) (tableId cfg)
                             || str_eqb (tableName t) (tableId cfg)) tables with
        | Some {| tableFields := Some fields |} =>
            let (fieldTypes, fieldDetails) := schemaOfFields fields in
            (Some fieldTypes,
             {| cachedSchema :=
                  Some {| configKey := key;
                          fieldTypes := fieldTypes;
                          fieldDetails := fieldDetails;
                          timestamp := storeTime w |};
                storage :=
                  if storageSetFails w then storage st
                  else prop_set (storage st) (storageKey key)
                         {| storedFieldTypes := fieldTypes;
                            storedFieldDetails := fieldDetails;
                            storedTimestamp := persistTime w |} |},
             1)
        | _ => (None, st, 1)
        end
    | NetworkError | HttpOk None =>
        let (result, st') := storageFallback st w key in
        (result, st', 1)
    end.

(** ** [parseAirtableError] *)

(** An [Error]: everything the callers pass is one, so [error.message] is a
    string. *)
Record jsError : Type := { errorText : jsstring }.

Record fieldError : Type := { field : jsstring; error : jsstring }.

Record errorInfo : Type := {
  message : jsvalue;
  unknownFields : list jsstring;
  fieldErrors : list fieldError
}.

Definition dquote : jschar := 34%N.
Definition newline : jschar := 10%N.

(** [errorMsg.match(/Q([^Q]+)Q/)?.[1]], writing Q for the double quote. *)
Definition quotedName (errorMsg : jsstring) : option jsstring :=
  group1 (ch dquote) (plus (Cls (fun c => negb (N.eqb c dquote)))) (ch dquote)
         errorMsg.

(** [errorMsg.match(/field[s]?\s+Q?([^Q\s,]+)Q?/i)?.[1]], writing Q for
    either quote character (in the source a two-character class). *)
Definition fieldNameIn (errorMsg : jsstring) : option jsstring :=
  group1 (seqs [ci "field"; opt (ci "s"); plus ws; opt (Cls is_quote)])
         (plus (Cls (fun c => negb (is_quote c || is_ws c || N.eqb c comma))))
         (opt (Cls is_quote))
         errorMsg.

(** [x || ''] *)
Definition orEmpty (x : jsvalue) : jsvalue :=
  if truthy x then x else VStr [].

Definition isType (errorType : jsvalue) (name : string) : bool :=
  match errorType with
  | VStr s => str_eqb s (lit name)
  | _ => false
  end.

Definition isObject (v : jsvalue) : bool :=
  match v with VObj _ | VArr _ => true | _ => false end.

(** The part of the function that reads the response body.  It returns the
    three local variables, or [None] when it throws: a method of
    [String.prototype] is called on [errorMsg], which is a [TypeError] when
    [errorMsg] is not a string. *)
Definition parseBody (errorMessage : jsvalue) (responseData : jsvalue)
  : option (jsvalue * list jsstring * list fieldError) :=
  if truthy responseData && isObject responseData then
    let airtableError := member responseData (lit "error") in
    if truthy airtableError && isObject airtableError then
      let errorType := orEmpty (member airtableError (lit "type")) in
      let errorMsg := orEmpty (member airtableError (lit "message")) in
      if isType errorType "UNKNOWN_FIELD_NAME" then
        match errorMsg with
        | VStr msg =>
            match quotedName msg with
            | Some fieldName =>
                Some (VStr (lit "Unknown field: " ++ [dquote] ++ fieldName ++ [dquote]
                            ++ lit ". Please check your field mappings in the configuration section."),
                      [fieldName],
                      [{| field := fieldName;
                          error := lit "Field does not exist in Airtable table" |}])
            | None => Some (VStr (lit "Unknown field error. " ++ msg), [], [])
            end
        | _ => None
        end
      else if isType errorType "INVALID_VALUE_FOR_COLUMN" then
        match errorMsg with
        | VStr msg =>
            let typeHint :=
              if includes (lit "record id") (toLowerCase msg)
              then lit " The field appears to be a Linked Record type, but a URL was provided. Change the field type in Airtable to URL or Attachment."
              else if includes (lit "array") (toLowerCase msg)
              then lit " The field expects an array format. Check the field type in Airtable."
              else [] in
            match fieldNameIn msg with
            | Some fieldName =>
                Some (VStr (lit "Invalid data type for field " ++ [dquote] ++ fieldName
                            ++ [dquote] ++ lit "." ++ typeHint ++ lit " Details: " ++ msg),
                      [],
                      [{| field := fieldName;
                          error := lit "Invalid data type for this field" ++ typeHint |}])
            | None => Some (VStr (lit "Invalid data type error. " ++ msg), [], [])
            end
        | _ => None
        end
      else if isType errorType "INVALID_MULTIPLE_CHOICE_OPTIONS" then
        match errorMsg with
        | VStr msg =>
            Some (VStr (lit "Permission Error: Your Airtable API token doesn't have permission to create new select options. To fix this:"
                        ++ [newline; newline]
                        ++ lit "1. Go to https://airtable.com/create/tokens" ++ [newline]
                        ++ lit "2. Edit your token to add the " ++ [dquote]
                        ++ lit "schema.bases:write" ++ [dquote] ++ lit " scope" ++ [newline]
                        ++ lit "3. Or manually add the missing value to your Single Select field in Airtable"
                        ++ [newline; newline] ++ lit "Details: " ++ msg),
                  [], [])
        | _ => None
        end
      else if isType errorType "INVALID_REQUEST_UNKNOWN"
              || isType errorType "INVALID_REQUEST_BODY" then
        match errorMsg with
        | VStr msg =>
            Some (VStr (lit "Invalid data format: "
                        ++ (if nonempty msg then msg
                            else lit "Please verify your data and field mappings")),
                  [],
                  match fieldNameIn msg with
                  | Some fieldName => [{| field := fieldName; error := msg |}]
                  | None => []
                  end)
        | _ => None
        end
      else if isType errorType "INVALID_PERMISSIONS" then
        match toString errorMsg with
        | Some msg =>
            Some (VStr (lit "Permission denied: " ++ msg
                        ++ lit ". Check your API token permissions."), [], [])
        | None => None
        end
      else if isType errorType "NOT_FOUND" then
        match toString errorMsg with
        | Some msg =>
            Some (VStr (lit "Resource not found: " ++ msg
                        ++ lit ". Please verify your Base ID and Table ID."), [], [])
        | None => None
        end
      else if truthy errorMsg then Some (errorMsg, [], [])
      else Some (errorMessage, [], [])
    else if truthy (member responseData (lit "message")) then
      Some (member responseData (lit "message"), [], [])
    else Some (errorMessage, [], [])
  else Some (errorMessage, [], []).

(** The chain of [error.message.includes(...)] tests. *)
Definition statusMessage (text : jsstring) (errorMessage : jsvalue) : jsvalue :=
  if includes (lit "401") text
  then VStr (lit "Invalid API token. Please check your Airtable configuration.")
  else if includes (lit "403") text
  then VStr (lit "Permission denied. Check your API token permissions.")
  else if includes (lit "404") text
  then VStr (lit "Base or table not found. Please verify your Base ID and Table ID.")
  else if includes (lit "422") text
  then VStr (lit "Invalid data format. Check your field mappings and ensure field types match.")
  else if includes (lit "429") text
  then VStr (lit "Rate limit exceeded. Please wait a moment before trying again.")
  else if includes (lit "network") text
  then VStr (lit "Network error. Please check your internet connection.")
  else errorMessage.

(** [None] when the function throws.  The logging at its start is inside
    [try] blocks or cannot throw, and does not touch the result. *)
Definition parseAirtableError (error : jsError) (responseData : jsvalue)
           (sentFields : jsvalue) : option errorInfo :=
  match parseBody (VStr (errorText error)) responseData with
  | Some (errorMessage, unknownFields, fieldErrors) =>
      Some {| message := statusMessage (errorText error) errorMessage;
              unknownFields := unknownFields;
              fieldErrors := fieldErrors |}
  | None => None
  end.

(** ** The pipeline after the mapper *)

(** Transformation, then validation, against one schema. *)
Definition transformAndValidate (fields : object) (sch : schema)
  : object * list excludedField :=
  validateAndFilterFields (transformFieldsForAirtable fields sch) sch.

(** FieldMapper, TypeTransformer, SchemaValidator. *)
Definition pipeline (contactData : object) (fieldMappings : mapping) (sch : schema)
  : object * list excludedField :=
  transformAndValidate (mapContactDataToAirtable contactData fieldMappings) sch.

(** The field types whose transform strips quotes before it trims. *)
Definition stripsQuotes (k : fieldKind) : bool :=
  match k with
  | singleSelect | multilineText | singleLineText | richText => true
  | _ => false
  end.

(** No string of a single-select or text field starts or ends with a
    quote. *)
Definition quotesSettled (sch : schema) (fields : object) : bool :=
  forallb (fun e =>
             match fieldTypeOf sch (fst e), snd e with
             | Some fieldType, VStr s =>
                 if stripsQuotes (kindOf fieldType)
                 then startsClean is_quote s && endsClean is_quote s
                 else true
             | _, _ => true
             end) fields.

(** No linked-record field holds a value that the validator's special
    rule for linked records rejects. *)
Definition linksSettled (sch : schema) (fields : object) : bool :=
  forallb (fun e =>
             match fieldTypeOf sch (fst e) with
             | Some fieldType =>
                 match kindOf fieldType with
                 | multipleRecordLinks => isValidLinkedRecord (snd e)
                 | _ => true
                 end
             | None => true
             end) fields.

(** What the code relies on from the number type: a number that is not
    [NaN] is read back from its own decimal form (the two zeros being one
    number), and no number prints as the empty string. *)
Definition numberLaws : Prop :=
  (forall n, num_isNaN n = false -> str_parseFloat (num_toString n) = n)
  /\ (forall n, num_toString n <> []).

(** ** The two loops, entry by entry *)

(** A loop that assigns, for each entry in turn, a value under the
    entry's own key, or nothing: over entries with distinct keys it appends
    what it assigns. *)
Definition collect (A : Type) (g : jsstring * A -> option A) (l : list (jsstring * A))
  : list (jsstring * A) :=
  flat_map (fun e => match g e with Some v => [(fst e, v)] | None => [] end) l.

(** What one iteration of [transformFieldsForAirtable] assigns. *)
Definition written (sch : schema) (entry : jsstring * jsvalue) : option jsvalue :=
  if isBlank (snd entry) then None
  else
    match match fieldTypeOf sch (fst entry) with
          | Some fieldType => transformByFieldType (fst entry) (snd entry) fieldType
          | None => Some (transformByHeuristic (fst entry) (snd entry))
          end with
    | Some VNull => None
    | Some transformedValue => Some transformedValue
    | None => Some (snd entry)
    end.

(** The verdict of the validation loop on an entry. *)
Definition accepted (sch : schema) (e : jsstring * jsvalue) : bool :=
  match judge sch (fst e) (snd e) with Accepted => true | _ => false end.

Definition exclusionOf (sch : schema) (e : jsstring * jsvalue) : list excludedField :=
  match judge sch (fst e) (snd e) with Excluded x => [x] | _ => [] end.

(** The identifiers a linked-record transform returns are non-empty
    strings. *)
Definition isIdentifier (v : jsvalue) : bool :=
  match v with VStr s => nonempty s | _ => false end.

(** A value that is a string whenever it is truthy. *)
Definition stringIfPresent (v : jsvalue) : bool :=
  isString v || negb (truthy v).

(** The response bodies in which [error.message] and the body's own
    [message] are strings where present. *)
Definition plainMessages (responseData : jsvalue) : bool :=
  stringIfPresent (member (member responseData (lit "error")) (lit "message"))
  && stringIfPresent (member responseData (lit "message")).

End Values.

(** ** A number model *)

(** Non-negative integers and [NaN], printed in decimal: enough of the
    doubles to run the functions above on concrete data. *)
Fixpoint uint_chars (d : Decimal.uint) : jsstring :=
  match d with
  | Decimal.Nil => []
  | Decimal.D0 d' => 48%N :: uint_chars d'
  | Decimal.D1 d' => 49%N :: uint_chars d'
  | Decimal.D2 d' => 50%N :: uint_chars d'
  | Decimal.D3 d' => 51%N :: uint_chars d'
  | Decimal.D4 d' => 52%N :: uint_chars d'
  | Decimal.D5 d' => 53%N :: uint_chars d'
  | Decimal.D6 d' => 54%N :: uint_chars d'
  | Decimal.D7 d' => 55%N :: uint_chars d'
  | Decimal.D8 d' => 56%N :: uint_chars d'
  | Decimal.D9 d' => 57%N :: uint_chars d'
  end.

Fixpoint chars_uint (s : jsstring) : Decimal.uint :=
  match s with
  | [] => Decimal.Nil
  | c :: s' =>
      let d := chars_uint s' in
      match (c - 48)%N with
      | 0%N => Decimal.D0 d
      | 1%N => Decimal.D1 d
      | 2%N => Decimal.D2 d
      | 3%N => Decimal.D3 d
      | 4%N => Decimal.D4 d
      | 5%N => Decimal.D5 d
      | 6%N => Decimal.D6 d
      | 7%N => Decimal.D7 d
      | 8%N => Decimal.D8 d
      | _ => Decimal.D9 d
      end
  end.

Definition natToString (n : option N) : jsstring :=
  match n with
  | Some k => uint_chars (N.to_uint k)
  | None => lit "NaN"
  end.

(** The longest prefix of decimal digits after leading white space. *)
Definition natParseFloat (s : jsstring) : option N :=
  match takeWhile is_digit (dropWhile is_ws s) with
  | [] => None
  | ds => Some (N.of_uint (chars_uint ds))
  end.

#[export] Instance NatNumbers : NumberModel := {|
  num := option N;
  num_falsy := fun n => match n with Some 0%N | None => true | _ => false end;
  num_isNaN := fun n => match n with None => true | Some _ => false end;
  num_toString := natToString;
  str_parseFloat := natParseFloat
|}.

(** ** Two situations of the schema cache *)

Definition demoConfig : config :=
  {| apiToken := lit "patXYZ"; baseId := lit "app1"; tableId := lit "tbl1" |}.

Definition demoTypes : types :=
  [(lit "Name", lit "singleLineText"); (lit "Job Title", lit "singleLineText")].

(** The service worker was restarted: no entry in memory, the copy of an
    earlier fetch in the durable store. *)
Definition restartedService : service :=
  {| cachedSchema := None;
     storage := [(lit "airtableSchema_app1:tbl1",
                  {| storedFieldTypes := demoTypes;
                     storedFieldDetails := [];
                     storedTimestamp := 1000 |})] |}.

(** An entry in memory fetched at time 1000, whose write to the durable
    store had failed. *)
Definition unpersistedService : service :=
  {| cachedSchema := Some {| configKey := lit "app1:tbl1";
                             fieldTypes := demoTypes;
                             fieldDetails := [];
                             timestamp := 1000 |};
     storage := [] |}.

(** Ten minutes later the remote answers with status 503. *)
Definition serverErrorWorld : world :=
  {| now := 601000; response := HttpError 503;
     storeTime := 601200; persistTime := 601200;
     storageSetFails := false; storageGetFails := false |}.

(** Ten minutes later the network is unreachable. *)
Definition offlineWorld : world :=
  {| now := 601000; response := NetworkError;
     storeTime := 601200; persistTime := 601200;
     storageSetFails := false; storageGetFails := false |}.

(** ** Records for the pipeline *)

(** A record in which the employer is the empty string and no location
    was extracted. *)
Definition janeRecord : object :=
  [ (lit "fullName", VStr (lit "Jane Doe"));
    (lit "jobTitle", VStr (lit "Product Manager"));
    (lit "company", VStr []);
    (lit "location", VNull) ].


Definition janeSchema : schema :=
  Some [ (lit "Name", lit "singleLineText");
         (lit "Job Title", lit "singleLineText");
         (lit "Location", lit "singleLineText") ].

Definition janeProfile : object :=
  [ (lit "fullName", VStr (lit "Jane Doe"));
    (lit "jobTitle", VStr (lit "Product Manager"));
    (lit "company", VStr []);
    (lit "location", VStr []);
    (lit "profileUrl", VStr (lit "https://x/in/jane")) ].

(** A note that consists of a quote, a space, a quote and a word. *)
Definition quotedNote : object :=
  [ (lit "notes", VStr (lit "' 'hello")) ].

Definition notesSchema : schema :=
  Some [ (lit "Notes", lit "multilineText") ].

(** The body Airtable sends for a field name it does not know. *)
Definition unknownFieldBody : jsvalue :=
  VObj [(lit "error",
         VObj [(lit "type", VStr (lit "UNKNOWN_FIELD_NAME"));
               (lit "message",
                VStr (lit "Unknown field name: " ++ [dquote] ++ lit "Phone" ++ [dquote]))])].

End Background.
Import Background.

(* ================================================================== *)
(** * Regular expressions: replacement *)
(* ================================================================== *)

(** A unit that, if it is white space, is the plain space. *)
Definition spaceOnly (c : jschar) : bool := negb (is_ws c) || N.eqb c space.

Module Replace.

(** The repetition loop of [rmatch], by name: [rmatch (Star a) b s k] is
    [starLoop a k (length s) b s]. *)
Fixpoint starLoop (A : Type) (a : regex) (k : bool -> jsstring -> option A)
         (n : nat) (b : bool) (s : jsstring) {struct n} : option A :=
  match n with
  | O => k b s
  | S n' =>
      orelse
        (rmatch a b s
           (fun b' s' =>
              if length s' <? length s then starLoop a k n' b' s' else None))
        (k b s)
  end.

(** The subject with its leftmost match at or after the head removed;
    [None] when there is no match. *)
Fixpoint replaceFrom (r : regex) (b : bool) (s : jsstring) : option jsstring :=
  match rmatch r b s (fun _ rest => Some rest) with
  | Some rest => Some rest
  | None =>
      match s with
      | [] => None
      | c :: s' =>
          match replaceFrom r false s' with
          | Some x => Some (c :: x)
          | None => None
          end
      end
  end.

(** [s.replace(r, '')] for a pattern without the [g] flag. *)
Definition replaceFirst (r : regex) (s : jsstring) : jsstring :=
  match replaceFrom r true s with
  | Some x => x
  | None => s
  end.

(** Whatever [r1] matches, in any context, [r2] matches too. *)
Definition covered (r1 r2 : regex) : Prop :=
  forall b s (k1 k2 : bool -> jsstring -> option unit),
    (forall b' s', k1 b' s' <> None -> k2 b' s' <> None) ->
    rmatch r1 b s k1 <> None -> rmatch r2 b s k2 <> None.

(** A pattern that only matches up to the end of the subject. *)
Definition toTheEnd (r : regex) : Prop :=
  forall b s (k : bool -> jsstring -> option jsstring) x,
    rmatch r b s k = Some x -> exists b', k b' [] = Some x.

End Replace.
Import Replace.

(* ================================================================== *)
(** * content.js: the rest of the extractor *)
(* ================================================================== *)

Module Extractor.

(** U+2022 BULLET and the vertical bar. *)
Definition bullet : jschar := 8226%N.
Definition pipe : jschar := 124%N.
Definition hyphen : jschar := 45%N.

(** ** [cleanJobTitle] and [cleanCompanyName] *)

(** [/\s*X.*$/] for a separator character X. *)
Definition cutAt (c : jschar) : regex := seqs [Star ws; ch c; Star dot; Eol].

(** [/\s*X\s*(Full-time|Part-time|Contract|Freelance|Internship|Self-employed).*$/i] *)
Definition employmentSuffix (c : jschar) : regex :=
  seqs [Star ws; ch c; Star ws; employmentTypes6; Star dot; Eol].

(** [/\s*\(.*\)$/] *)
Definition parenthetical : regex :=
  seqs [Star ws; ch 40%N; Star dot; ch 41%N; Eol].

(** [/\s*\d{4}\s*D.*$/i], with D the class [dash]. *)
Definition dateRangeSuffix : regex :=
  seqs [Star ws; rep 4 digit; Star ws; dash; Star dot; Eol].

(** [/^at\s+/i] and [/^company:\s*/i] *)
Definition atPrefix : regex := seqs [Bol; ci "at"; plus ws].
Definition companyPrefix : regex := seqs [Bol; ci "company:"; Star ws].

(** The substitutions of [cleanJobTitle] before the white-space clean-up,
    in the order of the source. *)
Definition jobTitleRules : list regex :=
  [ atPrefix;
    companyPrefix;
    employmentSuffix middot;
    employmentSuffix hyphen;
    cutAt bullet;
    cutAt pipe;
    cutAt middot;
    parenthetical;
    seqs [Star ws; plus digit; Star ws; ci "yr"; opt (ci "s"); Star dot; Eol];
    dateRangeSuffix ].

Definition applyRules (rules : list regex) (s : jsstring) : jsstring :=
  fold_left (fun text r => replaceFirst r text) rules s.

Definition cleanJobTitle (jobTitle : jsstring) : jsstring :=
  if negb (nonempty jobTitle) then []
  else trim (collapse_ws (applyRules jobTitleRules jobTitle)).

(** The substitutions of [cleanCompanyName] before the white-space
    clean-up, in the order of the source. *)
Definition companyRules : list regex :=
  [ employmentSuffix middot;
    employmentSuffix hyphen;
    (* /\s*\([\d,]+\+?\s*employees?\)/i *)
    seqs [Star ws; ch 40%N; plus (Cls (fun c => is_digit c || N.eqb c comma));
          opt (ch 43%N); Star ws; ci "employee"; opt (ci "s"); ch 41%N];
    parenthetical;
    (* /\s*X\s*\d+\s*yr(s)?.*$/i with X the middle dot *)
    seqs [Star ws; ch middot; Star ws; plus digit; Star ws; ci "yr"; opt (ci "s");
          Star dot; Eol];
    (* /\s*\d+\s*yr(s)?\s*\d*\s*mo(s)?.*$/i *)
    seqs [Star ws; plus digit; Star ws; ci "yr"; opt (ci "s"); Star ws;
          Star digit; Star ws; ci "mo"; opt (ci "s"); Star dot; Eol];
    dateRangeSuffix;
    (* /\s*,\s*[A-Z][a-z]+.*$/ *)
    seqs [Star ws; ch comma; Star ws;
          Cls (fun c => (65 <=? c) && (c <=? 90))%N;
          plus (Cls (fun c => (97 <=? c) && (c <=? 122))%N);
          Star dot; Eol];
    cutAt bullet;
    cutAt pipe;
    cutAt middot;
    companyPrefix;
    atPrefix;
    seqs [Star ws; ci "link"; Eol];
    seqs [Star ws; ci "page"; Eol];
    (* /\s*\.\s*$/ *)
    seqs [Star ws; ch 46%N; Star ws; Eol] ].

(** [[\s-]] *)
Definition is_ws_or_hyphen (c : jschar) : bool := is_ws c || N.eqb c hyphen.

(** [s.replace(/^[\s-]+|[\s-]+$/g, '')] *)
Definition stripEdges (s : jsstring) : jsstring :=
  dropWhileEnd is_ws_or_hyphen (dropWhile is_ws_or_hyphen s).

Definition cleanCompanyName (company : jsstring) : jsstring :=
  if negb (nonempty company) then []
  else trim (stripEdges (collapse_ws (applyRules companyRules company))).

(** ** [findElement] and [waitForProfileContent] *)

Section Finding.

Variable selector : Type.
Variable element : Type.

(** [document.querySelector] on the page as it is at one moment. *)
Variable querySelector : selector -> option element.

Fixpoint findElement (selectors : list selector) : option element :=
  match selectors with
  | [] => None
  | sel :: rest =>
      match querySelector sel with
      | Some e => Some e
      | None => findElement rest
      end
  end.

End Finding.

(** The six selectors [waitForProfileContent] looks for the name with. *)
Definition nameSelectors : list string :=
  [ "h1[data-generated-suggestion-target]";
    ".text-heading-xlarge";
    ".pv-text-details__left-panel h1";
    ".ph5 h1";
    "h1.break-words";
    "h1" ]%string.

(** [nameElement && nameElement.textContent.trim()], on a page given by the
    [textContent] each selector finds. *)
Definition profileReady (page : string -> option jsstring) : bool :=
  match findElement page nameSelectors with
  | Some text => nonempty (trim text)
  | None => false
  end.

Definition pollInterval : nat := 500.

(** The loop of [waitForProfileContent]: [pages n] is the page at the
    moment of the poll made after [n] waits.  The result is the final value
    of [attempts], which is the number of waits made, and whether the loop
    left through its [return]. *)
Fixpoint pollFrom (pages : nat -> string -> option jsstring)
         (remaining attempts : nat) : nat * bool :=
  match remaining with
  | O => (attempts, false)
  | S remaining' =>
      if profileReady (pages attempts) then (attempts, true)
      else pollFrom pages remaining' (S attempts)
  end.

Definition waitForProfileContent (pages : nat -> string -> option jsstring)
  : nat * bool :=
  pollFrom pages maxAttempts 0.

(** ** The end of [extractJobTitle] *)

(** [extractJobTitle] over its selector list: the loop, then
    [cleanJobTitle]. *)
Definition extractJobTitle (selector : Type) (page : selector -> option jsstring)
           (selectors : list selector) : jsstring :=
  cleanJobTitle (fst (jobTitleLoop page selectors)).

(** ** [extractCompanyFallback] and the end of [extractCompany] *)

(** A node of [allTextElements]: its [textContent] and whether its class
    list contains [t-bold]. *)
Definition textNode : Type := (jsstring * bool)%type.

Fixpoint extractCompanyFallback (allTextElements : list textNode) : jsstring :=
  match allTextElements with
  | [] => []
  | (raw, bold) :: rest =>
      let text := cleanText raw in
      if negb (nonempty text) || (length text <? 2) || bold
      then extractCompanyFallback rest
      else if isValidCompanyNameRelaxed text then text
      else extractCompanyFallback rest
  end.

(** [extractCompany].  [firstExperienceItem] is what the search for the
    first experience item ends with: [None] when none is found, else the
    selector list chosen for its layout and the text nodes the fallback
    goes through.  Then come the loop, the fallback when the loop found
    nothing, and [cleanCompanyName]. *)
Definition extractCompany (selector : Type) (page : selector -> option jsstring)
           (firstExperienceItem : option (list selector * list textNode))
  : jsstring :=
  match firstExperienceItem with
  | None => []
  | Some (selectors, allTextElements) =>
      let company := fst (companyLoop page selectors) in
      let company :=
        if negb (nonempty company) then extractCompanyFallback allTextElements
        else company in
      cleanCompanyName company
  end.

End Extractor.
Import Extractor.

(* ================================================================== *)
(** * The request-rate limiter *)
(* ================================================================== *)

Module Limiter.

(** [RateLimiter]: times are the integers of [Date.now()]. *)
Record rateLimiter : Type := {
  maxRequests : Z;
  windowMs : Z;
  requests : list Z
}.

(** [new RateLimiter(maxRequests, windowMs)] *)
Definition newLimiter (maxRequests windowMs : Z) : rateLimiter :=
  {| maxRequests := maxRequests; windowMs := windowMs; requests := [] |}.

(** [time => now - time < this.windowMs] *)
Definition inWindow (rl : rateLimiter) (now time : Z) : bool :=
  Z.ltb (now - time) (windowMs rl).

(** [canMakeRequest()] when [Date.now()] is [now]: the answer and the
    limiter afterwards. *)
Definition canMakeRequest (rl : rateLimiter) (now : Z) : bool * rateLimiter :=
  let kept := filter (inWindow rl now) (requests rl) in
  if Z.leb (maxRequests rl) (Z.of_nat (length kept))
  then (false, {| maxRequests := maxRequests rl; windowMs := windowMs rl;
                  requests := kept |})
  else (true, {| maxRequests := maxRequests rl; windowMs := windowMs rl;
                 requests := kept ++ [now] |}).

(** [getWaitTime()] when [Date.now()] is [now]; [None] is the [NaN] that
    [this.requests[0]] of an empty array leads to. *)
Definition getWaitTime (rl : rateLimiter) (now : Z) : option Z :=
  if Z.ltb (Z.of_nat (length (requests rl))) (maxRequests rl) then Some 0%Z
  else
    match requests rl with
    | oldestRequest :: _ => Some (Z.max 0 (windowMs rl - (now - oldestRequest)))
    | [] => None
    end.

(** A sequence of calls of [canMakeRequest] at the given times: the
    limiter afterwards and the times at which the answer was [true]. *)
Fixpoint callsFrom (rl : rateLimiter) (granted : list Z) (times : list Z)
  : rateLimiter * list Z :=
  match times with
  | [] => (rl, granted)
  | t :: times' =>
      let (answer, rl') := canMakeRequest rl t in
      callsFrom rl' (if answer then granted ++ [t] else granted) times'
  end.

Definition calls (maxRequests windowMs : Z) (times : list Z)
  : rateLimiter * list Z :=
  callsFrom (newLimiter maxRequests windowMs) [] times.

(** The times never go back. *)
Fixpoint nondecreasing (times : list Z) : Prop :=
  match times with
  | [] => True
  | t :: times' =>
      match times' with
      | [] => True
      | u :: _ => (t <= u)%Z /\ nondecreasing times'
      end
  end.

(** The granted times in the span of [windowMs] milliseconds that ends at
    [u], the end included. *)
Definition grantedIn (windowMs u : Z) (granted : list Z) : list Z :=
  filter (fun g => Z.ltb (u - windowMs) g && Z.leb g u) granted.

End Limiter.
Import Limiter.

(* ================================================================== *)
(** * background.js: the check of the field mappings *)
(* ================================================================== *)

Module Mappings.

Section Check.

Context {NM : NumberModel}.

(** An entry of [errors]: [{dataKey, fieldName, error}]. *)
Record mappingError : Type := {
  dataKey : jsstring;
  mappedField : jsstring;
  mappingErrorText : jsstring
}.

(** The body of the [forEach] of [validateFieldMappings]: nothing for an
    empty field name or a [null] schema, an error when [schema[name]] is
    missing or empty. *)
Definition mappingErrorsOf (sch : schema) (entry : jsstring * jsstring)
  : list mappingError :=
  let (dataKey, airtableFieldName) := entry in
  if negb (nonempty airtableFieldName) then []
  else
    match sch with
    | Some _ =>
        match fieldTypeOf sch airtableFieldName with
        | None =>
            [{| dataKey := dataKey;
                mappedField := airtableFieldName;
                mappingErrorText :=
                  lit "Field " ++ [dquote] ++ airtableFieldName ++ [dquote]
                  ++ lit " does not exist in your Airtable table" |}]
        | Some _ => []
        end
    | None => []
    end.

(** [validateFieldMappings(fieldMappings, schema)]: the [errors] and the
    [warnings], to which nothing is ever pushed. *)
Definition validateFieldMappings (fieldMappings : mapping) (sch : schema)
  : list mappingError * list jsvalue :=
  (flat_map (mappingErrorsOf sch) fieldMappings, []).

(** An entry of [excludedFields] of the first shape, pushed for a field
    the schema does not have. *)
Definition isNotInSchema (e : excludedField) : bool :=
  match e with NotInSchema _ _ _ => true | Mismatch _ _ _ _ => false end.

(** An element of an attachments array whose [url], if it is an object and
    has a truthy one, is a string. *)
Definition plainAttachment (v : jsvalue) : bool :=
  match v with
  | VObj o => stringIfPresent (get o (lit "url"))
  | _ => true
  end.

(** The value given for an attachments field carries no object with a
    truthy [url] that is not a string. *)
Definition plainAttachments (value : jsvalue) : bool :=
  match value with
  | VArr items => forallb plainAttachment items
  | _ => true
  end.

(** The service worker is stopped and started again: the property
    [cachedSchema] is gone, [chrome.storage.local] is kept. *)
Definition restart (st : service) : service :=
  {| cachedSchema := None; storage := storage st |}.

(** ** [saveToAirtable], up to the request it sends *)





(** ** content.js: [cleanProfileData] *)

Definition cleanValue (v : jsvalue) : jsvalue :=
  match v with
  | VStr s => VStr (cleanText s)
  | _ => v
  end.

Definition cleanProfileData (data : object) : object :=
  fold_left (fun cleaned key => prop_set cleaned key (cleanValue (get data key)))
            (keys data) [].

End Check.

(** A service worker that has fetched nothing yet. *)
Definition emptyService : service := {| cachedSchema := None; storage := [] |}.

(** The remote answers with the table [tbl1] and its two text fields. *)
Definition onlineWorld : world :=
  {| now := 1000;
     response :=
       HttpOk (Some [ {| tableIdent := lit "tbl1"; tableName := lit "Contacts";
                         tableFields :=
                           Some [ {| fieldName := lit "Name";
                                     fieldType := lit "singleLineText";
                                     fieldOptions := VUndefined |};
                                  {| fieldName := lit "Job Title";
                                     fieldType := lit "singleLineText";
                                     fieldOptions := VUndefined |} ] |} ]);
     storeTime := 1200; persistTime := 1201;
     storageSetFails := false; storageGetFails := false |}.

(** A table that has every field of the default mappings, as text. *)
Definition defaultSchema : schema :=
  Some (map (fun e => (snd e, lit "singleLineText")) defaultMappings).

(** A record whose organization is a record identifier that happens to
    start with the letters http, for a table in which the organization is a
    link to another table. *)
Definition linkRecord : object := [ (lit "Company", VStr (lit "httpbin-rec1")) ].

Definition linkSchema : schema := Some [ (lit "Company", lit "multipleRecordLinks") ].

(** The colon that joins base and table in the key of the schema cache. *)
Definition colon : jschar := 58%N.

(** Two configurations with different bases and tables and the same key,
    [app1:Q1:Leads], and a remote that answers with the table of the
    second. *)
Definition leadsOfQ1 : config :=
  {| apiToken := lit "patXYZ"; baseId := lit "app1:Q1"; tableId := lit "Leads" |}.

Definition q1LeadsOfApp1 : config :=
  {| apiToken := lit "patXYZ"; baseId := lit "app1"; tableId := lit "Q1:Leads" |}.

Definition q1LeadsWorld : world :=
  {| now := 1000;
     response :=
       HttpOk (Some [ {| tableIdent := lit "Q1:Leads"; tableName := lit "Leads of Q1";
                         tableFields :=
                           Some [ {| fieldName := lit "Lead";
                                     fieldType := lit "singleLineText";
                                     fieldOptions := VUndefined |} ] |} ]);
     storeTime := 1200; persistTime := 1201;
     storageSetFails := false; storageGetFails := false |}.

End Mappings.
Import Mappings.

(* ================================================================== *)
(** * Properties *)
(* ================================================================== *)

(** ** Strings *)

Lemma str_eqb_eq (a b : jsstring) : str_eqb a b = true <-> a = b.
Proof.
  revert b; induction a as [|x a IH]; intros [|y b]; simpl; split;
    try congruence; try reflexivity.
  - intros H. apply andb_true_iff in H as [H1 H2].
    apply N.eqb_eq in H1. apply IH in H2. congruence.
  - intros [= -> ->]. rewrite N.eqb_refl. simpl. now apply IH.
Qed.

Lemma str_eqb_refl (a : jsstring) : str_eqb a a = true.
Proof. now apply str_eqb_eq. Qed.

Lemma str_eqb_neq (a b : jsstring) : str_eqb a b = false <-> a <> b.
Proof.
  split.
  - intros H E. apply str_eqb_eq in E. congruence.
  - intros H. destruct (str_eqb a b) eqn:E; [|reflexivity].
    apply str_eqb_eq in E. contradiction.
Qed.


(** ** Locator cascades *)

Section CascadeFacts.

Variable selector : Type.
Variable querySelector : selector -> option jsstring.
Variable validate : jsstring -> bool.

Lemma cascade_skips_invalid (sel : selector) (rest : list selector) (raw : jsstring) :
  querySelector sel = Some raw ->
  validate (cleanText raw) = false ->
  cascade querySelector validate (sel :: rest)
  = cascade querySelector validate rest.
Proof. intros Hq Hv. simpl. now rewrite Hq, Hv. Qed.

Lemma cascade_skips_unmatched (sel : selector) (rest : list selector) :
  querySelector sel = None ->
  cascade querySelector validate (sel :: rest)
  = cascade querySelector validate rest.
Proof. intros Hq. simpl. now rewrite Hq. Qed.

Lemma cascade_first_valid (pre post : list selector) (sel : selector) (raw : jsstring) :
  querySelector sel = Some raw ->
  validate (cleanText raw) = true ->
  (forall s r, In s pre -> querySelector s = Some r ->
               validate (cleanText r) = false) ->
  cascade querySelector validate (pre ++ sel :: post) = (cleanText raw, Some sel).
Proof.
  intros Hq Hv. induction pre as [|s pre IH]; intros Hpre.
  - simpl. now rewrite Hq, Hv.
  - rewrite <- app_comm_cons.
    destruct (querySelector s) as [r|] eqn:Hs.
    + rewrite (cascade_skips_invalid _ Hs).
      * apply IH. intros s' r' Hin. apply Hpre. now right.
      * apply (Hpre s r); [now left | exact Hs].
    + rewrite (cascade_skips_unmatched _ Hs).
      apply IH. intros s' r' Hin. apply Hpre. now right.
Qed.

End CascadeFacts.

(** C3.  In the job-title and the company cascade alike, over any list of
    locators: when the locator [sel] matches a node whose cleaned text
    passes the field's validator, and every locator before it either
    matches nothing or matches text that fails the validator, the loop
    ends with the text and the locator of [sel]; and a locator that matches
    text failing the validator leaves the loop to go on with the locators
    after it. *)
Theorem cascade_selects_first_valid_match
  (selector : Type) (querySelector : selector -> option jsstring)
  (pre post : list selector) (sel : selector) (raw : jsstring) :
  querySelector sel = Some raw ->
  (isValidJobTitle (cleanText raw) = true ->
   (forall s r, In s pre -> querySelector s = Some r ->
                isValidJobTitle (cleanText r) = false) ->
   jobTitleLoop querySelector (pre ++ sel :: post) = (cleanText raw, Some sel))
  /\ (isValidCompanyName (cleanText raw) = true ->
      (forall s r, In s pre -> querySelector s = Some r ->
                   isValidCompanyName (cleanText r) = false) ->
      companyLoop querySelector (pre ++ sel :: post) = (cleanText raw, Some sel))
  /\ (isValidJobTitle (cleanText raw) = false ->
      jobTitleLoop querySelector (sel :: post) = jobTitleLoop querySelector post)
  /\ (isValidCompanyName (cleanText raw) = false ->
      companyLoop querySelector (sel :: post) = companyLoop querySelector post).
Proof.
  intros Hq. unfold jobTitleLoop, companyLoop. repeat split.
  - intros Hv Hpre. now apply cascade_first_valid.
  - intros Hv Hpre. now apply cascade_first_valid.
  - intros Hv. now apply cascade_skips_invalid with (raw := raw).
  - intros Hv. now apply cascade_skips_invalid with (raw := raw).
Qed.

Lemma cascade_selects_first_valid_match_witness :
  jobTitleLoop demoPage [0; 1; 2; 3] = (lit "Acme Robotics", Some 2)
  /\ companyLoop demoPage [0; 1; 2; 3] = (lit "Acme Robotics", Some 2)
  /\ jobTitleLoop demoPage [3; 2] = jobTitleLoop demoPage [2]
  /\ companyLoop demoPage [3; 2] = companyLoop demoPage [2].
Proof.
  assert (Hpre : forall (v : jsstring -> bool), v (lit "Message") = false ->
            forall s r, In s [0; 1] -> demoPage s = Some r ->
                        v (cleanText r) = false).
  { intros v Hv s r [<-|[<-|[]]] E; simpl in E; [|discriminate].
    injection E as <-. exact Hv. }
  destruct (@cascade_selects_first_valid_match nat demoPage [0; 1] [3] 2
              (lit "  Acme   Robotics ") eq_refl) as (HJ & HC & _ & _).
  destruct (@cascade_selects_first_valid_match nat demoPage [] [2] 3
              (lit "2019 - Present") eq_refl) as (_ & _ & HJs & HCs).
  split; [|split; [|split]].
  - apply HJ; [vm_compute; reflexivity | apply Hpre; vm_compute; reflexivity].
  - apply HC; [vm_compute; reflexivity | apply Hpre; vm_compute; reflexivity].
  - apply HJs. vm_compute. reflexivity.
  - apply HCs. vm_compute. reflexivity.
Defined.

(** ** The organization-name validator *)

Lemma isValidCompanyName_decompose (text : jsstring) :
  isValidCompanyName text
  = otherCompanyRulesPass text && negb (2 <=? jobTitleScore text).
Proof.
  unfold isValidCompanyName, otherCompanyRulesPass.
  destruct (negb (nonempty text) || (length text <? 2)); [reflexivity|].
  destruct (150 <? length text); [reflexivity|].
  destruct (matchesAny employmentTypePatterns text); [reflexivity|].
  destruct (matchesAny datePatterns text); [reflexivity|].
  destruct (2 <=? jobTitleScore text);
    destruct (matchesAny companyUiElements text);
    destruct (isConnectionDegreeText text); reflexivity.
Qed.

(** C4.  The job-title score is one of the validator's rules; the others
    are the length, the employment types, the dates and durations, the UI
    labels and the connection-degree text.  On a candidate that those pass,
    the validator rejects exactly when the job-title score is at least 2,
    so never at score 1 or 0; the candidate Senior Software Engineer scores
    2 and is rejected, and Engineering Corp scores 0 and is accepted. *)
Theorem company_validator_score_threshold :
  (forall text,
      otherCompanyRulesPass text = true ->
      (isValidCompanyName text = false <-> 2 <= jobTitleScore text))
  /\ (jobTitleScore (lit "Senior Software Engineer") = 2
      /\ isValidCompanyName (lit "Senior Software Engineer") = false)
  /\ (jobTitleScore (lit "Engineering Corp") = 0
      /\ isValidCompanyName (lit "Engineering Corp") = true).
Proof.
  split; [|split; split; vm_compute; reflexivity].
  intros text Hother. rewrite isValidCompanyName_decompose, Hother.
  rewrite andb_true_l, negb_false_iff. apply Nat.leb_le.
Qed.

Lemma company_validator_score_threshold_witness :
  otherCompanyRulesPass (lit "Lead Designer") = true
  /\ (isValidCompanyName (lit "Lead Designer") = false
      <-> 2 <= jobTitleScore (lit "Lead Designer"))
  /\ jobTitleScore (lit "Senior Living Group") = 1
  /\ isValidCompanyName (lit "Senior Living Group") = true.
Proof.
  split; [vm_compute; reflexivity|]. split.
  - apply (proj1 company_validator_score_threshold). vm_compute. reflexivity.
  - split; vm_compute; reflexivity.
Defined.

(** The other rules apply at every score: this candidate scores exactly 1
    (the seniority prefix) and is rejected by the connection-degree rule,
    not by its score. *)
Lemma company_validator_rejects_at_score_one :
  jobTitleScore (lit "Senior Connect") = 1
  /\ otherCompanyRulesPass (lit "Senior Connect") = false
  /\ isConnectionDegreeText (lit "Senior Connect") = true
  /\ isValidCompanyName (lit "Senior Connect") = false.
Proof. repeat split; vm_compute; reflexivity. Qed.

(** ** Single-flight extraction *)











(** ** Strings: splitting and searching *)

Lemma split_nonempty (sep : jschar) (s : jsstring) : split sep s <> [].
Proof.
  destruct s as [|c s]; simpl; [discriminate|].
  destruct (N.eqb c sep); [discriminate|].
  destruct (split sep s); discriminate.
Qed.

Lemma includes_split (sep : jschar) (s : jsstring) :
  includes [sep] s = true -> 2 <= length (split sep s).
Proof.
  induction s as [|c s IH]; simpl; [discriminate|].
  rewrite N.eqb_sym. destruct (N.eqb c sep) eqn:E; simpl.
  - intros _. pose proof (split_nonempty sep s) as Hne.
    destruct (split sep s); [contradiction | simpl; lia].
  - intros H. specialize (IH H).
    destruct (split sep s) as [|h t]; simpl in *; lia.
Qed.

Lemma filter_nonempty_all (l : list jsstring) :
  Forall (fun p => p <> []) (filter nonempty l).
Proof.
  apply Forall_forall. intros p Hp. apply filter_In in Hp as [_ Hp].
  now destruct p.
Qed.

Section FieldFacts.

Context {NM : NumberModel}.

(** ** Objects *)

Lemma prop_set_keys (A : Type) (o : list (jsstring * A)) (k : jsstring) (v : A) (x : jsstring) :
  In x (keys (prop_set o k v)) <-> x = k \/ In x (keys o).
Proof.
  induction o as [|[k' v'] o IH]; simpl.
  - intuition.
  - destruct (str_eqb k' k) eqn:E; simpl.
    + apply str_eqb_eq in E. subst. intuition.
    + rewrite IH. intuition.
Qed.

Lemma prop_set_In (A : Type) (o : list (jsstring * A)) (k : jsstring) (v : A) (e : jsstring * A) :
  In e (prop_set o k v) -> e = (k, v) \/ In e o.
Proof.
  induction o as [|[k' v'] o IH]; simpl.
  - intuition.
  - destruct (str_eqb k' k) eqn:E; simpl.
    + apply str_eqb_eq in E. subst. intuition.
    + intros [H|H]; [intuition|]. apply IH in H. intuition.
Qed.

Lemma prop_get_In (A : Type) (o : list (jsstring * A)) (k : jsstring) (v : A) :
  prop_get o k = Some v -> In (k, v) o.
Proof.
  induction o as [|[k' v'] o IH]; simpl; [discriminate|].
  destruct (str_eqb k' k) eqn:E.
  - apply str_eqb_eq in E. intros [= ->]. subst. now left.
  - intros H. right. now apply IH.
Qed.

Lemma prop_get_None (A : Type) (o : list (jsstring * A)) (k : jsstring) :
  prop_get o k = None <-> ~ In k (keys o).
Proof.
  induction o as [|[k' v'] o IH]; simpl.
  - intuition.
  - destruct (str_eqb k' k) eqn:E.
    + apply str_eqb_eq in E. subst. split; [discriminate | intuition].
    + apply str_eqb_neq in E. rewrite IH. intuition.
Qed.

(** ** The linked-record transform *)

Lemma kindOf_linked : kindOf (lit "multipleRecordLinks") = multipleRecordLinks.
Proof. reflexivity. Qed.

Lemma transformByFieldType_linked (fieldName : jsstring) (v : jsvalue) :
  transformByFieldType fieldName v (lit "multipleRecordLinks")
  = Some (linkedRecord v).
Proof. reflexivity. Qed.

End FieldFacts.

(** ** Unknown field types *)

Section UnknownTypes.

Context {NM : NumberModel}.

Lemma kindOf_other (fieldType : jsstring) :
  ~ In fieldType knownTypes -> kindOf fieldType = otherKind.
Proof.
  intros Hnot. unfold kindOf.
  destruct (find _ kindNames) as [e|] eqn:Hfind; [|reflexivity].
  apply find_some in Hfind as [Hin Heq]. apply str_eqb_eq in Heq.
  exfalso. apply Hnot. unfold knownTypes. rewrite <- Heq.
  apply in_map_iff. now exists e.
Qed.

(** C9.  For a field type that is none of the seventeen type names the
    validator has a case for, [validateFieldValue] answers valid whatever
    the value is; and [validateAndFilterFields], when the schema gives a
    field such a type and the value is not blank, puts the field among the
    valid fields and excludes nothing. *)
Theorem unknown_field_types_are_accepted
  (fieldName : jsstring) (value : jsvalue) (fieldType : jsstring) :
  ~ In fieldType knownTypes ->
  validateFieldValue fieldName value fieldType = valid
  /\ (forall sch validFields excludedFields,
         fieldTypeOf sch fieldName = Some fieldType ->
         isBlank value = false ->
         validateStep sch (validFields, excludedFields) (fieldName, value)
         = (prop_set validFields fieldName value, excludedFields)).
Proof.
  intros Hnot. pose proof (kindOf_other Hnot) as Hkind.
  assert (Hv : validateFieldValue fieldName value fieldType = valid).
  { unfold validateFieldValue. now rewrite Hkind. }
  split; [exact Hv|].
  intros sch validFields excludedFields Hty Hblank.
  unfold validateStep, judge. cbn [fst snd]. rewrite Hblank.
  destruct sch as [tys|]; [|discriminate]. rewrite Hty.
  assert (Hl : str_eqb fieldType (lit "multipleRecordLinks") = false).
  { apply str_eqb_neq. intros ->. apply Hnot. vm_compute. tauto. }
  rewrite Hl, Hv. reflexivity.
Qed.

End UnknownTypes.

Lemma unknown_field_types_are_accepted_witness :
  validateFieldValue (lit "Score") (VStr (lit "=A+B")) (lit "formula") = valid
  /\ validateAndFilterFields [(lit "Score", VStr (lit "=A+B"))]
       (Some [(lit "Score", lit "formula")])
     = ([(lit "Score", VStr (lit "=A+B"))], []).
Proof.
  assert (Hnot : ~ In (lit "formula") knownTypes).
  { vm_compute. intros H.
    repeat (destruct H as [H|H]; [discriminate H|]). exact H. }
  destruct (unknown_field_types_are_accepted (NM := NatNumbers)
              (lit "Score") (VStr (lit "=A+B")) Hnot) as [Hv Hstep].
  split; [exact Hv|].
  unfold validateAndFilterFields. cbn [fold_left].
  apply Hstep; reflexivity.
Defined.

(** ** Strings: trimming and collapsing *)

Section EdgeFacts.

Variable p : jschar -> bool.

Lemma dropWhile_startsClean (s : jsstring) : startsClean p (dropWhile p s) = true.
Proof.
  induction s as [|c s IH]; simpl; [reflexivity|].
  destruct (p c) eqn:E; [exact IH|]. simpl. now rewrite E.
Qed.

Lemma dropWhile_id (s : jsstring) : startsClean p s = true -> dropWhile p s = s.
Proof.
  destruct s as [|c s]; simpl; [reflexivity|].
  now destruct (p c).
Qed.

Lemma dropWhile_snoc (l : jsstring) (c : jschar) :
  p c = false -> exists l', dropWhile p (l ++ [c]) = l' ++ [c].
Proof.
  intros Hc. induction l as [|x l IH]; simpl.
  - rewrite Hc. now exists [].
  - destruct (p x); [exact IH|]. now exists (x :: l).
Qed.

Lemma dropWhileEnd_endsClean (s : jsstring) : endsClean p (dropWhileEnd p s) = true.
Proof.
  unfold endsClean, dropWhileEnd. rewrite rev_involutive.
  apply dropWhile_startsClean.
Qed.

Lemma dropWhileEnd_id (s : jsstring) : endsClean p s = true -> dropWhileEnd p s = s.
Proof.
  unfold endsClean, dropWhileEnd. intros H.
  rewrite dropWhile_id by exact H. apply rev_involutive.
Qed.

Lemma dropWhileEnd_startsClean (s : jsstring) :
  startsClean p s = true -> startsClean p (dropWhileEnd p s) = true.
Proof.
  destruct s as [|c s]; [reflexivity|]. simpl. intros Hc.
  apply negb_true_iff in Hc. unfold dropWhileEnd. simpl rev.
  destruct (dropWhile_snoc (rev s) Hc) as [l' ->].
  rewrite rev_app_distr. simpl. now rewrite Hc.
Qed.

Lemma endsClean_snoc (s : jsstring) :
  endsClean p s = true -> s <> [] ->
  exists l c, s = l ++ [c] /\ p c = false.
Proof.
  unfold endsClean. intros H Hne.
  destruct (rev s) as [|c r] eqn:E.
  - apply (f_equal (@rev jschar)) in E. rewrite rev_involutive in E.
    contradiction.
  - exists (rev r), c. split.
    + apply (f_equal (@rev jschar)) in E. now rewrite rev_involutive in E.
    + simpl in H. now apply negb_true_iff in H.
Qed.

Lemma snoc_endsClean (l : jsstring) (c : jschar) :
  p c = false -> endsClean p (l ++ [c]) = true.
Proof.
  intros Hc. unfold endsClean. rewrite rev_app_distr. simpl. now rewrite Hc.
Qed.

End EdgeFacts.

Lemma trim_startsClean (s : jsstring) : startsClean is_ws (trim s) = true.
Proof. apply dropWhileEnd_startsClean, dropWhile_startsClean. Qed.

Lemma trim_endsClean (s : jsstring) : endsClean is_ws (trim s) = true.
Proof. apply dropWhileEnd_endsClean. Qed.

Lemma trim_id (s : jsstring) :
  startsClean is_ws s = true -> endsClean is_ws s = true -> trim s = s.
Proof.
  intros H1 H2. unfold trim. rewrite dropWhile_id by exact H1.
  now apply dropWhileEnd_id.
Qed.

Lemma trim_idempotent (s : jsstring) : trim (trim s) = trim s.
Proof. apply trim_id; [apply trim_startsClean | apply trim_endsClean]. Qed.

Lemma collapse_from_true_head (s : jsstring) :
  startsClean is_ws (collapse_from true s) = true.
Proof.
  induction s as [|c s IH]; simpl; [reflexivity|].
  destruct (is_ws c) eqn:E; [exact IH|]. simpl. now rewrite E.
Qed.

Lemma noWhitespaceRun_cons (a : jschar) (s : jsstring) :
  (is_ws a = false \/ startsClean is_ws s = true) ->
  noWhitespaceRun s = true ->
  noWhitespaceRun (a :: s) = true.
Proof.
  intros H Hs. destruct s as [|b s']; [reflexivity|].
  change (negb (is_ws a && is_ws b) && noWhitespaceRun (b :: s') = true).
  rewrite Hs, andb_true_r. destruct H as [H|H].
  - now rewrite H.
  - simpl in H. apply negb_true_iff in H. rewrite H. now rewrite andb_false_r.
Qed.

Lemma collapse_from_noRun (s : jsstring) (b : bool) :
  noWhitespaceRun (collapse_from b s) = true.
Proof.
  revert b. induction s as [|c s IH]; intros b; simpl; [reflexivity|].
  destruct (is_ws c) eqn:E.
  - destruct b; [apply IH|].
    apply noWhitespaceRun_cons; [right; apply collapse_from_true_head | apply IH].
  - apply noWhitespaceRun_cons; [now left | apply IH].
Qed.

Lemma noWhitespaceRun_firstn (n : nat) (s : jsstring) :
  noWhitespaceRun s = true -> noWhitespaceRun (firstn n s) = true.
Proof.
  revert s. induction n as [|n IH]; intros s Hs; [reflexivity|].
  destruct s as [|a s]; [reflexivity|]. simpl firstn.
  destruct s as [|b s']; [destruct n; reflexivity|].
  change (negb (is_ws a && is_ws b) && noWhitespaceRun (b :: s') = true) in Hs.
  apply andb_true_iff in Hs as [Hab Hs].
  apply noWhitespaceRun_cons; [|now apply IH].
  destruct n; [now right|]. simpl.
  apply negb_true_iff, andb_false_iff in Hab as [Ha|Hb]; [now left|].
  right. now rewrite Hb.
Qed.

Lemma collapse_from_forallb (q : jschar -> bool) (s : jsstring) (b : bool) :
  q space = true -> forallb q s = true -> forallb q (collapse_from b s) = true.
Proof.
  intros Hsp. revert b. induction s as [|c s IH]; intros b H; simpl; [reflexivity|].
  simpl in H. apply andb_true_iff in H as [Hc Hs].
  destruct (is_ws c).
  - destruct b; [now apply IH|]. simpl. rewrite Hsp. now apply IH.
  - simpl. rewrite Hc. now apply IH.
Qed.

Lemma forallb_firstn (q : jschar -> bool) (n : nat) (s : jsstring) :
  forallb q s = true -> forallb q (firstn n s) = true.
Proof.
  revert s. induction n as [|n IH]; intros [|c s] H; simpl; try reflexivity.
  simpl in H. apply andb_true_iff in H as [Hc Hs]. rewrite Hc. now apply IH.
Qed.

Lemma removeNulls_noNullByte (s : jsstring) : noNullByte (removeNulls s) = true.
Proof.
  unfold noNullByte, removeNulls. apply forallb_forall.
  intros c Hc. now apply filter_In in Hc as [_ Hc].
Qed.

Lemma removeNulls_id (s : jsstring) : noNullByte s = true -> removeNulls s = s.
Proof.
  unfold noNullByte, removeNulls. induction s as [|c s IH]; simpl; [reflexivity|].
  intros H. apply andb_true_iff in H as [Hc Hs]. rewrite Hc. now rewrite IH.
Qed.

Lemma collapse_from_snoc (l : jsstring) (c : jschar) (b : bool) :
  is_ws c = false -> exists l', collapse_from b (l ++ [c]) = l' ++ [c].
Proof.
  intros Hc. revert b. induction l as [|x l IH]; intros b; simpl.
  - rewrite Hc. now exists [].
  - destruct (is_ws x).
    + destruct b; [apply IH|]. destruct (IH true) as [l' ->]. now exists (space :: l').
    + destruct (IH false) as [l' ->]. now exists (x :: l').
Qed.

Lemma collapse_ws_noEdge (s : jsstring) :
  noEdgeWhitespace s = true -> noEdgeWhitespace (collapse_ws s) = true.
Proof.
  unfold noEdgeWhitespace. intros H. apply andb_true_iff in H as [H1 H2].
  destruct s as [|c s]; [reflexivity|].
  destruct (endsClean_snoc _ H2) as (l & d & E & Hd); [discriminate|].
  apply andb_true_iff. split.
  - simpl in H1. apply negb_true_iff in H1. unfold collapse_ws. simpl.
    rewrite H1. simpl. now rewrite H1.
  - rewrite E. unfold collapse_ws.
    destruct (@collapse_from_snoc l d false Hd) as [l' ->].
    now apply snoc_endsClean.
Qed.

Lemma stripOneQuote_id (s : jsstring) :
  startsClean is_quote s = true -> endsClean is_quote s = true ->
  stripOneQuote s = s.
Proof.
  intros H1 H2. unfold stripOneQuote.
  assert (E : match s with c :: s' => if is_quote c then s' else s | [] => [] end = s).
  { destruct s as [|c s']; [reflexivity|]. simpl in H1.
    apply negb_true_iff in H1. now rewrite H1. }
  rewrite E. unfold endsClean in H2.
  destruct (rev s) as [|c r] eqn:Er.
  - apply (f_equal (@rev jschar)) in Er. now rewrite rev_involutive in Er.
  - simpl in H2. apply negb_true_iff in H2. now rewrite H2.
Qed.

(** ** The field mapper *)

Section MapperFacts.

Context {NM : NumberModel}.

Lemma jsvalue_nested_ind (P : jsvalue -> Prop) :
  P VUndefined -> P VNull -> (forall b, P (VBool b)) -> (forall n, P (VNum n)) ->
  (forall s, P (VStr s)) ->
  (forall items, Forall P items -> P (VArr items)) ->
  (forall props, Forall (fun kv => P (snd kv)) props -> P (VObj props)) ->
  forall v, P v.
Proof.
  intros HU HN HB Hn HS HA HO. fix IH 1.
  intros [ | | b | n | s | items | props].
  - exact HU.
  - exact HN.
  - apply HB.
  - apply Hn.
  - apply HS.
  - apply HA. revert items. fix IHl 1.
    intros [|x items]; constructor; [apply IH | apply IHl].
  - apply HO. revert props. fix IHl 1.
    intros [|[k x] props]; constructor; [apply IH | apply IHl].
Qed.

Lemma truthy_not_blank (v : jsvalue) : truthy v = true -> isBlank v = false.
Proof. destruct v as [ | | b | n | [|c s] | items | props]; simpl; congruence. Qed.

Lemma blank_not_truthy (v : jsvalue) : isBlank v = true -> truthy v = false.
Proof. destruct v as [ | | b | n | [|c s] | items | props]; simpl; congruence. Qed.

Lemma truthy_not_emptyString (v : jsvalue) : truthy v = true -> isEmptyString v = false.
Proof. destruct v as [ | | b | n | [|c s] | items | props]; simpl; congruence. Qed.

Lemma mapStep_cases (contactData fields : object) (dataKey airtableField : jsstring) :
  (nonempty airtableField = true /\ truthy (get contactData dataKey) = true
   /\ mapStep contactData fields (dataKey, airtableField)
      = prop_set fields airtableField (sanitizeValue (get contactData dataKey)))
  \/ ((nonempty airtableField = false \/ truthy (get contactData dataKey) = false)
      /\ mapStep contactData fields (dataKey, airtableField) = fields).
Proof.
  unfold mapStep.
  destruct (nonempty airtableField); [|right; auto].
  destruct (truthy (get contactData dataKey)) eqn:Ht; [|right; auto].
  rewrite (truthy_not_emptyString _ Ht). left. auto.
Qed.

Lemma fold_mapStep_keys (contactData : object) (l : mapping) (acc : object)
      (f : jsstring) :
  In f (keys (fold_left (mapStep contactData) l acc))
  <-> In f (keys acc)
      \/ exists k, In (k, f) l /\ nonempty f = true
                   /\ truthy (get contactData k) = true.
Proof.
  revert acc. induction l as [|[k g] l IH]; intros acc; cbn [fold_left In].
  - split; [auto | intros [H|(k & [] & _)]; exact H].
  - rewrite IH.
    destruct (mapStep_cases contactData acc k g) as [(Hg & Ht & ->)|(Hno & ->)].
    + rewrite prop_set_keys. split.
      * intros [[-> |H]|(k' & Hin & H)]; [right | now left | right].
        -- exists k. auto.
        -- exists k'. auto.
      * intros [H|(k' & [E|Hin] & Hf & Ht')].
        -- left. now right.
        -- injection E as <- <-. left. now left.
        -- right. exists k'. auto.
    + split.
      * intros [H|(k' & Hin & H)]; [now left | right]. exists k'. auto.
      * intros [H|(k' & [E|Hin] & Hf & Ht')]; [now left | | right].
        -- injection E as <- <-. destruct Hno; congruence.
        -- exists k'. auto.
Qed.

(** C7.  A canonical key whose value is the empty string, [null] or
    [undefined] writes nothing: its step leaves the mapped object as it
    was.  An external field name is a key of the mapped object exactly when
    some canonical key mapped to it has a truthy value; so when the key's
    value is empty, and no other key with a value shares its external name,
    that name is absent from the mapped object. *)
Theorem mapper_omits_empty_values (contactData : object) (fieldMappings : mapping) :
  let mappings := spread defaultMappings fieldMappings in
  let mapped := mapContactDataToAirtable contactData fieldMappings in
  (forall dataKey airtableField fields,
      isBlank (get contactData dataKey) = true ->
      mapStep contactData fields (dataKey, airtableField) = fields)
  /\ (forall airtableField,
         In airtableField (keys mapped)
         <-> exists dataKey,
             In (dataKey, airtableField) mappings
             /\ nonempty airtableField = true
             /\ truthy (get contactData dataKey) = true)
  /\ (forall dataKey airtableField,
         In (dataKey, airtableField) mappings ->
         isBlank (get contactData dataKey) = true ->
         (forall other, In (other, airtableField) mappings -> other <> dataKey ->
                        truthy (get contactData other) = false) ->
         prop_get mapped airtableField = None).
Proof.
  cbv zeta.
  assert (Hkeys : forall airtableField,
             In airtableField (keys (mapContactDataToAirtable contactData fieldMappings))
             <-> exists dataKey,
                 In (dataKey, airtableField) (spread defaultMappings fieldMappings)
                 /\ nonempty airtableField = true
                 /\ truthy (get contactData dataKey) = true).
  { intros f. unfold mapContactDataToAirtable. rewrite fold_mapStep_keys.
    simpl. tauto. }
  split; [|split].
  - intros k f fields Hblank.
    destruct (mapStep_cases contactData fields k f) as [(_ & Ht & _)|(_ & E)];
      [|exact E].
    rewrite (blank_not_truthy _ Hblank) in Ht. discriminate.
  - exact Hkeys.
  - intros k f Hin Hblank Hothers. apply prop_get_None. rewrite Hkeys.
    intros (k' & Hin' & _ & Ht).
    destruct (str_eqb k' k) eqn:E.
    + apply str_eqb_eq in E. subst k'.
      rewrite (blank_not_truthy _ Hblank) in Ht. discriminate.
    + apply str_eqb_neq in E. rewrite (Hothers k' Hin' E) in Ht. discriminate.
Qed.

End MapperFacts.

Lemma mapper_omits_empty_values_witness :
  mapStep janeRecord [(lit "Name", VStr (lit "Jane Doe"))] (lit "company", lit "Company")
  = [(lit "Name", VStr (lit "Jane Doe"))]
  /\ prop_get (mapContactDataToAirtable (NM := NatNumbers) janeRecord []) (lit "Company") = None
  /\ keys (mapContactDataToAirtable (NM := NatNumbers) janeRecord [])
     = [lit "Name"; lit "Job Title"].
Proof.
  destruct (mapper_omits_empty_values (NM := NatNumbers) janeRecord [])
    as (Hstep & _ & Habsent).
  split; [|split].
  - apply Hstep. reflexivity.
  - apply (Habsent (lit "company") (lit "Company")).
    + vm_compute. tauto.
    + reflexivity.
    + intros other Hin Hne. vm_compute in Hin.
      repeat (destruct Hin as [Hin|Hin];
              [injection Hin as <- ; try reflexivity; try discriminate;
               exfalso; apply Hne; reflexivity|]).
      destruct Hin.
  - reflexivity.
Defined.

(** ** Sanitized strings *)

Lemma sanitizeString_bounds (s : jsstring) :
  noNullByte (sanitizeString s) = true
  /\ noWhitespaceRun (sanitizeString s) = true
  /\ length (sanitizeString s) <= maxLength.
Proof.
  unfold sanitizeString.
  set (t := collapse_ws (removeNulls (stripOneQuote (trim s)))).
  assert (Hnull : noNullByte t = true).
  { apply collapse_from_forallb; [reflexivity | apply removeNulls_noNullByte]. }
  assert (Hrun : noWhitespaceRun t = true) by apply collapse_from_noRun.
  destruct (maxLength <? length t) eqn:E.
  - split; [|split].
    + now apply forallb_firstn.
    + now apply noWhitespaceRun_firstn.
    + unfold substring0. apply firstn_le_length.
  - apply Nat.ltb_ge in E. auto.
Qed.

Lemma sanitizeString_clean_source (s : jsstring) :
  startsClean is_quote (trim s) = true ->
  endsClean is_quote (trim s) = true ->
  noNullByte (trim s) = true ->
  length (collapse_ws (trim s)) <= maxLength ->
  sanitizeString s = collapse_ws (trim s)
  /\ noEdgeWhitespace (sanitizeString s) = true.
Proof.
  intros Hq1 Hq2 Hnull Hlen.
  assert (E : sanitizeString s = collapse_ws (trim s)).
  { unfold sanitizeString. rewrite (stripOneQuote_id _ Hq1 Hq2).
    rewrite (removeNulls_id _ Hnull).
    apply Nat.ltb_ge in Hlen. now rewrite Hlen. }
  split; [exact E|]. rewrite E. apply collapse_ws_noEdge.
  unfold noEdgeWhitespace. now rewrite trim_startsClean, trim_endsClean.
Qed.

Section SanitizeFacts.

Context {NM : NumberModel}.

Lemma fold_prop_set_In (A B : Type) (f : B -> A) (l : list (jsstring * B))
      (acc : list (jsstring * A)) (e : jsstring * A) :
  In e (fold_left (fun o kv => prop_set o (fst kv) (f (snd kv))) l acc) ->
  In e acc \/ exists kv, In kv l /\ snd e = f (snd kv).
Proof.
  revert acc. induction l as [|kv l IH]; intros acc; cbn [fold_left].
  - auto.
  - intros H. apply IH in H as [H|(kv' & Hin & E)].
    + apply prop_set_In in H as [->|H]; [right | now left].
      exists kv. split; [now left | reflexivity].
    + right. exists kv'. split; [now right | exact E].
Qed.

Lemma sanitizeValue_strings (v : jsvalue) (s : jsstring) :
  In s (stringsOf (sanitizeValue v)) -> exists s0, s = sanitizeString s0.
Proof.
  revert s. induction v as [ | | b | n | s0 | items IH | props IH]
    using jsvalue_nested_ind; intros s; cbn [sanitizeValue stringsOf].
  - intros [].
  - intros [].
  - intros [].
  - intros [].
  - intros [<-|[]]. now exists s0.
  - intros H. apply in_flat_map in H as (x & Hx & Hs).
    apply in_map_iff in Hx as (y & <- & Hy).
    rewrite Forall_forall in IH. now apply (IH y Hy).
  - intros H. apply in_flat_map in H as ([k x] & Hx & Hs).
    apply fold_prop_set_In in Hx as [[]|([k' y] & Hy & E)].
    cbn [snd] in E, Hs. subst x.
    rewrite Forall_forall in IH. now apply (IH (k', y) Hy).
Qed.

Lemma mapped_values_sanitized (contactData : object) (l : mapping) (acc : object)
      (e : jsstring * jsvalue) :
  In e (fold_left (mapStep contactData) l acc) ->
  In e acc \/ exists k, snd e = sanitizeValue (get contactData k).
Proof.
  revert acc. induction l as [|[k g] l IH]; intros acc; cbn [fold_left].
  - auto.
  - intros H. apply IH in H as [H|H]; [|now right].
    destruct (mapStep_cases contactData acc k g) as [(_ & _ & E)|(_ & E)];
      rewrite E in H; [|now left].
    apply prop_set_In in H as [->|H]; [right | now left].
    now exists k.
Qed.

(** C8, as the code has it.  Every string value in the mapped object,
    also inside arrays and plain objects, is [sanitizeString] of a source
    string; it has no null byte, no two adjacent white-space units and at
    most 100000 units.  It has no white space at either end when the source
    string, once trimmed, neither starts nor ends with a quote, has no null
    byte, and is not cut to length; otherwise white space that was behind a
    removed quote or null byte, or an end left by the cut, can remain. *)
Theorem mapped_strings_are_sanitized (contactData : object) (fieldMappings : mapping) :
  (forall name v s,
      In (name, v) (mapContactDataToAirtable contactData fieldMappings) ->
      In s (stringsOf v) ->
      (exists s0, s = sanitizeString s0)
      /\ noNullByte s = true
      /\ noWhitespaceRun s = true
      /\ length s <= maxLength)
  /\ (forall s0,
         startsClean is_quote (trim s0) = true ->
         endsClean is_quote (trim s0) = true ->
         noNullByte (trim s0) = true ->
         length (collapse_ws (trim s0)) <= maxLength ->
         noEdgeWhitespace (sanitizeString s0) = true).
Proof.
  split.
  - intros name v s Hin Hs. unfold mapContactDataToAirtable in Hin.
    apply mapped_values_sanitized in Hin as [[]|(k & E)]. cbn [snd] in E. subst v.
    apply sanitizeValue_strings in Hs as (s0 & ->).
    split; [now exists s0 | apply sanitizeString_bounds].
  - intros s0 H1 H2 H3 H4. now apply sanitizeString_clean_source.
Qed.

End SanitizeFacts.

Lemma mapped_strings_are_sanitized_witness :
  mapContactDataToAirtable (NM := NatNumbers)
    [(lit "notes", VArr [VStr (lit "  met   at  expo ")])] []
  = [(lit "Notes", VArr [VStr (lit "met at expo")])]
  /\ noNullByte (lit "met at expo") = true
  /\ noWhitespaceRun (lit "met at expo") = true
  /\ noEdgeWhitespace (sanitizeString (lit "  met   at  expo ")) = true.
Proof.
  destruct (mapped_strings_are_sanitized (NM := NatNumbers)
              [(lit "notes", VArr [VStr (lit "  met   at  expo ")])] [])
    as [Hall Hedge].
  destruct (Hall (lit "Notes") (VArr [VStr (lit "met at expo")]) (lit "met at expo"))
    as (_ & Hn & Hr & _).
  - vm_compute. tauto.
  - vm_compute. tauto.
  - split; [reflexivity|]. split; [exact Hn|]. split; [exact Hr|].
    apply Hedge; try reflexivity.
    apply Nat.leb_le. vm_compute. reflexivity.
Defined.

(** C8 as stated fails: the note consists of a quote, a space and a word;
    the quote is removed after the trim, and the mapped value starts with the
    space. *)
Lemma mapped_string_keeps_leading_space :
  mapContactDataToAirtable (NM := NatNumbers) [(lit "notes", VStr (lit "' hello"))] []
  = [(lit "Notes", VStr (lit " hello"))]
  /\ noEdgeWhitespace (lit " hello") = false.
Proof. split; reflexivity. Qed.

(** ** The error classifier *)

Section ClassifierFacts.

Context {NM : NumberModel}.

Lemma orEmpty_string (v : jsvalue) :
  stringIfPresent v = true -> exists msg, orEmpty v = VStr msg.
Proof.
  unfold stringIfPresent, orEmpty. intros H.
  destruct (truthy v) eqn:Ht.
  - rewrite orb_false_r in H. destruct v; try discriminate. eauto.
  - eauto.
Qed.

Lemma statusMessage_string (text msg : jsstring) :
  exists m, statusMessage text (VStr msg) = VStr m.
Proof.
  unfold statusMessage.
  repeat match goal with
         | |- context [if ?c then _ else _] => destruct c
         end; eauto.
Qed.

Lemma parseBody_total (text : jsstring) (responseData : jsvalue) :
  plainMessages responseData = true ->
  exists msg unknown errs,
    parseBody (VStr text) responseData = Some (VStr msg, unknown, errs).
Proof.
  unfold plainMessages. intros H. apply andb_true_iff in H as [Herr Htop].
  unfold parseBody.
  destruct (truthy responseData && isObject responseData); [|eauto].
  destruct (truthy (member responseData (lit "error"))
            && isObject (member responseData (lit "error"))).
  - destruct (orEmpty_string _ Herr) as [msg ->].
    cbn [toString truthy].
    repeat match goal with
           | |- context [if ?c then _ else _] => destruct c
           | |- context [match ?c with Some _ => _ | None => _ end] => destruct c
           end; eauto.
  - destruct (truthy (member responseData (lit "message"))) eqn:Ht; [|eauto].
    unfold stringIfPresent in Htop. rewrite Ht, orb_false_r in Htop.
    destruct (member responseData (lit "message")); try discriminate. eauto.
Qed.

(** C10, as the code has it.  For every error and every response body in
    which the message of the error object and the message of the body
    itself are strings where they are present (so also for [null], for a
    body that is not an object, and for an object without an error), and
    for every set of sent fields, [parseAirtableError] does not throw and
    returns a string message with the two arrays. *)
Theorem parseAirtableError_total
  (error : jsError) (responseData sentFields : jsvalue) :
  plainMessages responseData = true ->
  exists text unknown errs,
    parseAirtableError error responseData sentFields
    = Some {| message := VStr text;
              unknownFields := unknown;
              fieldErrors := errs |}.
Proof.
  intros H. unfold parseAirtableError.
  destruct (parseBody_total (errorText error) responseData H) as (msg & unknown & errs & ->).
  destruct (statusMessage_string (errorText error) msg) as [m ->].
  eauto.
Qed.

End ClassifierFacts.

Lemma parseAirtableError_total_witness :
  plainMessages (NM := NatNumbers) unknownFieldBody = true
  /\ parseAirtableError (NM := NatNumbers) {| errorText := lit "HTTP 500: " |}
       unknownFieldBody VNull
     = Some {| message := VStr (lit "Unknown field: " ++ [dquote] ++ lit "Phone"
                                ++ [dquote]
                                ++ lit ". Please check your field mappings in the configuration section.");
               unknownFields := [lit "Phone"];
               fieldErrors := [{| field := lit "Phone";
                                  error := lit "Field does not exist in Airtable table" |}] |}.
Proof.
  split; [reflexivity|].
  destruct (parseAirtableError_total (NM := NatNumbers)
              {| errorText := lit "HTTP 500: " |} unknownFieldBody VNull eq_refl)
    as (text & unknown & errs & E).
  rewrite E. vm_compute in E. injection E as <- <- <-. reflexivity.
Defined.

(** C10 as stated fails: a body whose error has a recognised type and a
    message that is not a string makes the function call a string method on
    that message, which throws. *)
Lemma parseAirtableError_throws_on_non_string_message :
  parseAirtableError (NM := NatNumbers) {| errorText := lit "HTTP 422: " |}
    (VObj [(lit "error",
            VObj [(lit "type", VStr (lit "UNKNOWN_FIELD_NAME"));
                  (lit "message", VNum (Some 42%N))])])
    VNull
  = None.
Proof. reflexivity. Qed.

(** ** The schema cache *)

Section CacheFacts.

Context {NM : NumberModel}.


(** A failed response (status not ok) falls back to the entry in memory,
    even if stale. *)
Lemma fetchTableSchema_http_error_uses_memory (cfg : config) (st : service)
      (w : world) (entry : cacheEntry) (status : Z) :
  cachedSchema st = Some entry ->
  configKey entry = configKeyOf cfg ->
  cacheIsFresh st (configKeyOf cfg) (now w) = false ->
  response w = HttpError status ->
  fetchTableSchema cfg st w = (Some (fieldTypes entry), st, 1).
Proof.
  intros Hc Hk Hstale Hr. unfold fetchTableSchema.
  now rewrite Hstale, Hr, Hc, Hk, str_eqb_refl.
Qed.


End CacheFacts.

(** C2, where the code departs from it.  With nothing in memory and a
    stored copy for the identity, a failed response (status 503) yields
    [null], not the stored copy; and with a stale entry in memory and no
    stored copy, a rejected fetch yields [null], not the stale entry.  In
    both cases one fetch is made and the state is left as it was. *)
Theorem schema_cache_fallback_gaps :
  fetchTableSchema (NM := NatNumbers) demoConfig restartedService serverErrorWorld
  = (None, restartedService, 1)
  /\ prop_get (storage restartedService)
       (storageKey (configKeyOf demoConfig))
     = Some {| storedFieldTypes := demoTypes;
               storedFieldDetails := [];
               storedTimestamp := 1000 |}
  /\ fetchTableSchema (NM := NatNumbers) demoConfig unpersistedService offlineWorld
     = (None, unpersistedService, 1)
  /\ cachedSchema unpersistedService
     = Some {| configKey := configKeyOf demoConfig;
               fieldTypes := demoTypes;
               fieldDetails := [];
               timestamp := 1000 |}.
Proof. repeat split. Qed.

(** ** Re-running transformation and validation *)

Section RerunFacts.

Context {NM : NumberModel}.

(** *** Objects built by assignment *)

Lemma prop_set_absent (A : Type) (o : list (jsstring * A)) (k : jsstring) (v : A) :
  ~ In k (keys o) -> prop_set o k v = o ++ [(k, v)].
Proof.
  induction o as [|[k' v'] o IH]; simpl; [reflexivity|].
  intros Hnot. destruct (str_eqb k' k) eqn:E.
  - apply str_eqb_eq in E. exfalso. apply Hnot. now left.
  - f_equal. apply IH. intros Hin. apply Hnot. now right.
Qed.

Lemma keys_app (A : Type) (a b : list (jsstring * A)) :
  keys (a ++ b) = keys a ++ keys b.
Proof. unfold keys. apply map_app. Qed.

Lemma prop_set_NoDup (A : Type) (o : list (jsstring * A)) (k : jsstring) (v : A) :
  NoDup (keys o) -> NoDup (keys (prop_set o k v)).
Proof.
  induction o as [|[k' v'] o IH]; simpl; intros Hnd.
  - constructor; [intros [] | constructor].
  - inversion Hnd as [|? ? Hnot Hrest]; subst.
    destruct (str_eqb k' k) eqn:E; simpl.
    + now constructor.
    + constructor; [|now apply IH].
      intros Hin. apply prop_set_keys in Hin as [->|Hin]; [|contradiction].
      rewrite str_eqb_refl in E. discriminate.
Qed.

Lemma NoDup_keys_filter (A : Type) (f : jsstring * A -> bool) (l : list (jsstring * A)) :
  NoDup (keys l) -> NoDup (keys (filter f l)).
Proof.
  induction l as [|e l IH]; simpl; intros Hnd; [constructor|].
  inversion Hnd as [|? ? Hnot Hrest]; subst.
  destruct (f e); simpl; [|now apply IH].
  constructor; [|now apply IH].
  intros Hin. apply Hnot. unfold keys in *.
  apply in_map_iff in Hin as (x & Hx & Hin). apply filter_In in Hin as [Hin _].
  apply in_map_iff. now exists x.
Qed.

Lemma collect_keys (A : Type) (g : jsstring * A -> option A) (l : list (jsstring * A))
      (k : jsstring) :
  In k (keys (collect g l)) -> In k (keys l).
Proof.
  unfold keys, collect. intros H. apply in_map_iff in H as ([k' v] & <- & H).
  apply in_flat_map in H as (e & He & H).
  destruct (g e); [|destruct H]. destruct H as [[= <- <-]|[]].
  apply in_map_iff. now exists e.
Qed.

Lemma fold_assign (A : Type) (g : jsstring * A -> option A)
      (l acc : list (jsstring * A)) :
  NoDup (keys l) ->
  (forall k, In k (keys acc) -> ~ In k (keys l)) ->
  fold_left (fun o e => match g e with
                        | Some v => prop_set o (fst e) v
                        | None => o
                        end) l acc
  = acc ++ collect g l.
Proof.
  revert acc. induction l as [|e l IH]; intros acc Hnd Hdis; cbn [fold_left].
  - unfold collect. simpl. now rewrite app_nil_r.
  - inversion Hnd as [|? ? Hnot Hrest]; subst.
    unfold collect. cbn [flat_map]. fold (collect g l).
    destruct (g e) as [v|].
    + rewrite prop_set_absent.
      * rewrite IH; [now rewrite <- app_assoc | exact Hrest |].
        intros k Hk. rewrite keys_app in Hk. apply in_app_or in Hk as [Hk|Hk].
        -- intros Hin. apply (Hdis k Hk). now right.
        -- destruct Hk as [<-|[]]. exact Hnot.
      * intros Hin. apply (Hdis _ Hin). now left.
    + rewrite IH; [reflexivity | exact Hrest |].
      intros k Hk Hin. apply (Hdis k Hk). now right.
Qed.

Lemma collect_filter (A : Type) (g : jsstring * A -> option A)
      (keep : jsstring * A -> bool) (l : list (jsstring * A)) :
  (forall e, In e l -> g e = if keep e then Some (snd e) else None) ->
  collect g l = filter keep l.
Proof.
  induction l as [|e l IH]; intros H; [reflexivity|].
  unfold collect. cbn [flat_map filter]. fold (collect g l).
  rewrite (H e (or_introl eq_refl)).
  rewrite IH by (intros e' He'; apply H; now right).
  destruct (keep e); [|reflexivity]. now destruct e.
Qed.

(** *** The shape of the two loops *)

Lemma transformStep_written (sch : schema) (acc : object) (entry : jsstring * jsvalue) :
  transformStep sch acc entry
  = match written sch entry with
    | Some v => prop_set acc (fst entry) v
    | None => acc
    end.
Proof.
  destruct entry as [name x]. unfold transformStep, written. cbn [fst snd].
  destruct (isBlank x); [reflexivity|].
  destruct (match fieldTypeOf sch name with
            | Some fieldType => transformByFieldType name x fieldType
            | None => Some (transformByHeuristic name x)
            end) as [[ | | | | | | ]|]; reflexivity.
Qed.

Lemma transformFields_fold (sch : schema) (l acc : object) :
  fold_left (transformStep sch) l acc
  = fold_left (fun o e => match written sch e with
                          | Some v => prop_set o (fst e) v
                          | None => o
                          end) l acc.
Proof.
  revert acc. induction l as [|e l IH]; intros acc; cbn [fold_left]; [reflexivity|].
  now rewrite transformStep_written, IH.
Qed.

Lemma transformed_NoDup (sch : schema) (l acc : object) :
  NoDup (keys acc) -> NoDup (keys (fold_left (transformStep sch) l acc)).
Proof.
  revert acc. induction l as [|e l IH]; intros acc Hnd; cbn [fold_left]; [exact Hnd|].
  apply IH. rewrite transformStep_written.
  destruct (written sch e); [now apply prop_set_NoDup | exact Hnd].
Qed.

Lemma transformed_entries (sch : schema) (l acc : object) (e : jsstring * jsvalue) :
  In e (fold_left (transformStep sch) l acc) ->
  In e acc \/ exists x, written sch (fst e, x) = Some (snd e).
Proof.
  revert acc. induction l as [|[name x] l IH]; intros acc; cbn [fold_left]; [auto|].
  intros H. apply IH in H as [H|H]; [|now right].
  rewrite transformStep_written in H.
  destruct (written sch (name, x)) as [v|] eqn:W; [|now left].
  apply prop_set_In in H as [->|H]; [right | now left].
  now exists x.
Qed.

Lemma validate_fold (sch : schema) (l : object) (validFields : object)
      (excludedFields : list excludedField) :
  NoDup (keys l) ->
  (forall k, In k (keys validFields) -> ~ In k (keys l)) ->
  fold_left (validateStep sch) l (validFields, excludedFields)
  = (validFields ++ filter (accepted sch) l,
     excludedFields ++ flat_map (exclusionOf sch) l).
Proof.
  revert validFields excludedFields.
  induction l as [|e l IH]; intros va ex Hnd Hdis; cbn [fold_left].
  - simpl. now rewrite !app_nil_r.
  - inversion Hnd as [|? ? Hnot Hrest]; subst.
    unfold validateStep at 2. cbn [filter flat_map].
    unfold accepted at 1, exclusionOf at 1.
    destruct (judge sch (fst e) (snd e)) as [ | |x].
    + rewrite IH; [reflexivity | exact Hrest |].
      intros k Hk Hin. apply (Hdis k Hk). now right.
    + rewrite prop_set_absent by (intros Hin; apply (Hdis _ Hin); now left).
      rewrite IH; [|exact Hrest|].
      * rewrite <- app_assoc. now destruct e.
      * intros k Hk. rewrite keys_app in Hk. apply in_app_or in Hk as [Hk|Hk].
        -- intros Hin. apply (Hdis k Hk). now right.
        -- destruct Hk as [<-|[]]. exact Hnot.
    + rewrite IH; [now rewrite <- app_assoc | exact Hrest |].
      intros k Hk Hin. apply (Hdis k Hk). now right.
Qed.

Lemma validate_shape (sch : schema) (l : object) :
  NoDup (keys l) ->
  validateAndFilterFields l sch
  = (filter (accepted sch) l, flat_map (exclusionOf sch) l).
Proof.
  intros Hnd. unfold validateAndFilterFields.
  rewrite validate_fold; [reflexivity | exact Hnd | intros k []].
Qed.

Lemma accepted_not_blank (sch : schema) (e : jsstring * jsvalue) :
  accepted sch e = true -> isBlank (snd e) = false.
Proof.
  unfold accepted, judge. destruct (isBlank (snd e)); [discriminate | reflexivity].
Qed.

Lemma blank_skipped (sch : schema) (e : jsstring * jsvalue) :
  isBlank (snd e) = true -> accepted sch e = false /\ exclusionOf sch e = [].
Proof.
  unfold accepted, exclusionOf, judge. intros ->. auto.
Qed.

End RerunFacts.

(** *** Transforms applied to their own results *)

Lemma startsWith_nonempty (p s : jsstring) :
  p <> [] -> startsWith p s = true -> nonempty s = true.
Proof. destruct p, s; simpl; congruence. Qed.

Lemma startsWith_app (p q s : jsstring) :
  startsWith (p ++ q) s = true -> startsWith p s = true.
Proof.
  revert s. induction p as [|x p IH]; intros s; simpl; [reflexivity|].
  destruct s as [|y s]; [discriminate|].
  intros H. apply andb_true_iff in H as [Hxy H]. rewrite Hxy. now apply IH.
Qed.

Lemma dropWhile_In (p : jschar -> bool) (s : jsstring) (c : jschar) :
  In c (dropWhile p s) -> In c s.
Proof.
  induction s as [|x s IH]; simpl; [auto|].
  destruct (p x); [intros H; right; now apply IH | auto].
Qed.

Lemma trim_In (s : jsstring) (c : jschar) : In c (trim s) -> In c s.
Proof.
  unfold trim, dropWhileEnd. intros H.
  apply in_rev, dropWhile_In in H. apply in_rev in H.
  now apply dropWhile_In in H.
Qed.

Lemma split_pieces (sep : jschar) (s piece : jsstring) :
  In piece (split sep s) -> ~ In sep piece.
Proof.
  revert piece. induction s as [|c s IH]; intros piece; simpl.
  - intros [<-|[]]. auto.
  - destruct (N.eqb c sep) eqn:E.
    + intros [<-|H]; [auto | now apply IH].
    + destruct (split sep s) as [|h t] eqn:Es.
      * intros [<-|[]]. intros [->|[]]. rewrite N.eqb_refl in E. discriminate.
      * intros [<-|H].
        -- intros [->|Hin]; [rewrite N.eqb_refl in E; discriminate|].
           apply (IH h); [now left | exact Hin].
        -- apply IH. now right.
Qed.

Lemma split_without_sep (sep : jschar) (s : jsstring) :
  ~ In sep s -> split sep s = [s].
Proof.
  induction s as [|c s IH]; intros Hnot; simpl; [reflexivity|].
  destruct (N.eqb c sep) eqn:E.
  - apply N.eqb_eq in E. exfalso. apply Hnot. now left.
  - rewrite IH; [reflexivity|]. intros Hin. apply Hnot. now right.
Qed.

Lemma splitList_piece (s item : jsstring) :
  In item (splitList s) -> splitList item = [item].
Proof.
  unfold splitList. intros H. apply filter_In in H as [H Hne].
  apply in_map_iff in H as (piece & <- & Hpiece).
  rewrite split_without_sep.
  - cbn [map filter]. rewrite trim_idempotent. now rewrite Hne.
  - intros Hin. apply trim_In in Hin. now apply (split_pieces _ _ _ Hpiece).
Qed.

(** ** The linked-record transform: what it returns *)

Lemma filter_map_swap (A B : Type) (f : B -> bool) (g : A -> B) (l : list A) :
  filter f (map g l) = map g (filter (fun x => f (g x)) l).
Proof.
  induction l as [|x l IH]; cbn [map filter]; [reflexivity|].
  destruct (f (g x)); cbn [map]; now rewrite IH.
Qed.

Section LinkedRecords.

Context {NM : NumberModel}.

Lemma linkedRecord_split (s : jsstring) :
  isUrl s = false -> includes [comma] s = true ->
  linkedRecord (VStr s)
  = VArr (map VStr (map trim (filter (fun piece => nonempty (trim piece))
                                     (split comma s)))).
Proof.
  intros Hurl Hcomma. unfold linkedRecord.
  destruct s as [|c s]; [discriminate|].
  cbn [truthy nonempty negb orb]. rewrite Hurl, Hcomma.
  unfold splitList. now rewrite filter_map_swap.
Qed.

(** C1, as the code has it.  Under the linked-record field type: a string
    that starts with [http://] or [https://], in lower case, makes the
    transform return the exclusion signal [null], never a value; so do the
    empty string, [null], [undefined] and the empty array; a field whose
    transform returns that signal is left out of the transformed fields.  A
    string without such a prefix that contains a comma, with a piece
    between its commas that is not blank and no piece that starts with such
    a prefix once trimmed, is split into one identifier for each piece that
    is not blank, in order: each identifier is the piece trimmed, is not
    empty, has no white space at either end, no comma and no such prefix,
    and there are two identifiers or more when two pieces or more are not
    blank. *)
Theorem linked_record_transform (fieldName : jsstring) :
  let transform v := transformByFieldType fieldName v (lit "multipleRecordLinks") in
  (forall s,
      startsWith (lit "http://") s = true \/ startsWith (lit "https://") s = true ->
      transform (VStr s) = Some VNull)
  /\ (transform (VStr []) = Some VNull
      /\ transform VNull = Some VNull
      /\ transform VUndefined = Some VNull
      /\ transform (VArr []) = Some VNull)
  /\ (forall sch fields v,
         fieldTypeOf sch fieldName = Some (lit "multipleRecordLinks") ->
         transform v = Some VNull ->
         transformStep sch fields (fieldName, v) = fields)
  /\ (forall s,
         isUrl s = false ->
         includes [comma] s = true ->
         existsb (fun piece => nonempty (trim piece)) (split comma s) = true ->
         forallb (fun piece => negb (isUrl (trim piece))) (split comma s) = true ->
         exists ids,
           transform (VStr s) = Some (VArr (map VStr ids))
           /\ ids = map trim (filter (fun piece => nonempty (trim piece))
                                     (split comma s))
           /\ ids <> []
           /\ Forall (fun id => id <> []
                                /\ noEdgeWhitespace id = true
                                /\ ~ In comma id
                                /\ isUrl id = false) ids
           /\ (2 <= length (filter (fun piece => nonempty (trim piece))
                                   (split comma s)) ->
               2 <= length ids)).
Proof.
  cbv zeta. split; [|split; [|split]].
  - intros s Hurl. rewrite transformByFieldType_linked. f_equal.
    assert (Hisurl : isUrl s = true).
    { unfold isUrl. destruct Hurl as [-> | ->]; [reflexivity | apply orb_true_r]. }
    unfold linkedRecord. destruct s as [|c s]; [reflexivity|].
    cbn [truthy nonempty negb orb]. now rewrite Hisurl.
  - repeat split; reflexivity.
  - intros sch fields v Hty Hv. unfold transformStep.
    destruct (isBlank v); [reflexivity|].
    now rewrite Hty, Hv.
  - intros s Hurl Hcomma Hsome Hnone.
    exists (map trim (filter (fun piece => nonempty (trim piece)) (split comma s))).
    split; [|split; [reflexivity|split; [|split]]].
    + rewrite transformByFieldType_linked. f_equal. now apply linkedRecord_split.
    + apply existsb_exists in Hsome as (piece & Hin & Hpiece).
      intros Hnil. apply map_eq_nil in Hnil.
      assert (Hf : In piece (filter (fun piece => nonempty (trim piece))
                                    (split comma s)))
        by (apply filter_In; now split).
      rewrite Hnil in Hf. destruct Hf.
    + apply Forall_forall. intros id Hid.
      apply in_map_iff in Hid as (piece & <- & Hpiece).
      apply filter_In in Hpiece as [Hin Hne].
      split; [now destruct (trim piece)|]. split.
      { unfold noEdgeWhitespace. now rewrite trim_startsClean, trim_endsClean. }
      split.
      { intros Hc. apply trim_In in Hc. now apply (split_pieces _ _ _ Hin). }
      pose proof (proj1 (forallb_forall _ _) Hnone piece Hin) as Hp.
      cbn beta in Hp. now apply negb_true_iff in Hp.
    + intros H. now rewrite length_map.
Qed.

End LinkedRecords.

Lemma linked_record_transform_witness :
  transformByFieldType (lit "Related") (VStr (lit "https://example.com/x"))
    (lit "multipleRecordLinks") = Some VNull
  /\ transformStep (Some [(lit "Related", lit "multipleRecordLinks")]) []
       (lit "Related", VStr (lit "https://example.com/x")) = []
  /\ transformByFieldType (lit "Related") (VStr (lit "rec1, rec2"))
       (lit "multipleRecordLinks")
     = Some (VArr [VStr (lit "rec1"); VStr (lit "rec2")]).
Proof.
  destruct (linked_record_transform (NM := NatNumbers) (lit "Related"))
    as (Hurl & _ & Hstep & Hsplit).
  split; [|split].
  - apply Hurl. right. reflexivity.
  - apply Hstep; [reflexivity|]. apply Hurl. right. reflexivity.
  - destruct (Hsplit (lit "rec1, rec2") eq_refl eq_refl eq_refl eq_refl)
      as (ids & E & -> & _).
    exact E.
Defined.

(** C1 as stated fails.  The scheme is compared in lower case only, so an
    address written with an upper-case scheme is returned as an identifier;
    and a string with a comma gives a single identifier when only one of
    its pieces is not blank. *)
Lemma linked_record_upper_case_scheme_and_single_piece :
  transformByFieldType (lit "Related") (VStr (lit "HTTPS://example.com/x"))
    (lit "multipleRecordLinks")
  = Some (VArr [VStr (lit "HTTPS://example.com/x")])
  /\ transformByFieldType (lit "Related") (VStr (lit "rec1,"))
       (lit "multipleRecordLinks")
     = Some (VArr [VStr (lit "rec1")]).
Proof. split; reflexivity. Qed.

(** Where the branch for a string with commas departs from the branch for
    an array: the array branch drops the elements that start with
    [http://] or [https://] and returns [null] when none is left; the
    branch for a string keeps such a piece and returns the empty array when
    every piece is blank.  The validator excludes the field in both
    cases. *)
Lemma linked_record_comma_branch_keeps_what_array_branch_drops :
  transformByFieldType (lit "Related") (VStr (lit "rec1,https://example.com/x"))
    (lit "multipleRecordLinks")
  = Some (VArr [VStr (lit "rec1"); VStr (lit "https://example.com/x")])
  /\ transformByFieldType (lit "Related")
       (VArr [VStr (lit "rec1"); VStr (lit "https://example.com/x")])
       (lit "multipleRecordLinks")
     = Some (VArr [VStr (lit "rec1")])
  /\ transformByFieldType (lit "Related") (VStr (lit ","))
       (lit "multipleRecordLinks")
     = Some (VArr [])
  /\ transformByFieldType (lit "Related") (VArr [VStr (lit "https://example.com/x")])
       (lit "multipleRecordLinks")
     = Some VNull
  /\ fst (validateAndFilterFields
            [(lit "Related", VArr [VStr (lit "rec1"); VStr (lit "https://example.com/x")])]
            (Some [(lit "Related", lit "multipleRecordLinks")])) = []
  /\ fst (validateAndFilterFields [(lit "Related", VArr [])]
            (Some [(lit "Related", lit "multipleRecordLinks")])) = [].
Proof. repeat split. Qed.

Lemma flat_map_concat_map_nil (A B : Type) (f : A -> list B) (l : list A) :
  (forall x, In x l -> f x = []) -> flat_map f l = [].
Proof.
  induction l as [|x l IH]; intros H; simpl; [reflexivity|].
  rewrite (H x (or_introl eq_refl)). apply IH. intros y Hy. apply H. now right.
Qed.

Lemma filter_id (A : Type) (f : A -> bool) (l : list A) :
  Forall (fun x => f x = true) l -> filter f l = l.
Proof.
  induction 1 as [|x l Hx _ IH]; simpl; [reflexivity|]. now rewrite Hx, IH.
Qed.

Lemma filter_idempotent (A : Type) (f : A -> bool) (l : list A) :
  filter f (filter f l) = filter f l.
Proof.
  apply filter_id, Forall_forall. intros x Hx. now apply filter_In in Hx.
Qed.

Lemma stripQuotes_id (s : jsstring) :
  startsClean is_quote s = true -> endsClean is_quote s = true ->
  stripQuotes s = s.
Proof.
  intros H1 H2. unfold stripQuotes. rewrite dropWhile_id by exact H1.
  now apply dropWhileEnd_id.
Qed.

Section StableTransforms.

Context {NM : NumberModel}.

Lemma sequence_toString_strings (l : list jsstring) :
  sequence (map toString (map VStr l)) = Some l.
Proof.
  induction l as [|s l IH]; simpl; [reflexivity|]. simpl in IH. now rewrite IH.
Qed.

Lemma attachmentOf_stable (z : jsvalue) :
  isNull (attachmentOf z) = false -> attachmentOf (attachmentOf z) = attachmentOf z.
Proof.
  destruct z as [ | | b | n | s | items | o]; cbn [attachmentOf isNull];
    try discriminate.
  - destruct (startsWith (lit "http") s) eqn:E; cbn [isNull]; [|discriminate].
    intros _. cbn [attachmentOf].
    assert (Hs : truthy (get [(lit "url", VStr s)] (lit "url")) = true).
    { unfold get. cbn [prop_get]. rewrite str_eqb_refl. cbn [truthy].
      apply (@startsWith_nonempty (lit "http") s); [discriminate | exact E]. }
    now rewrite Hs.
  - destruct (truthy (get o (lit "url"))) eqn:E; cbn [isNull]; [|discriminate].
    intros _. cbn [attachmentOf]. now rewrite E.
Qed.

Lemma attachments_stable (l : list jsvalue) :
  filter (fun v => negb (isNull v))
         (map attachmentOf (filter (fun v => negb (isNull v)) (map attachmentOf l)))
  = filter (fun v => negb (isNull v)) (map attachmentOf l).
Proof.
  induction l as [|z l IH]; [reflexivity|]. cbn [map filter].
  destruct (isNull (attachmentOf z)) eqn:E; cbn [negb]; [exact IH|].
  cbn [map filter]. rewrite (attachmentOf_stable _ E), E. cbn [negb].
  now rewrite IH.
Qed.

Lemma linkedRecord_shape (x : jsvalue) :
  linkedRecord x = VNull
  \/ exists items, linkedRecord x = VArr items
                   /\ Forall (fun y => isIdentifier y = true) items.
Proof.
  unfold linkedRecord.
  destruct (negb (truthy x) || match x with VStr [] | VArr [] => true | _ => false end);
    [now left|].
  destruct x as [ | | b | n | s | items | o]; try (now left).
  - destruct (nonempty s) eqn:Hs; [|now left].
    destruct (isUrl s); [now left|].
    destruct (includes [comma] s).
    + right. eexists. split; [reflexivity|].
      apply Forall_forall. intros y Hy. apply in_map_iff in Hy as (p & <- & Hp).
      unfold splitList in Hp. now apply filter_In in Hp as [_ Hp].
    + right. eexists. split; [reflexivity|]. constructor; [exact Hs | constructor].
  - destruct (filter validId items) as [|y ys] eqn:E; [now left|].
    right. eexists. split; [reflexivity|].
    apply Forall_forall. intros z Hz. rewrite <- E in Hz.
    apply filter_In in Hz as [_ Hz]. unfold validId in Hz.
    destruct z; try discriminate. simpl.
    now apply andb_true_iff in Hz as [Hz _]; apply andb_true_iff in Hz as [Hz _].
Qed.

Lemma linkedRecord_stable (x : jsvalue) :
  isValidLinkedRecord (linkedRecord x) = true ->
  linkedRecord (linkedRecord x) = linkedRecord x.
Proof.
  destruct (linkedRecord_shape x) as [->|(items & -> & Hids)]; [discriminate|].
  unfold isValidLinkedRecord. intros H. apply andb_true_iff in H as [Hne Hall].
  destruct items as [|y ys]; [discriminate|].
  unfold linkedRecord. cbn [truthy negb orb].
  assert (E : filter validId (y :: ys) = y :: ys).
  { apply filter_id. rewrite forallb_forall in Hall. rewrite Forall_forall in Hids.
    apply Forall_forall. intros z Hz. specialize (Hall z Hz). specialize (Hids z Hz).
    destruct z as [ | | | | s | | ]; try discriminate.
    cbn [isIdentifier] in Hids. cbn [validId].
    rewrite Hids. apply negb_true_iff in Hall.
    assert (H1 : startsWith (lit "http://") s = false).
    { destruct (startsWith (lit "http://") s) eqn:E1; [|reflexivity].
      apply (@startsWith_app (lit "http") (lit "://") s) in E1. congruence. }
    assert (H2 : startsWith (lit "https://") s = false).
    { destruct (startsWith (lit "https://") s) eqn:E2; [|reflexivity].
      apply (@startsWith_app (lit "http") (lit "s://") s) in E2. congruence. }
    now rewrite H1, H2. }
  now rewrite E.
Qed.

Lemma toString_nonempty (x : jsvalue) (s : jsstring) :
  numberLaws ->
  isBlank x = false -> isString x = false -> isArray x = false ->
  toString x = Some s -> nonempty s = true.
Proof.
  intros [_ Hprint] Hb Hs Ha.
  destruct x as [ | | [|] | n | t | items | o]; try discriminate; simpl.
  - now intros [= <-].
  - now intros [= <-].
  - intros [= <-]. specialize (Hprint n). now destruct (num_toString n).
  - destruct (prop_get o (lit "toString")); [discriminate|]. now intros [= <-].
Qed.

Lemma transformByHeuristic_stable (fieldName : jsstring) (x : jsvalue) :
  transformByHeuristic fieldName (transformByHeuristic fieldName x)
  = transformByHeuristic fieldName x.
Proof.
  unfold transformByHeuristic. cbv zeta.
  remember (includes (lit "picture") (toLowerCase fieldName)
            || includes (lit "photo") (toLowerCase fieldName)
            || includes (lit "image") (toLowerCase fieldName)) as pic.
  remember (includes (lit "tag") (toLowerCase fieldName)
            || includes (lit "categor") (toLowerCase fieldName)) as tag.
  clear Heqpic Heqtag.
  destruct x as [ | | b | n | s | items | o];
    try (cbn beta iota; cbn [andb]; destruct tag; reflexivity).
  destruct (startsWith (lit "http") s && pic) eqn:E1.
  - cbn beta iota. now rewrite E1.
  - destruct tag.
    + destruct (splitList s) as [|item [|item2 rest]] eqn:Es.
      * cbn beta iota. now rewrite E1, Es.
      * cbn beta iota.
        destruct (startsWith (lit "http") item && pic); [reflexivity|].
        rewrite (splitList_piece s item); [reflexivity|].
        rewrite Es. now left.
      * cbn beta iota. cbn [andb]. reflexivity.
    + cbn beta iota. now rewrite E1.
Qed.

End StableTransforms.

Section PipelineRerun.

Context {NM : NumberModel}.

Lemma transformByFieldType_stable
      (fieldName : jsstring) (x tv : jsvalue) (fieldType : jsstring) :
  numberLaws ->
  isBlank x = false ->
  transformByFieldType fieldName x fieldType = Some tv ->
  tv <> VNull ->
  (stripsQuotes (kindOf fieldType) = true ->
   forall s, tv = VStr s ->
             startsClean is_quote s = true /\ endsClean is_quote s = true) ->
  (kindOf fieldType = multipleRecordLinks -> isValidLinkedRecord tv = true) ->
  transformByFieldType fieldName tv fieldType = Some tv.
Proof.
  intros Hlaws Hblank Hx Hnull Hquote Hlink.
  assert (Htext : forall s,
             stripsQuotes (kindOf fieldType) = true ->
             tv = VStr (trim (stripQuotes s)) ->
             Some (VStr (trim (stripQuotes (trim (stripQuotes s))))) = Some tv).
  { intros s Hk ->. destruct (Hquote Hk _ eq_refl) as [H1 H2].
    now rewrite (stripQuotes_id _ H1 H2), trim_idempotent. }
  assert (Hnum : forall s,
             Some (if num_isNaN (str_parseFloat s) then VNull
                   else VNum (str_parseFloat s)) = Some tv ->
             match toString tv with
             | Some s' => Some (if num_isNaN (str_parseFloat s') then VNull
                                else VNum (str_parseFloat s'))
             | None => None
             end = Some tv).
  { intros s H. destruct (num_isNaN (str_parseFloat s)) eqn:En.
    - injection H as <-. now contradiction Hnull.
    - injection H as <-. cbn [toString].
      rewrite (proj1 Hlaws _ En). now rewrite En. }
  assert (Hstr : forall s, Some (VStr s) = Some tv ->
             match toString tv with
             | Some s' => Some (VStr s')
             | None => None
             end = Some tv).
  { intros s [= <-]. reflexivity. }
  unfold transformByFieldType in *.
  destruct (kindOf fieldType) eqn:K.
  - (* multipleAttachments *)
    destruct x as [ | | b | n | s | items | o]; try (injection Hx as <-; reflexivity).
    + destruct (startsWith (lit "http") s) eqn:E; injection Hx as <-; [|reflexivity].
      f_equal. f_equal.
      pose proof (@attachmentOf_stable NM (VStr s)) as Hst.
      cbn [attachmentOf] in Hst. rewrite E in Hst.
      cbn [map filter]. rewrite (Hst eq_refl). reflexivity.
    + injection Hx as <-. f_equal. f_equal. apply attachments_stable.
  - (* multipleRecordLinks *)
    injection Hx as <-. f_equal. apply linkedRecord_stable. now apply Hlink.
  - (* multipleSelects *)
    assert (Hlist : forall l, Forall (fun s => nonempty s = true) l ->
               match sequence (map toString (map VStr l)) with
               | Some strs => Some (VArr (map VStr (filter nonempty strs)))
               | None => None
               end = Some (VArr (map VStr l))).
    { intros l Hl. rewrite sequence_toString_strings. now rewrite (filter_id _ Hl). }
    destruct x as [ | | b | n | s | items | o]; try discriminate.
    + destruct (toString (VBool b)) as [s|] eqn:Es; [|discriminate].
      injection Hx as <-. apply (Hlist [s]). constructor; [|constructor].
      now apply (toString_nonempty (VBool b)).
    + destruct (toString (VNum n)) as [s|] eqn:Es; [|discriminate].
      injection Hx as <-. apply (Hlist [s]). constructor; [|constructor].
      now apply (toString_nonempty (VNum n)).
    + injection Hx as <-. apply Hlist. apply Forall_forall. intros p Hp.
      unfold splitList in Hp. now apply filter_In in Hp.
    + destruct (sequence (map toString items)) as [strs|]; [|discriminate].
      injection Hx as <-. apply Hlist. apply Forall_forall. intros p Hp.
      now apply filter_In in Hp.
    + destruct (toString (VObj o)) as [s|] eqn:Es; [|discriminate].
      injection Hx as <-. apply (Hlist [s]). constructor; [|constructor].
      now apply (toString_nonempty (VObj o)).
  - (* singleSelect *)
    destruct (match x with
              | VArr items =>
                  match items with
                  | first :: _ => if truthy first then toString first else Some []
                  | [] => Some []
                  end
              | _ => toString x
              end) as [s|]; [|discriminate].
    injection Hx as Hx. rewrite <- Hx. cbn [toString]. rewrite Hx.
    apply Htext; [reflexivity | now symmetry].
  - destruct (toString x) as [s|]; [|discriminate].
    injection Hx as Hx. rewrite <- Hx. cbn [toString]. rewrite Hx.
    apply Htext; [reflexivity | now symmetry].
  - destruct (toString x) as [s|]; [|discriminate].
    injection Hx as Hx. rewrite <- Hx. cbn [toString]. rewrite Hx.
    apply Htext; [reflexivity | now symmetry].
  - destruct (toString x) as [s|]; [|discriminate].
    injection Hx as Hx. rewrite <- Hx. cbn [toString]. rewrite Hx.
    apply Htext; [reflexivity | now symmetry].
  - destruct (toString x) as [s|]; [now apply (Hnum s) | discriminate].
  - destruct (toString x) as [s|]; [now apply (Hnum s) | discriminate].
  - destruct (toString x) as [s|]; [now apply (Hnum s) | discriminate].
  - destruct (toString x) as [s|]; [now apply (Hnum s) | discriminate].
  - (* checkbox *)
    destruct x as [ | | b | n | s | items | o]; injection Hx as <-; reflexivity.
  - destruct (toString x) as [s|]; [now apply (Hstr s) | discriminate].
  - destruct (toString x) as [s|]; [now apply (Hstr s) | discriminate].
  - destruct (toString x) as [s|]; [now apply (Hstr s) | discriminate].
  - destruct (toString x) as [s|]; [now apply (Hstr s) | discriminate].
  - destruct (toString x) as [s|]; [now apply (Hstr s) | discriminate].
  - (* any other type *)
    injection Hx as <-. reflexivity.
Qed.

Lemma written_stable (sch : schema) (fieldName : jsstring) (x v : jsvalue) :
  numberLaws ->
  written sch (fieldName, x) = Some v ->
  isBlank v = false ->
  quotesSettled sch [(fieldName, v)] = true ->
  linksSettled sch [(fieldName, v)] = true ->
  written sch (fieldName, v) = Some v.
Proof.
  intros Hlaws Hw Hv Hq Hl. unfold written in *. cbn [fst snd] in *. rewrite Hv.
  destruct (isBlank x) eqn:Hx; [discriminate|].
  unfold quotesSettled, linksSettled in Hq, Hl. cbn [forallb fst snd] in Hq, Hl.
  rewrite andb_true_r in Hq, Hl.
  destruct (fieldTypeOf sch fieldName) as [fieldType|].
  - destruct (transformByFieldType fieldName x fieldType) as [tv|] eqn:Ht.
    + assert (Hnn : tv <> VNull /\ v = tv).
      { destruct tv; try (injection Hw as <-; split; [discriminate | reflexivity]).
        discriminate. }
      destruct Hnn as [Hnn ->].
      rewrite (@transformByFieldType_stable fieldName x tv fieldType Hlaws Hx Ht Hnn).
      * destruct tv; try reflexivity. now contradiction Hnn.
      * intros Hk s ->. rewrite Hk in Hq. now apply andb_true_iff in Hq.
      * intros Hk. now rewrite Hk in Hl.
    + injection Hw as <-. rewrite Ht. reflexivity.
  - assert (E : transformByHeuristic fieldName x = v).
    { destruct (transformByHeuristic fieldName x);
        try (injection Hw as <-; reflexivity). discriminate. }
    assert (Hs : transformByHeuristic fieldName v = v)
      by (rewrite <- E; apply transformByHeuristic_stable).
    rewrite Hs. destruct v; try reflexivity. discriminate Hv.
Qed.

Lemma settled_entry (check : jsstring * jsvalue -> bool) (l : object)
      (e : jsstring * jsvalue) :
  forallb check l = true -> In e l -> forallb check [e] = true.
Proof.
  intros H Hin. rewrite forallb_forall in H. cbn [forallb].
  now rewrite (H e Hin).
Qed.

(** Transforming again a list of entries with distinct keys, each of them
    already a result of the transform and settled, drops the blank entries
    and changes nothing else. *)
Lemma retransform (sch : schema) (l : object) :
  numberLaws ->
  NoDup (keys l) ->
  (forall e, In e l -> exists x, written sch (fst e, x) = Some (snd e)) ->
  quotesSettled sch l = true ->
  linksSettled sch l = true ->
  transformFieldsForAirtable l sch = filter (fun e => negb (isBlank (snd e))) l.
Proof.
  intros Hlaws Hnd Hsrc Hq Hl. unfold transformFieldsForAirtable.
  rewrite transformFields_fold, fold_assign; [|exact Hnd | intros k []].
  cbn [app]. apply collect_filter. intros [name v] Hin. cbn [snd].
  destruct (isBlank v) eqn:Hv; cbn [negb].
  - unfold written. cbn [snd]. now rewrite Hv.
  - destruct (Hsrc _ Hin) as [x Hx]. cbn [fst snd] in Hx.
    apply (@written_stable sch name x v Hlaws Hx Hv).
    + apply (settled_entry _ l); [exact Hq | exact Hin].
    + apply (settled_entry _ l); [exact Hl | exact Hin].
Qed.

Lemma filter_filter_weaker (A : Type) (f g : A -> bool) (l : list A) :
  (forall x, f x = true -> g x = true) ->
  filter f (filter g l) = filter f l.
Proof.
  intros H. induction l as [|x l IH]; simpl; [reflexivity|].
  destruct (g x) eqn:Eg; simpl.
  - now rewrite IH.
  - destruct (f x) eqn:Ef; [|exact IH]. rewrite (H x Ef) in Eg. discriminate.
Qed.

Lemma flat_map_filter_weaker (A B : Type) (f : A -> list B) (g : A -> bool)
      (l : list A) :
  (forall x, g x = false -> f x = []) ->
  flat_map f (filter g l) = flat_map f l.
Proof.
  intros H. induction l as [|x l IH]; simpl; [reflexivity|].
  destruct (g x) eqn:Eg; simpl.
  - now rewrite IH.
  - now rewrite (H x Eg), IH.
Qed.

Lemma accepted_links_settled (sch : schema) (l : object) :
  linksSettled sch (filter (accepted sch) l) = true.
Proof.
  unfold linksSettled. apply forallb_forall. intros [name v] Hin.
  apply filter_In in Hin as [_ Hacc]. cbn [fst snd].
  destruct (fieldTypeOf sch name) as [fieldType|] eqn:Hty; [|reflexivity].
  destruct (kindOf fieldType) eqn:K; try reflexivity.
  unfold accepted, judge in Hacc. cbn [fst snd] in Hacc.
  destruct (isBlank v); [discriminate|].
  destruct sch as [tys|]; [|discriminate]. rewrite Hty in Hacc.
  assert (E : str_eqb fieldType (lit "multipleRecordLinks") = true).
  { unfold kindOf in K.
    destruct (find (fun e => str_eqb (lit (fst e)) fieldType) kindNames)
      as [[nm k]|] eqn:F; [|discriminate].
    cbn [snd] in K. subst k. apply find_some in F as [Hin Heq]. cbn [fst] in Heq.
    apply str_eqb_eq in Heq. subst fieldType.
    unfold kindNames in Hin. cbn [In] in Hin.
    repeat (destruct Hin as [Hin|Hin]; [injection Hin as <-; try discriminate|]);
      try reflexivity. destruct Hin. }
  rewrite E in Hacc. cbn [andb] in Hacc.
  destruct (isValidLinkedRecord v); [reflexivity | discriminate].
Qed.

(** C5, as the code has it.  Let a record be mapped, transformed and
    validated against a schema.  Putting the valid fields of that run through
    transformation and validation again returns the same valid fields and
    excludes nothing, provided no single-select or text value among
    them starts or ends with a quote.  Putting the transformed fields of
    that run through transformation and validation again returns the same
    valid fields and the same excluded fields, provided no single-select or
    text value among them starts or ends with a quote and every
    linked-record value among them passes the validator's rule for linked
    records.  Numbers are assumed to print to a non-empty decimal form
    that [parseFloat] reads back. *)
Theorem pipeline_rerun_stable
  (contactData : object) (fieldMappings : mapping) (sch : schema) :
  numberLaws ->
  let transformed :=
    transformFieldsForAirtable (mapContactDataToAirtable contactData fieldMappings) sch in
  let validFields := fst (pipeline contactData fieldMappings sch) in
  let excludedFields := snd (pipeline contactData fieldMappings sch) in
  (quotesSettled sch validFields = true ->
   transformAndValidate validFields sch = (validFields, []))
  /\ (quotesSettled sch transformed = true ->
      linksSettled sch transformed = true ->
      transformAndValidate transformed sch = (validFields, excludedFields)).
Proof.
  intros Hlaws. cbv zeta. unfold pipeline, transformAndValidate.
  set (T := transformFieldsForAirtable
              (mapContactDataToAirtable contactData fieldMappings) sch).
  assert (HndT : NoDup (keys T)).
  { unfold T, transformFieldsForAirtable. apply transformed_NoDup. constructor. }
  assert (HsrcT : forall e, In e T -> exists x, written sch (fst e, x) = Some (snd e)).
  { intros e He. unfold T, transformFieldsForAirtable in He.
    apply transformed_entries in He as [[]|H]. exact H. }
  rewrite (@validate_shape NM sch T HndT). cbn [fst snd].
  split.
  - intros Hq.
    set (V := filter (accepted sch) T) in *.
    assert (HndV : NoDup (keys V)) by now apply NoDup_keys_filter.
    rewrite (@retransform sch V Hlaws HndV).
    + rewrite (@filter_id _ (fun e => negb (isBlank (snd e))) V).
      * rewrite (@validate_shape NM sch V HndV). unfold V.
        rewrite filter_idempotent. f_equal.
        apply flat_map_concat_map_nil.
        intros e He. apply filter_In in He as [_ He].
        unfold exclusionOf. unfold accepted in He.
        now destruct (judge sch (fst e) (snd e)).
      * apply Forall_forall. intros e He. apply filter_In in He as [_ He].
        apply accepted_not_blank in He. now rewrite He.
    + intros e He. apply HsrcT. now apply filter_In in He.
    + exact Hq.
    + apply accepted_links_settled.
  - intros Hq Hl.
    rewrite (@retransform sch T Hlaws HndT HsrcT Hq Hl).
    rewrite validate_shape by now apply NoDup_keys_filter.
    f_equal.
    + apply filter_filter_weaker. intros e He.
      apply accepted_not_blank in He. now rewrite He.
    + apply flat_map_filter_weaker. intros e He.
      apply negb_false_iff in He. now apply blank_skipped.
Qed.

End PipelineRerun.

(** *** The number model satisfies the laws *)

Lemma chars_uint_uint_chars (d : Decimal.uint) : chars_uint (uint_chars d) = d.
Proof. induction d; simpl; now rewrite ?IHd. Qed.

Lemma uint_chars_digits (d : Decimal.uint) : forallb is_digit (uint_chars d) = true.
Proof. induction d; simpl; auto. Qed.

Lemma uint_chars_nonempty (d : Decimal.uint) : d <> Decimal.Nil -> uint_chars d <> [].
Proof. destruct d; simpl; congruence. Qed.

Lemma takeWhile_all (p : jschar -> bool) (s : jsstring) :
  forallb p s = true -> takeWhile p s = s.
Proof.
  induction s as [|c s IH]; simpl; [reflexivity|].
  intros H. apply andb_true_iff in H as [Hc Hs]. now rewrite Hc, IH.
Qed.

Lemma to_uint_nonnil (k : N) : N.to_uint k <> Decimal.Nil.
Proof.
  destruct k as [|p]; simpl; [discriminate|].
  apply DecimalPos.Unsigned.to_uint_nonnil.
Qed.

Lemma NatNumbers_laws : numberLaws (NM := NatNumbers).
Proof.
  split.
  - intros [k|]; [intros _ | discriminate].
    cbn [str_parseFloat num_toString NatNumbers natToString]. unfold natParseFloat.
    rewrite dropWhile_id by (now destruct (N.to_uint k)).
    rewrite takeWhile_all by apply uint_chars_digits.
    pose proof (uint_chars_nonempty (to_uint_nonnil k)) as Hne.
    destruct (uint_chars (N.to_uint k)) as [|c cs] eqn:E; [contradiction|].
    rewrite <- E, chars_uint_uint_chars. f_equal.
    apply DecimalN.Unsigned.of_to.
  - intros [k|]; cbn [num_toString NatNumbers natToString].
    + apply uint_chars_nonempty, to_uint_nonnil.
    + discriminate.
Qed.

Lemma pipeline_rerun_stable_witness :
  pipeline (NM := NatNumbers) janeProfile [] janeSchema
  = ([(lit "Name", VStr (lit "Jane Doe"));
      (lit "Job Title", VStr (lit "Product Manager"))],
     [NotInSchema (lit "LinkedIn URL")
        (lit "Field does not exist in Airtable table")
        (VStr (lit "https://x/in/jane"))])
  /\ transformAndValidate (fst (pipeline janeProfile [] janeSchema)) janeSchema
     = (fst (pipeline janeProfile [] janeSchema), [])
  /\ transformAndValidate
       (transformFieldsForAirtable (mapContactDataToAirtable janeProfile []) janeSchema)
       janeSchema
     = pipeline janeProfile [] janeSchema.
Proof.
  destruct (pipeline_rerun_stable (NM := NatNumbers) janeProfile [] janeSchema
              NatNumbers_laws) as [Hvalid Hall].
  split; [reflexivity|]. split.
  - apply Hvalid. reflexivity.
  - rewrite (surjective_pairing (pipeline janeProfile [] janeSchema)).
    apply Hall; reflexivity.
Defined.

(** C5 as stated fails.  The first run leaves the note with a leading
    quote (the transform strips the quotes at the ends and only then trims
    the space that hid this one); run again on its own result, the
    transform strips that quote too, so the valid fields differ.  Nothing is
    excluded in either run, and the valid fields of the first run are all of
    its transformed fields. *)
Lemma pipeline_rerun_changes_quoted_text :
  pipeline (NM := NatNumbers) quotedNote [] notesSchema
  = ([(lit "Notes", VStr (lit "'hello"))], [])
  /\ transformFieldsForAirtable (mapContactDataToAirtable quotedNote []) notesSchema
     = [(lit "Notes", VStr (lit "'hello"))]
  /\ transformAndValidate [(lit "Notes", VStr (lit "'hello"))] notesSchema
     = ([(lit "Notes", VStr (lit "hello"))], []).
Proof. repeat split. Qed.

(* ================================================================== *)
(** * Further properties *)
(* ================================================================== *)

(** ** The matcher *)

Section MatcherFacts.

Variable A : Type.

Lemma orelse_some (x y : option A) (v : A) :
  orelse x y = Some v -> x = Some v \/ (x = None /\ y = Some v).
Proof. destruct x; simpl; auto. Qed.

Lemma orelse_matched (x y : option A) :
  orelse x y <> None <-> x <> None \/ y <> None.
Proof.
  destruct x; simpl.
  - split; [left | ]; congruence.
  - split; [now right | intros [H|H]; congruence].
Qed.

(** The matcher only looks at the values of its continuation. *)
Lemma rmatch_ext (r : regex) :
  forall b s (k1 k2 : bool -> jsstring -> option A),
    (forall b' s', k1 b' s' = k2 b' s') ->
    rmatch r b s k1 = rmatch r b s k2.
Proof.
  induction r as [ | q | a IHa c IHc | a IHa c IHc | a IHa | | ]; intros b s k1 k2 Hk.
  - apply Hk.
  - cbn [rmatch]. destruct s as [|d s]; [reflexivity|]. now rewrite Hk.
  - cbn [rmatch]. apply IHa. intros b' s'. now apply IHc.
  - cbn [rmatch]. now rewrite (IHa b s k1 k2 Hk), (IHc b s k1 k2 Hk).
  - cbn [rmatch]. generalize (length s) as n. intros n. revert b s.
    induction n as [|n IHn]; intros b s; [apply Hk|].
    rewrite Hk. f_equal. apply IHa. intros b' s'.
    destruct (length s' <? length s); [apply IHn | reflexivity].
  - cbn [rmatch]. now rewrite Hk.
  - cbn [rmatch]. destruct s; [apply Hk | reflexivity].
Qed.

Lemma rmatch_star (a : regex) (b : bool) (s : jsstring)
      (k : bool -> jsstring -> option A) :
  rmatch (Star a) b s k = starLoop a k (length s) b s.
Proof.
  cbn [rmatch]. generalize (length s) as n. intros n. revert b s.
  induction n as [|n IHn]; intros b s; cbn [starLoop]; [reflexivity|].
  f_equal. apply rmatch_ext. intros b' s'.
  destruct (length s' <? length s); [apply IHn | reflexivity].
Qed.

(** A result of the matcher is a result of its continuation on a suffix
    of the subject. *)
Lemma rmatch_result (r : regex) :
  forall b s (k : bool -> jsstring -> option A) x,
    rmatch r b s k = Some x ->
    exists b' p s', s = p ++ s' /\ k b' s' = Some x.
Proof.
  induction r as [ | q | a IHa c IHc | a IHa c IHc | a IHa | | ]; intros b s k x H.
  - exists b, [], s. auto.
  - cbn [rmatch] in H. destruct s as [|d s]; [discriminate|].
    destruct (q d); [|discriminate]. exists false, [d], s. auto.
  - cbn [rmatch] in H. apply IHa in H as (b1 & p1 & s1 & -> & H).
    apply IHc in H as (b2 & p2 & s2 & -> & H).
    exists b2, (p1 ++ p2), s2. now rewrite app_assoc.
  - cbn [rmatch] in H.
    apply orelse_some in H as [H|[_ H]]; [now apply (IHa b s k) | now apply (IHc b s k)].
  - rewrite rmatch_star in H. remember (length s) as n eqn:E. clear E. revert b s H.
    induction n as [|n IHn]; intros b s H; cbn [starLoop] in H.
    + exists b, [], s. auto.
    + apply orelse_some in H as [H|[_ H]].
      * apply IHa in H as (b1 & p1 & s1 & -> & H).
        destruct (length s1 <? length (p1 ++ s1)); [|discriminate].
        apply IHn in H as (b2 & p2 & s2 & -> & H).
        exists b2, (p1 ++ p2), s2. now rewrite app_assoc.
      * exists b, [], s. auto.
  - cbn [rmatch] in H. destruct b; [|discriminate]. exists true, [], s. auto.
  - cbn [rmatch] in H. destruct s; [|discriminate]. exists b, [], []. auto.
Qed.

Lemma rmatch_never (r : regex) (b : bool) (s : jsstring) :
  rmatch r b s (fun _ _ => @None A) = None.
Proof.
  destruct (rmatch r b s (fun _ _ => None)) as [x|] eqn:E; [|reflexivity].
  apply rmatch_result in E as (b' & p & s' & _ & E). discriminate.
Qed.

(** More iterations than the subject has units change nothing. *)
Lemma starLoop_fuel (a : regex) (k : bool -> jsstring -> option A) :
  forall n m b s,
    length s <= n -> length s <= m ->
    starLoop a k n b s = starLoop a k m b s.
Proof.
  assert (Hempty : forall m b, starLoop a k m b [] = k b []).
  { intros [|m] b; cbn [starLoop]; [reflexivity|].
    rewrite (rmatch_ext a b [] _ (fun _ _ => None)).
    - now rewrite rmatch_never.
    - intros b' s'. cbn [length]. now rewrite Nat.ltb_irrefl || destruct (length s'). }
  induction n as [|n IHn]; intros m b s Hn Hm.
  - destruct s; [|simpl in Hn; lia]. now rewrite Hempty.
  - destruct m as [|m].
    + destruct s; [|simpl in Hm; lia]. now rewrite !Hempty.
    + cbn [starLoop]. f_equal. apply rmatch_ext. intros b' s'.
      destruct (length s' <? length s) eqn:E; [|reflexivity].
      apply Nat.ltb_lt in E. apply IHn; lia.
Qed.

(** The repetition, unfolded once. *)
Lemma rmatch_star_unfold (a : regex) (b : bool) (s : jsstring)
      (k : bool -> jsstring -> option A) :
  rmatch (Star a) b s k
  = orelse (rmatch a b s
              (fun b' s' =>
                 if length s' <? length s then rmatch (Star a) b' s' k else None))
           (k b s).
Proof.
  rewrite rmatch_star. destruct s as [|c s].
  - cbn [length starLoop].
    rewrite (rmatch_ext a b [] _ (fun _ _ => None)); [now rewrite rmatch_never|].
    intros b' s'. now destruct (length s').
  - cbn [length starLoop]. f_equal. apply rmatch_ext. intros b' s'.
    destruct (length s' <? S (length s)) eqn:E; [|reflexivity].
    apply Nat.ltb_lt in E. rewrite rmatch_star. apply starLoop_fuel; lia.
Qed.

Lemma rmatch_cls (q : jschar -> bool) (b : bool) (c : jschar) (s : jsstring)
      (k : bool -> jsstring -> option A) :
  rmatch (Cls q) b (c :: s) k = if q c then k false s else None.
Proof. reflexivity. Qed.

Lemma rmatch_seq (a c : regex) (b : bool) (s : jsstring)
      (k : bool -> jsstring -> option A) :
  rmatch (Seq a c) b s k = rmatch a b s (fun b' s' => rmatch c b' s' k).
Proof. reflexivity. Qed.

(** A greedy repetition of a class runs to the first unit outside the
    class, when the rest of the pattern matches there. *)
Lemma rmatch_star_class_greedy (q : jschar -> bool) (xs : jsstring) :
  forall b (rest : jsstring) (k : bool -> jsstring -> option A) v,
    forallb q xs = true ->
    startsClean q rest = true ->
    (forall b', k b' rest = Some v) ->
    rmatch (Star (Cls q)) b (xs ++ rest) k = Some v.
Proof.
  induction xs as [|x xs IH]; intros b rest k v Hall Hrest Hk.
  - rewrite rmatch_star_unfold. cbn [app].
    destruct rest as [|y rest].
    + cbn [rmatch orelse]. apply Hk.
    + rewrite rmatch_cls. simpl in Hrest. apply negb_true_iff in Hrest.
      rewrite Hrest. cbn [orelse]. apply Hk.
  - simpl in Hall. apply andb_true_iff in Hall as [Hx Hall].
    rewrite rmatch_star_unfold. cbn [app]. rewrite rmatch_cls, Hx.
    assert (E : (length (xs ++ rest) <? length (x :: xs ++ rest)) = true)
      by (apply Nat.ltb_lt; simpl; lia).
    rewrite E. now rewrite (IH false rest k v Hall Hrest Hk).
Qed.

End MatcherFacts.

(** ** Patterns that cover one another *)

Lemma covered_refl (r : regex) : covered r r.
Proof.
  unfold covered.
  induction r as [ | q | a IHa c IHc | a IHa c IHc | a IHa | | ];
    intros b s k1 k2 Hk H.
  - now apply Hk.
  - cbn [rmatch] in *. destruct s as [|d s]; [exact H|].
    destruct (q d); [now apply Hk | exact H].
  - cbn [rmatch] in *. apply (IHa b s _ _ (fun b' s' => IHc b' s' k1 k2 Hk) H).
  - cbn [rmatch] in *. apply orelse_matched. apply orelse_matched in H as [H|H].
    + left. now apply (IHa b s k1 k2 Hk).
    + right. now apply (IHc b s k1 k2 Hk).
  - rewrite rmatch_star in *. remember (length s) as n eqn:E. clear E.
    revert b s H. induction n as [|n IHn]; intros b s H; cbn [starLoop] in *.
    + now apply Hk.
    + apply orelse_matched. apply orelse_matched in H as [H|H].
      * left. revert H. apply IHa. intros b' s'.
        destruct (length s' <? length s); [apply IHn | auto].
      * right. now apply Hk.
  - cbn [rmatch] in *. destruct b; [now apply Hk | exact H].
  - cbn [rmatch] in *. destruct s; [now apply Hk | exact H].
Qed.

Lemma covered_seq (a a' c c' : regex) :
  covered a a' -> covered c c' -> covered (Seq a c) (Seq a' c').
Proof.
  intros Ha Hc b s k1 k2 Hk H. cbn [rmatch] in *.
  revert H. apply Ha. intros b' s'. now apply Hc.
Qed.

Lemma covered_alt_left (r a c : regex) : covered r a -> covered r (Alt a c).
Proof.
  intros Ha b s k1 k2 Hk H. cbn [rmatch]. apply orelse_matched. left.
  now apply (Ha b s k1 k2 Hk).
Qed.

Lemma covered_alt_right (r a c : regex) : covered r c -> covered r (Alt a c).
Proof.
  intros Hc b s k1 k2 Hk H. cbn [rmatch]. apply orelse_matched. right.
  now apply (Hc b s k1 k2 Hk).
Qed.

Lemma covered_alt_both (a c r : regex) :
  covered a r -> covered c r -> covered (Alt a c) r.
Proof.
  intros Ha Hc b s k1 k2 Hk H. cbn [rmatch] in H.
  apply orelse_matched in H as [H|H].
  - now apply (Ha b s k1 k2 Hk).
  - now apply (Hc b s k1 k2 Hk).
Qed.

Lemma search_matched (m1 m2 : bool -> jsstring -> option unit) (s : jsstring) :
  (forall b' s', m1 b' s' <> None -> m2 b' s' <> None) ->
  forall b, search m1 b s <> None -> search m2 b s <> None.
Proof.
  intros Hm. induction s as [|c s IH]; intros b H; cbn [search] in *;
    apply orelse_matched; apply orelse_matched in H as [H|H]; auto.
Qed.

Lemma test_matched (r : regex) (s : jsstring) :
  test r s = true
  <-> search (fun b s' => rmatch r b s' (fun _ _ => Some tt)) true s <> None.
Proof.
  unfold test. destruct (search _ true s); split; congruence.
Qed.

Lemma test_covered (r1 r2 : regex) (s : jsstring) :
  covered r1 r2 -> test r1 s = true -> test r2 s = true.
Proof.
  intros Hc H. apply test_matched. apply test_matched in H.
  revert H. apply search_matched. intros b' s'. now apply Hc.
Qed.

(** ** The strict and the relaxed organization-name validator *)

Ltac cover :=
  repeat first
    [ apply covered_refl
    | apply covered_seq
    | apply covered_alt_both
    | (apply covered_alt_left; solve [cover])
    | (apply covered_alt_right; solve [cover]) ].

Lemma relaxed_rejects_only_what_strict_rejects (text : jsstring) :
  matchesAny rejectPatterns text = true ->
  matchesAny employmentTypePatterns text
  || matchesAny datePatterns text
  || matchesAny companyUiElements text = true.
Proof.
  unfold matchesAny, rejectPatterns, employmentTypePatterns, datePatterns,
    companyUiElements. cbn [existsb]. rewrite orb_false_r.
  intros H. repeat (apply orb_true_iff in H as [H|H]).
  - assert (E : test (seqs [Bol; employmentTypes6; Eol]) text = true).
    { revert H. apply test_covered.
      unfold employmentTypes5, employmentTypes6. cbn [seqs alts]. cover. }
    now rewrite E.
  - assert (E : test yearRange text = true).
    { revert H. apply test_covered. unfold yearRange. cbn [seqs alts rep]. cover. }
    rewrite E. now rewrite !orb_true_r.
  - rewrite H. now rewrite !orb_true_r.
  - assert (E : test uiChrome text = true).
    { revert H. apply test_covered. unfold uiChrome. cbn [seqs alts]. cover. }
    rewrite E. now rewrite !orb_true_r.
Qed.

(** X1.  Whatever the strict validator of organization names accepts,
    the relaxed validator of the fallback path accepts as well. *)
Theorem strict_company_names_pass_relaxed (text : jsstring) :
  isValidCompanyName text = true -> isValidCompanyNameRelaxed text = true.
Proof.
  unfold isValidCompanyName, isValidCompanyNameRelaxed.
  destruct (negb (nonempty text) || (length text <? 2)); [discriminate|].
  destruct (150 <? length text); [discriminate|].
  destruct (matchesAny rejectPatterns text) eqn:R; [|reflexivity].
  apply relaxed_rejects_only_what_strict_rejects in R.
  destruct (matchesAny employmentTypePatterns text); [discriminate|].
  destruct (matchesAny datePatterns text); [discriminate|].
  destruct (2 <=? jobTitleScore text); [discriminate|].
  destruct (matchesAny companyUiElements text); [discriminate|].
  discriminate R.
Qed.

Lemma strict_company_names_pass_relaxed_witness :
  isValidCompanyName (lit "Acme Robotics") = true
  /\ isValidCompanyNameRelaxed (lit "Acme Robotics") = true.
Proof.
  split; [reflexivity|].
  apply strict_company_names_pass_relaxed. reflexivity.
Defined.

(** ** Words the validators never let through *)

Lemma rmatch_literal_ci (l : jsstring) :
  forall (w rest : jsstring) (b : bool) (k : bool -> jsstring -> option unit),
    l <> [] ->
    map lower_ascii w = map lower_ascii l ->
    rmatch (seqs (map (fun c => Cls (ci_eqb c)) l)) b (w ++ rest) k = k false rest.
Proof.
  induction l as [|c l IH]; intros w rest b k Hne Hw; [contradiction|].
  destruct w as [|d w]; [discriminate|]. injection Hw as Hd Hw.
  assert (Hcd : ci_eqb c d = true) by (unfold ci_eqb; rewrite Hd; apply N.eqb_refl).
  destruct l as [|c' l].
  - destruct w; [|discriminate]. cbn [map seqs app]. now rewrite rmatch_cls, Hcd.
  - cbn [map seqs]. cbn [map seqs] in IH.
    rewrite rmatch_seq. cbn [app]. rewrite rmatch_cls, Hcd.
    apply IH; [discriminate | exact Hw].
Qed.

Lemma search_after (m : bool -> jsstring -> option unit) (pre s : jsstring) :
  (forall b, m b s <> None) -> forall b, search m b (pre ++ s) <> None.
Proof.
  intros Hm. induction pre as [|c pre IH]; intros b.
  - cbn [app]. destruct s; cbn [search]; apply orelse_matched; left; apply Hm.
  - cbn [app search]. apply orelse_matched. right. apply IH.
Qed.

Lemma test_word_ci (word : string) (pre w post : jsstring) :
  lit word <> [] ->
  map lower_ascii w = map lower_ascii (lit word) ->
  test (ci word) (pre ++ w ++ post) = true.
Proof.
  intros Hne Hw. apply test_matched. apply search_after. intros b.
  unfold ci. rewrite (@rmatch_literal_ci (lit word) w post b _ Hne Hw). discriminate.
Qed.

(** X2.  A text that contains, in any letter case, one of the words
    follow, message and connect is connection-degree text, and neither the
    job-title validator nor the strict organization-name validator accepts
    it (so an employer whose name contains such a word is never taken from
    the strict cascade). *)
Theorem social_words_are_rejected (pre w post : jsstring) :
  map lower_ascii w = lit "follow"
  \/ map lower_ascii w = lit "message"
  \/ map lower_ascii w = lit "connect" ->
  isConnectionDegreeText (pre ++ w ++ post) = true
  /\ isValidJobTitle (pre ++ w ++ post) = false
  /\ isValidCompanyName (pre ++ w ++ post) = false.
Proof.
  intros Hw.
  assert (Hc : isConnectionDegreeText (pre ++ w ++ post) = true).
  { unfold isConnectionDegreeText, connectionPatterns. cbn [existsb].
    destruct Hw as [Hw|[Hw|Hw]].
    - rewrite (@test_word_ci "follow" pre w post); [|discriminate|exact Hw].
      now rewrite !orb_true_r.
    - rewrite (@test_word_ci "message" pre w post); [|discriminate|exact Hw].
      now rewrite !orb_true_r.
    - rewrite (@test_word_ci "connect" pre w post); [|discriminate|exact Hw].
      now rewrite !orb_true_r. }
  split; [exact Hc|]. split.
  - unfold isValidJobTitle. rewrite Hc.
    destruct (negb (nonempty (pre ++ w ++ post)) || (length (pre ++ w ++ post) <? 2));
      [reflexivity|].
    destruct (200 <? length (pre ++ w ++ post)); [reflexivity|].
    now destruct (matchesAny dateOnlyPatterns (pre ++ w ++ post)).
  - unfold isValidCompanyName. rewrite Hc.
    repeat match goal with
           | |- (if ?c then false else _) = false => destruct c; [reflexivity|]
           end.
    reflexivity.
Qed.

Lemma social_words_are_rejected_witness :
  isValidCompanyName (lit "MessageBird") = false
  /\ isValidJobTitle (lit "Head of Connectivity") = false
  /\ isValidCompanyNameRelaxed (lit "MessageBird") = true.
Proof.
  split; [|split].
  - apply (@social_words_are_rejected [] (lit "Message") (lit "Bird")).
    right. left. reflexivity.
  - apply (@social_words_are_rejected (lit "Head of ") (lit "Connect") (lit "ivity")).
    right. right. reflexivity.
  - reflexivity.
Defined.

(** ** Text cleaning *)

Lemma dropWhile_suffix (p : jschar -> bool) (s : jsstring) :
  exists pre, s = pre ++ dropWhile p s.
Proof.
  induction s as [|c s [pre IH]]; [now exists []|]. cbn [dropWhile].
  destruct (p c); [|now exists []].
  exists (c :: pre). cbn [app]. now rewrite <- IH.
Qed.

Lemma dropWhileEnd_prefix (p : jschar -> bool) (s : jsstring) :
  exists post, s = dropWhileEnd p s ++ post.
Proof.
  unfold dropWhileEnd. destruct (dropWhile_suffix p (rev s)) as [pre E].
  exists (rev pre). rewrite <- rev_app_distr, <- E. symmetry. apply rev_involutive.
Qed.

Lemma trim_infix (s : jsstring) : exists pre post, s = pre ++ trim s ++ post.
Proof.
  unfold trim. destruct (dropWhile_suffix is_ws s) as [pre E].
  destruct (dropWhileEnd_prefix is_ws (dropWhile is_ws s)) as [post E'].
  exists pre, post. now rewrite <- E', <- E.
Qed.

Lemma noWhitespaceRun_app (a b : jsstring) :
  noWhitespaceRun (a ++ b) = true ->
  noWhitespaceRun a = true /\ noWhitespaceRun b = true.
Proof.
  induction a as [|x a IH]; intros H; [now split|].
  destruct a as [|y a'].
  - split; [reflexivity|]. destruct b as [|z b']; [reflexivity|].
    change (negb (is_ws x && is_ws z) && noWhitespaceRun (z :: b') = true) in H.
    now apply andb_true_iff in H.
  - change (negb (is_ws x && is_ws y) && noWhitespaceRun ((y :: a') ++ b) = true) in H.
    apply andb_true_iff in H as [Hxy H]. destruct (IH H) as [Ha Hb].
    split; [|exact Hb].
    change (negb (is_ws x && is_ws y) && noWhitespaceRun (y :: a') = true).
    now rewrite Hxy, Ha.
Qed.

Lemma noWhitespaceRun_trim (s : jsstring) :
  noWhitespaceRun s = true -> noWhitespaceRun (trim s) = true.
Proof.
  intros H. destruct (trim_infix s) as (pre & post & E). rewrite E in H.
  apply noWhitespaceRun_app in H as [_ H].
  now apply noWhitespaceRun_app in H as [H _].
Qed.

Lemma forallb_trim (q : jschar -> bool) (s : jsstring) :
  forallb q s = true -> forallb q (trim s) = true.
Proof.
  intros H. apply forallb_forall. intros c Hc.
  apply (proj1 (forallb_forall q s) H). now apply trim_In.
Qed.

Lemma length_dropWhile (p : jschar -> bool) (s : jsstring) :
  length (dropWhile p s) <= length s.
Proof.
  destruct (dropWhile_suffix p s) as [pre E]. rewrite E at 2.
  rewrite length_app. lia.
Qed.

Lemma length_dropWhileEnd (p : jschar -> bool) (s : jsstring) :
  length (dropWhileEnd p s) <= length s.
Proof.
  destruct (dropWhileEnd_prefix p s) as [post E]. rewrite E at 2.
  rewrite length_app. lia.
Qed.

Lemma length_trim (s : jsstring) : length (trim s) <= length s.
Proof.
  unfold trim. etransitivity; [apply length_dropWhileEnd | apply length_dropWhile].
Qed.

Lemma length_collapse_from (s : jsstring) (b : bool) :
  length (collapse_from b s) <= length s.
Proof.
  revert b. induction s as [|c s IH]; intros b; cbn [collapse_from length]; [lia|].
  pose proof (IH true) as Ht. pose proof (IH false) as Hf.
  destruct (is_ws c); [destruct b|]; cbn [length]; lia.
Qed.

Lemma collapse_from_spaceOnly (s : jsstring) (b : bool) :
  forallb spaceOnly (collapse_from b s) = true.
Proof.
  revert b. induction s as [|c s IH]; intros b; cbn [collapse_from]; [reflexivity|].
  destruct (is_ws c) eqn:E.
  - destruct b; [apply IH|]. cbn [forallb]. now rewrite IH.
  - cbn [forallb]. unfold spaceOnly at 1. rewrite E. cbn [negb orb]. apply IH.
Qed.

Lemma newlines_to_spaces_id (s : jsstring) :
  forallb spaceOnly s = true -> newlines_to_spaces s = s.
Proof.
  unfold newlines_to_spaces.
  induction s as [|c s IH]; intros H; [reflexivity|].
  cbn [forallb] in H. apply andb_true_iff in H as [Hc Hs].
  cbn [map]. rewrite (IH Hs). f_equal.
  destruct (N.eqb_spec c 10) as [->|]; [discriminate Hc | reflexivity].
Qed.

Lemma collapse_from_id (s : jsstring) (b : bool) :
  noWhitespaceRun s = true -> forallb spaceOnly s = true ->
  (b = true -> startsClean is_ws s = true) ->
  collapse_from b s = s.
Proof.
  revert b. induction s as [|c s IH]; intros b Hrun Hsp Hb; [reflexivity|].
  cbn [forallb] in Hsp. apply andb_true_iff in Hsp as [Hc Hsp].
  assert (Hs : noWhitespaceRun s = true).
  { now apply (@noWhitespaceRun_app [c] s). }
  cbn [collapse_from]. destruct (is_ws c) eqn:E.
  - destruct b.
    + specialize (Hb eq_refl). cbn [startsClean] in Hb. now rewrite E in Hb.
    + unfold spaceOnly in Hc. rewrite E in Hc. cbn [negb orb] in Hc.
      apply N.eqb_eq in Hc. subst c. f_equal. apply IH; [exact Hs|exact Hsp|].
      intros _. destruct s as [|d s']; [reflexivity|].
      change (negb (is_ws space && is_ws d) && noWhitespaceRun (d :: s') = true) in Hrun.
      apply andb_true_iff in Hrun as [Hrun _]. rewrite E in Hrun.
      cbn [startsClean]. exact Hrun.
  - f_equal. apply IH; [exact Hs|exact Hsp|discriminate].
Qed.

Lemma firstn_startsClean (p : jschar -> bool) (n : nat) (s : jsstring) :
  startsClean p s = true -> startsClean p (firstn n s) = true.
Proof. destruct n, s; auto. Qed.

Lemma dropWhileEnd_firstn_shape (s : jsstring) :
  noWhitespaceRun s = true -> forallb spaceOnly s = true ->
  startsClean is_ws s = true ->
  trim (newlines_to_spaces (collapse_ws s)) = dropWhileEnd is_ws s.
Proof.
  intros Hrun Hsp Hst. unfold collapse_ws.
  rewrite (@collapse_from_id s false Hrun Hsp) by discriminate.
  rewrite (newlines_to_spaces_id _ Hsp).
  unfold trim. now rewrite dropWhile_id.
Qed.

Lemma cleanText_shape (text : jsstring) :
  noWhitespaceRun (cleanText text) = true
  /\ forallb spaceOnly (cleanText text) = true
  /\ startsClean is_ws (cleanText text) = true.
Proof.
  unfold cleanText. destruct (negb (nonempty text)); [now repeat split|].
  unfold substring0, collapse_ws.
  rewrite (newlines_to_spaces_id _ (collapse_from_spaceOnly text false)).
  split; [|split].
  - apply noWhitespaceRun_firstn, noWhitespaceRun_trim, collapse_from_noRun.
  - apply forallb_firstn, forallb_trim, collapse_from_spaceOnly.
  - apply firstn_startsClean, trim_startsClean.
Qed.

Lemma cleanText_length (text : jsstring) : length (cleanText text) <= 1000.
Proof.
  unfold cleanText. destruct (negb (nonempty text)); [cbn; lia|].
  unfold substring0. apply firstn_le_length.
Qed.

Lemma cleanText_again (text : jsstring) :
  cleanText (cleanText text) = dropWhileEnd is_ws (cleanText text).
Proof.
  destruct (cleanText_shape text) as (Hrun & Hsp & Hst).
  unfold cleanText at 1. destruct (cleanText text) as [|c r] eqn:E; [reflexivity|].
  cbn [nonempty negb].
  rewrite (dropWhileEnd_firstn_shape _ Hrun Hsp Hst).
  unfold substring0. apply firstn_all2.
  etransitivity; [apply length_dropWhileEnd|].
  rewrite <- E. apply cleanText_length.
Qed.

(** X3.  The cleaned text of an element has at most 1000 units, no two
    adjacent white-space units, no white space other than the plain space
    (so no line break or tab) and no white space in front; and cleaning it
    again does nothing but drop the white space at its end, which only the
    cut at 1000 units can have left there. *)
Theorem cleanText_normal_form (text : jsstring) :
  length (cleanText text) <= 1000
  /\ noWhitespaceRun (cleanText text) = true
  /\ forallb spaceOnly (cleanText text) = true
  /\ startsClean is_ws (cleanText text) = true
  /\ cleanText (cleanText text) = dropWhileEnd is_ws (cleanText text).
Proof.
  destruct (cleanText_shape text) as (Hrun & Hsp & Hst).
  repeat split; try assumption; [apply cleanText_length | apply cleanText_again].
Qed.

(** X4.  On a text of at most 1000 units cleaning is idempotent, and the
    cleaned text has no white space at either end. *)
Theorem cleanText_idempotent (text : jsstring) :
  length text <= 1000 ->
  cleanText (cleanText text) = cleanText text
  /\ noEdgeWhitespace (cleanText text) = true.
Proof.
  intros Hlen.
  assert (Hedge : noEdgeWhitespace (cleanText text) = true).
  { unfold cleanText. destruct (negb (nonempty text)); [reflexivity|].
    unfold substring0. rewrite firstn_all2.
    - unfold noEdgeWhitespace. now rewrite trim_startsClean, trim_endsClean.
    - etransitivity; [apply length_trim|].
      unfold newlines_to_spaces. rewrite length_map.
      etransitivity; [apply length_collapse_from | exact Hlen]. }
  split; [|exact Hedge].
  rewrite cleanText_again. apply dropWhileEnd_id.
  unfold noEdgeWhitespace in Hedge. now apply andb_true_iff in Hedge.
Qed.

Lemma cleanText_idempotent_witness :
  cleanText (lit "  Senior   Engineer ") = lit "Senior Engineer"
  /\ cleanText (cleanText (lit "  Senior   Engineer "))
     = cleanText (lit "  Senior   Engineer ")
  /\ noEdgeWhitespace (cleanText (lit "  Senior   Engineer ")) = true.
Proof.
  split; [reflexivity|].
  apply cleanText_idempotent. apply Nat.leb_le. reflexivity.
Defined.

(** ** Waiting for the page *)

Lemma pollFrom_spec (pages : nat -> string -> option jsstring) (remaining : nat) :
  forall attempts n found,
    pollFrom pages remaining attempts = (n, found) ->
    attempts <= n <= attempts + remaining
    /\ (forall i, attempts <= i < n -> profileReady (pages i) = false)
    /\ (found = true -> n < attempts + remaining /\ profileReady (pages n) = true)
    /\ (found = false -> n = attempts + remaining).
Proof.
  induction remaining as [|r IH]; intros a n found H; cbn [pollFrom] in H.
  - injection H as <- <-. repeat split; try lia; discriminate.
  - destruct (profileReady (pages a)) eqn:E.
    + injection H as <- <-. repeat split; try lia; try discriminate. exact E.
    + destruct (IH _ _ _ H) as (Hn & Hbefore & Hfound & Hnone).
      split; [lia|]. split; [|split].
      * intros i Hi. destruct (Nat.eq_dec i a) as [->|Hne]; [exact E|].
        apply Hbefore. lia.
      * intros Hf. destruct (Hfound Hf). split; [lia|assumption].
      * intros Hf. rewrite (Hnone Hf). lia.
Qed.

(** X5.  Waiting for the profile sleeps at most 20 times (ten seconds at
    500 ms a sleep).  It sleeps exactly as long as the page has no name
    element with non-blank text: it returns at the first poll that finds
    one, and after 20 polls without one it gives up and lets the extraction
    proceed. *)
Theorem waitForProfileContent_bounded (pages : nat -> string -> option jsstring) :
  let waits := fst (waitForProfileContent pages) in
  let found := snd (waitForProfileContent pages) in
  waits * pollInterval <= 20 * 500
  /\ (forall i, i < waits -> profileReady (pages i) = false)
  /\ (found = true -> waits < maxAttempts /\ profileReady (pages waits) = true)
  /\ (found = false -> waits = maxAttempts).
Proof.
  unfold waitForProfileContent.
  destruct (pollFrom pages maxAttempts 0) as [n f] eqn:E. cbn [fst snd].
  destruct (pollFrom_spec _ _ _ E) as (Hn & Hbefore & Hfound & Hnone).
  cbn [Nat.add] in Hn, Hfound, Hnone.
  split; [|split; [|split]].
  - unfold pollInterval, maxAttempts in *. lia.
  - intros i Hi. apply Hbefore. lia.
  - exact Hfound.
  - exact Hnone.
Qed.

(** ** The fallback for the organization name *)

(** X6.  The fallback over the text nodes of the experience item returns
    the cleaned text of the first node that is not bold, has at least two
    units once cleaned and passes the relaxed validator; every node before
    it fails one of the three tests.  It returns the empty string exactly
    when every node fails one of them, so the text of a bold node is never
    returned for its own sake. *)
Theorem fallback_takes_first_plain_valid_node (allTextElements : list textNode) :
  let skipped (n : textNode) :=
    snd n = true \/ length (cleanText (fst n)) < 2
    \/ isValidCompanyNameRelaxed (cleanText (fst n)) = false in
  (extractCompanyFallback allTextElements = []
   /\ forall n, In n allTextElements -> skipped n)
  \/ (exists pre raw post,
        allTextElements = pre ++ (raw, false) :: post
        /\ extractCompanyFallback allTextElements = cleanText raw
        /\ 2 <= length (cleanText raw)
        /\ isValidCompanyNameRelaxed (cleanText raw) = true
        /\ forall n, In n pre -> skipped n).
Proof.
  cbn zeta.
  induction allTextElements as [|[raw bold] rest IH].
  - left. split; [reflexivity|]. intros n [].
  - cbn [extractCompanyFallback].
    assert (Hskip :
      snd (raw, bold) = true \/ length (cleanText (fst (raw, bold))) < 2
      \/ isValidCompanyNameRelaxed (cleanText (fst (raw, bold))) = false ->
      (extractCompanyFallback rest = []
       /\ forall n, In n ((raw, bold) :: rest) ->
            snd n = true \/ length (cleanText (fst n)) < 2
            \/ isValidCompanyNameRelaxed (cleanText (fst n)) = false)
      \/ (exists pre raw0 post,
            (raw, bold) :: rest = pre ++ (raw0, false) :: post
            /\ extractCompanyFallback rest = cleanText raw0
            /\ 2 <= length (cleanText raw0)
            /\ isValidCompanyNameRelaxed (cleanText raw0) = true
            /\ forall n, In n pre ->
                 snd n = true \/ length (cleanText (fst n)) < 2
                 \/ isValidCompanyNameRelaxed (cleanText (fst n)) = false)).
    { intros Hs. destruct IH as [[E Hall]|(pre & raw0 & post & E & Er & Hlen & Hv & Hpre)].
      - left. split; [exact E|]. intros n [<-|Hn]; [exact Hs | now apply Hall].
      - right. exists ((raw, bold) :: pre), raw0, post.
        split; [now rewrite E|]. split; [exact Er|]. split; [exact Hlen|].
        split; [exact Hv|]. intros n [<-|Hn]; [exact Hs | now apply Hpre]. }
    destruct (negb (nonempty (cleanText raw)) || (length (cleanText raw) <? 2) || bold)
      eqn:Etest.
    + apply Hskip. cbn [fst snd].
      apply orb_true_iff in Etest as [Etest|Eb]; [|now left].
      right. left. apply orb_true_iff in Etest as [Ee|El].
      * destruct (cleanText raw); [cbn; lia | discriminate Ee].
      * now apply Nat.ltb_lt in El.
    + apply orb_false_iff in Etest as [Etest ->].
      apply orb_false_iff in Etest as [_ El]. apply Nat.ltb_ge in El.
      destruct (isValidCompanyNameRelaxed (cleanText raw)) eqn:Ev.
      * right. exists [], raw, rest. repeat split; try assumption. intros n [].
      * apply Hskip. now right; right.
Qed.

(** ** Removing the first match of a pattern *)

Lemma replaceFrom_split (r : regex) (s : jsstring) :
  forall b x, replaceFrom r b s = Some x ->
              exists pre mid rest, s = pre ++ mid ++ rest /\ x = pre ++ rest.
Proof.
  induction s as [|c s IH]; intros b x H; cbn [replaceFrom] in H.
  - destruct (rmatch r b [] (fun _ rest => Some rest)) as [rest|] eqn:E; [|discriminate].
    injection H as <-.
    apply rmatch_result in E as (b' & p & s' & Es & E). injection E as ->.
    exists [], p, rest. auto.
  - destruct (rmatch r b (c :: s) (fun _ rest => Some rest)) as [rest|] eqn:E.
    + injection H as <-.
      apply rmatch_result in E as (b' & p & s' & Es & E). injection E as ->.
      exists [], p, rest. auto.
    + destruct (replaceFrom r false s) as [y|] eqn:Ey; [|discriminate].
      injection H as <-.
      destruct (IH _ _ Ey) as (pre & mid & rest & -> & ->).
      exists (c :: pre), mid, rest. auto.
Qed.

Lemma replaceFirst_split (r : regex) (s : jsstring) :
  exists pre mid rest, s = pre ++ mid ++ rest /\ replaceFirst r s = pre ++ rest.
Proof.
  unfold replaceFirst. destruct (replaceFrom r true s) as [x|] eqn:E.
  - now apply replaceFrom_split in E.
  - exists s, [], []. now rewrite !app_nil_r.
Qed.

Lemma replaceFirst_In (r : regex) (s : jsstring) (c : jschar) :
  In c (replaceFirst r s) -> In c s.
Proof.
  destruct (replaceFirst_split r s) as (pre & mid & rest & Es & ->).
  rewrite Es, !in_app_iff. tauto.
Qed.

Lemma replaceFirst_length (r : regex) (s : jsstring) :
  length (replaceFirst r s) <= length s.
Proof.
  destruct (replaceFirst_split r s) as (pre & mid & rest & Es & ->).
  rewrite Es, !length_app. lia.
Qed.

Lemma applyRules_In (rules : list regex) (c : jschar) :
  forall s, In c (applyRules rules s) -> In c s.
Proof.
  unfold applyRules. induction rules as [|r rules IH]; intros s H; [exact H|].
  cbn [fold_left] in H. apply IH in H. now apply replaceFirst_In in H.
Qed.

Lemma applyRules_length (rules : list regex) :
  forall s, length (applyRules rules s) <= length s.
Proof.
  unfold applyRules. induction rules as [|r rules IH]; intros s; [reflexivity|].
  cbn [fold_left]. etransitivity; [apply IH | apply replaceFirst_length].
Qed.

Lemma applyRules_forallb (q : jschar -> bool) (rules : list regex) (s : jsstring) :
  forallb q s = true -> forallb q (applyRules rules s) = true.
Proof.
  intros H. apply forallb_forall. intros c Hc.
  apply (proj1 (forallb_forall q s) H). now apply applyRules_In in Hc.
Qed.

Lemma applyRules_app (pre post : list regex) (s : jsstring) :
  applyRules (pre ++ post) s = applyRules post (applyRules pre s).
Proof. unfold applyRules. apply fold_left_app. Qed.

Lemma toTheEnd_eol : toTheEnd Eol.
Proof.
  intros b s k x H. cbn [rmatch] in H. destruct s; [|discriminate]. now exists b.
Qed.

Lemma toTheEnd_seq (a c : regex) : toTheEnd c -> toTheEnd (Seq a c).
Proof.
  intros Hc b s k x H. rewrite rmatch_seq in H.
  apply rmatch_result in H as (b' & p & s' & _ & H). now apply Hc in H.
Qed.

Lemma toTheEnd_cutAt (c : jschar) : toTheEnd (cutAt c).
Proof. unfold cutAt. cbn [seqs]. repeat apply toTheEnd_seq. apply toTheEnd_eol. Qed.

Lemma rmatch_star_skip (A : Type) (a : regex) (b : bool) (s : jsstring)
      (k : bool -> jsstring -> option A) :
  k b s <> None -> rmatch (Star a) b s k <> None.
Proof. intros H. rewrite rmatch_star_unfold. apply orelse_matched. now right. Qed.

(** At a separator followed by no line terminator the cut matches. *)
Lemma cutAt_matches (c : jschar) (b : bool) (rest : jsstring) :
  forallb is_dot rest = true ->
  rmatch (cutAt c) b (c :: rest) (fun _ r => Some r) <> None.
Proof.
  intros Hrest. unfold cutAt. cbn [seqs]. rewrite rmatch_seq.
  apply rmatch_star_skip. rewrite rmatch_seq. unfold ch at 1.
  rewrite rmatch_cls, N.eqb_refl. rewrite rmatch_seq.
  rewrite <- (app_nil_r rest) at 1.
  rewrite (@rmatch_star_class_greedy _ is_dot rest false [] _ (@nil jschar));
    [discriminate | exact Hrest | reflexivity | reflexivity].
Qed.

Lemma replaceFrom_cutAt (c : jschar) (s : jsstring) :
  forallb is_dot s = true ->
  forall b,
    match replaceFrom (cutAt c) b s with
    | Some x => ~ In c x
    | None => ~ In c s
    end.
Proof.
  induction s as [|d s IH]; intros Hs b; cbn [replaceFrom].
  - destruct (rmatch (cutAt c) b [] (fun _ rest => Some rest)) as [rest|] eqn:E.
    + apply toTheEnd_cutAt in E as [b' E]. injection E as <-. intros [].
    + intros [].
  - cbn [forallb] in Hs. apply andb_true_iff in Hs as [Hd Hs].
    destruct (rmatch (cutAt c) b (d :: s) (fun _ rest => Some rest)) as [rest|] eqn:E.
    + apply toTheEnd_cutAt in E as [b' E]. injection E as <-. intros [].
    + assert (Hdc : d <> c).
      { intros ->. now apply (@cutAt_matches c b s Hs). }
      specialize (IH Hs false). destruct (replaceFrom (cutAt c) false s) as [y|].
      * intros [H|H]; [now apply Hdc | now apply IH].
      * intros [H|H]; [now apply Hdc | now apply IH].
Qed.

Lemma replaceFirst_cutAt (c : jschar) (s : jsstring) :
  forallb is_dot s = true -> ~ In c (replaceFirst (cutAt c) s).
Proof.
  intros Hs. unfold replaceFirst. pose proof (@replaceFrom_cutAt c s Hs true) as H.
  now destruct (replaceFrom (cutAt c) true s).
Qed.

Lemma applyRules_cutAt (pre post : list regex) (c : jschar) (s : jsstring) :
  forallb is_dot s = true -> ~ In c (applyRules (pre ++ cutAt c :: post) s).
Proof.
  intros Hs H. rewrite applyRules_app in H.
  change (cutAt c :: post) with ([cutAt c] ++ post) in H.
  rewrite applyRules_app in H. apply applyRules_In in H.
  revert H. apply replaceFirst_cutAt. now apply applyRules_forallb.
Qed.

Lemma collapse_from_In (s : jsstring) (c : jschar) :
  forall b, In c (collapse_from b s) -> In c s \/ c = space.
Proof.
  induction s as [|d s IH]; intros b H; [now left|].
  cbn [collapse_from] in H. destruct (is_ws d).
  - destruct b.
    + destruct (IH _ H); [left; now right | now right].
    + destruct H as [<-|H]; [now right|].
      destruct (IH _ H); [left; now right | now right].
  - destruct H as [<-|H]; [left; now left|].
    destruct (IH _ H); [left; now right | now right].
Qed.

Lemma spaceOnly_is_dot (c : jschar) : spaceOnly c = true -> is_dot c = true.
Proof.
  unfold spaceOnly, is_dot. intros H.
  destruct (N.eqb_spec c 10) as [->|]; [discriminate H|].
  destruct (N.eqb_spec c 13) as [->|]; [discriminate H|].
  destruct (N.eqb_spec c 8232) as [->|]; [discriminate H|].
  destruct (N.eqb_spec c 8233) as [->|]; [discriminate H|].
  reflexivity.
Qed.

Lemma spaceOnly_no_terminator (s : jsstring) :
  forallb spaceOnly s = true -> forallb is_dot s = true.
Proof.
  intros H. apply forallb_forall. intros c Hc.
  apply spaceOnly_is_dot. now apply (proj1 (forallb_forall spaceOnly s) H).
Qed.

Lemma stripEdges_In (s : jsstring) (c : jschar) : In c (stripEdges s) -> In c s.
Proof.
  unfold stripEdges, dropWhileEnd. intros H.
  apply in_rev, dropWhile_In, in_rev in H. now apply dropWhile_In in H.
Qed.

Lemma length_stripEdges (s : jsstring) : length (stripEdges s) <= length s.
Proof.
  unfold stripEdges. etransitivity; [apply length_dropWhileEnd | apply length_dropWhile].
Qed.

Lemma stripEdges_clean (s : jsstring) :
  startsClean is_ws_or_hyphen (stripEdges s) = true
  /\ endsClean is_ws_or_hyphen (stripEdges s) = true.
Proof.
  unfold stripEdges. split.
  - apply dropWhileEnd_startsClean, dropWhile_startsClean.
  - apply dropWhileEnd_endsClean.
Qed.

Lemma startsClean_weaken (p q : jschar -> bool) (s : jsstring) :
  (forall c, q c = true -> p c = true) ->
  startsClean p s = true -> startsClean q s = true.
Proof.
  intros Hpq. destruct s as [|c s]; [reflexivity|]. cbn [startsClean].
  intros H. apply negb_true_iff in H. apply negb_true_iff.
  destruct (q c) eqn:E; [|reflexivity]. apply Hpq in E. congruence.
Qed.

Lemma noWhitespaceRun_stripEdges (s : jsstring) :
  noWhitespaceRun s = true -> noWhitespaceRun (stripEdges s) = true.
Proof.
  intros H. unfold stripEdges.
  destruct (dropWhile_suffix is_ws_or_hyphen s) as [pre E].
  destruct (dropWhileEnd_prefix is_ws_or_hyphen (dropWhile is_ws_or_hyphen s))
    as [post E'].
  rewrite E, E' in H. apply noWhitespaceRun_app in H as [_ H].
  now apply noWhitespaceRun_app in H as [H _].
Qed.

Lemma trim_stripEdges (s : jsstring) : trim (stripEdges s) = stripEdges s.
Proof.
  destruct (stripEdges_clean s) as [H1 H2].
  assert (Hw : forall c, is_ws c = true -> is_ws_or_hyphen c = true).
  { intros c Hc. unfold is_ws_or_hyphen. now rewrite Hc. }
  apply trim_id.
  - exact (@startsClean_weaken is_ws_or_hyphen is_ws _ Hw H1).
  - exact (@startsClean_weaken is_ws_or_hyphen is_ws _ Hw H2).
Qed.

Lemma cleanJobTitle_shape (jobTitle : jsstring) :
  noWhitespaceRun (cleanJobTitle jobTitle) = true
  /\ noEdgeWhitespace (cleanJobTitle jobTitle) = true
  /\ forallb spaceOnly (cleanJobTitle jobTitle) = true
  /\ length (cleanJobTitle jobTitle) <= length jobTitle
  /\ incl (cleanJobTitle jobTitle) (space :: jobTitle).
Proof.
  unfold cleanJobTitle.
  destruct jobTitle as [|c0 t0]; [cbn; repeat split; auto; intros c []|].
  cbn [nonempty negb]. set (t := c0 :: t0). unfold collapse_ws.
  split; [apply noWhitespaceRun_trim, collapse_from_noRun|].
  split; [unfold noEdgeWhitespace; now rewrite trim_startsClean, trim_endsClean|].
  split; [apply forallb_trim, collapse_from_spaceOnly|].
  split; [etransitivity; [apply length_trim|];
          etransitivity; [apply length_collapse_from | apply applyRules_length]|].
  intros c Hc. apply trim_In, collapse_from_In in Hc as [Hc| ->]; [|now left].
  right. now apply applyRules_In in Hc.
Qed.

Lemma cleanJobTitle_cut (pre post : list regex) (c : jschar) (jobTitle : jsstring) :
  jobTitleRules = pre ++ cutAt c :: post -> c <> space ->
  forallb is_dot jobTitle = true -> ~ In c (cleanJobTitle jobTitle).
Proof.
  intros E Hc Hdot. unfold cleanJobTitle.
  destruct (negb (nonempty jobTitle)); [intros []|].
  intros H. apply trim_In, collapse_from_In in H as [H|H]; [|contradiction].
  rewrite E in H. revert H. now apply applyRules_cutAt.
Qed.

Lemma cleanJobTitle_no_separator (jobTitle : jsstring) :
  forallb is_dot jobTitle = true ->
  ~ In bullet (cleanJobTitle jobTitle)
  /\ ~ In pipe (cleanJobTitle jobTitle)
  /\ ~ In middot (cleanJobTitle jobTitle).
Proof.
  intros Hdot. split; [|split].
  - apply (@cleanJobTitle_cut (firstn 4 jobTitleRules) (skipn 5 jobTitleRules));
      [reflexivity | discriminate | exact Hdot].
  - apply (@cleanJobTitle_cut (firstn 5 jobTitleRules) (skipn 6 jobTitleRules));
      [reflexivity | discriminate | exact Hdot].
  - apply (@cleanJobTitle_cut (firstn 6 jobTitleRules) (skipn 7 jobTitleRules));
      [reflexivity | discriminate | exact Hdot].
Qed.

Lemma cleanCompanyName_eq (company : jsstring) :
  cleanCompanyName company
  = if negb (nonempty company) then []
    else stripEdges (collapse_ws (applyRules companyRules company)).
Proof. unfold cleanCompanyName. now rewrite trim_stripEdges. Qed.

Lemma cleanCompanyName_shape (company : jsstring) :
  noWhitespaceRun (cleanCompanyName company) = true
  /\ startsClean is_ws_or_hyphen (cleanCompanyName company) = true
  /\ endsClean is_ws_or_hyphen (cleanCompanyName company) = true
  /\ forallb spaceOnly (cleanCompanyName company) = true
  /\ length (cleanCompanyName company) <= length company
  /\ incl (cleanCompanyName company) (space :: company).
Proof.
  rewrite cleanCompanyName_eq.
  destruct company as [|c0 t0]; [cbn; repeat split; auto; intros c []|].
  cbn [nonempty negb]. set (t := c0 :: t0). unfold collapse_ws.
  destruct (stripEdges_clean (collapse_from false (applyRules companyRules t)))
    as [H1 H2].
  split; [apply noWhitespaceRun_stripEdges, collapse_from_noRun|].
  split; [exact H1|]. split; [exact H2|].
  split.
  { apply forallb_forall. intros c Hc. apply stripEdges_In in Hc.
    exact (proj1 (forallb_forall spaceOnly _)
                 (collapse_from_spaceOnly (applyRules companyRules t) false) c Hc). }
  split; [etransitivity; [apply length_stripEdges|];
          etransitivity; [apply length_collapse_from | apply applyRules_length]|].
  intros c Hc. apply stripEdges_In, collapse_from_In in Hc as [Hc| ->]; [|now left].
  right. now apply applyRules_In in Hc.
Qed.

Lemma cleanCompanyName_cut (pre post : list regex) (c : jschar) (company : jsstring) :
  companyRules = pre ++ cutAt c :: post -> c <> space ->
  forallb is_dot company = true -> ~ In c (cleanCompanyName company).
Proof.
  intros E Hc Hdot. rewrite cleanCompanyName_eq.
  destruct (negb (nonempty company)); [intros []|].
  intros H. apply stripEdges_In, collapse_from_In in H as [H|H]; [|contradiction].
  rewrite E in H. revert H. now apply applyRules_cutAt.
Qed.

Lemma cleanCompanyName_no_separator (company : jsstring) :
  forallb is_dot company = true ->
  ~ In bullet (cleanCompanyName company)
  /\ ~ In pipe (cleanCompanyName company)
  /\ ~ In middot (cleanCompanyName company).
Proof.
  intros Hdot. split; [|split].
  - apply (@cleanCompanyName_cut (firstn 8 companyRules) (skipn 9 companyRules));
      [reflexivity | discriminate | exact Hdot].
  - apply (@cleanCompanyName_cut (firstn 9 companyRules) (skipn 10 companyRules));
      [reflexivity | discriminate | exact Hdot].
  - apply (@cleanCompanyName_cut (firstn 10 companyRules) (skipn 11 companyRules));
      [reflexivity | discriminate | exact Hdot].
Qed.

(** X7.  A cleaned job title has no two adjacent white-space units, no
    white space at either end and no white space other than the plain
    space; it is no longer than the text it was made from, and apart from
    the plain space every unit of it is a unit of that text: cleaning only
    deletes, and turns white space into spaces. *)
Theorem cleanJobTitle_normal_form (jobTitle : jsstring) :
  noWhitespaceRun (cleanJobTitle jobTitle) = true
  /\ noEdgeWhitespace (cleanJobTitle jobTitle) = true
  /\ forallb spaceOnly (cleanJobTitle jobTitle) = true
  /\ length (cleanJobTitle jobTitle) <= length jobTitle
  /\ incl (cleanJobTitle jobTitle) (space :: jobTitle).
Proof. apply cleanJobTitle_shape. Qed.

(** X8.  A cleaned organization name has no two adjacent white-space
    units, neither white space nor a hyphen at either end, and no white
    space other than the plain space; it is no longer than the text it was
    made from, and apart from the plain space every unit of it is a unit of
    that text.  The final trim of the source never has anything left to
    do. *)
Theorem cleanCompanyName_normal_form (company : jsstring) :
  noWhitespaceRun (cleanCompanyName company) = true
  /\ startsClean is_ws_or_hyphen (cleanCompanyName company) = true
  /\ endsClean is_ws_or_hyphen (cleanCompanyName company) = true
  /\ forallb spaceOnly (cleanCompanyName company) = true
  /\ length (cleanCompanyName company) <= length company
  /\ incl (cleanCompanyName company) (space :: company)
  /\ trim (stripEdges (collapse_ws (applyRules companyRules company)))
     = stripEdges (collapse_ws (applyRules companyRules company)).
Proof.
  destruct (cleanCompanyName_shape company) as (H1 & H2 & H3 & H4 & H5 & H6).
  repeat split; try assumption. apply trim_stripEdges.
Qed.

(** X9.  When a text has no line terminator, neither its cleaned job
    title nor its cleaned organization name contains a bullet, a vertical
    bar or a middle dot: the first of each and all that follows it is cut,
    and no later step brings one back. *)
Theorem cleaning_cuts_at_separators (text : jsstring) :
  forallb is_dot text = true ->
  (~ In bullet (cleanJobTitle text)
   /\ ~ In pipe (cleanJobTitle text)
   /\ ~ In middot (cleanJobTitle text))
  /\ (~ In bullet (cleanCompanyName text)
      /\ ~ In pipe (cleanCompanyName text)
      /\ ~ In middot (cleanCompanyName text)).
Proof.
  intros Hdot. split.
  - now apply cleanJobTitle_no_separator.
  - now apply cleanCompanyName_no_separator.
Qed.

Lemma cleaning_cuts_at_separators_witness :
  cleanJobTitle (lit "Staff Engineer | Platform") = lit "Staff Engineer"
  /\ ~ In pipe (cleanJobTitle (lit "Staff Engineer | Platform"))
  /\ ~ In pipe (cleanCompanyName (lit "Staff Engineer | Platform")).
Proof.
  split; [reflexivity|].
  assert (H : forallb is_dot (lit "Staff Engineer | Platform") = true) by reflexivity.
  destruct (cleaning_cuts_at_separators _ H) as [(_ & Hj & _) (_ & Hc & _)].
  split; [exact Hj | exact Hc].
Defined.

Lemma cascade_result (selector : Type) (querySelector : selector -> option jsstring)
      (validate : jsstring -> bool) (selectors : list selector) :
  fst (cascade querySelector validate selectors) = []
  \/ exists raw, fst (cascade querySelector validate selectors) = cleanText raw
                 /\ validate (cleanText raw) = true.
Proof.
  induction selectors as [|sel rest IH]; [now left|].
  cbn [cascade]. destruct (querySelector sel) as [raw|]; [|exact IH].
  cbn zeta. destruct (validate (cleanText raw)) eqn:E; [|exact IH].
  right. now exists raw.
Qed.

Lemma cleanText_no_terminator (raw : jsstring) :
  forallb is_dot (cleanText raw) = true.
Proof. apply spaceOnly_no_terminator. apply cleanText_shape. Qed.

Lemma extractJobTitle_facts (selector : Type)
        (page : selector -> option jsstring) (selectors : list selector) :
  let jobTitle := extractJobTitle page selectors in
  length jobTitle <= 200
  /\ noWhitespaceRun jobTitle = true
  /\ noEdgeWhitespace jobTitle = true
  /\ forallb spaceOnly jobTitle = true
  /\ forallb (fun c => negb (N.eqb c bullet || N.eqb c pipe || N.eqb c middot))
             jobTitle = true.
Proof.
  cbn zeta. unfold extractJobTitle, jobTitleLoop.
  set (found := fst (cascade page isValidJobTitle selectors)).
  assert (Hfound : length found <= 200 /\ forallb is_dot found = true).
  { subst found.
    destruct (cascade_result page isValidJobTitle selectors) as [->|(raw & -> & Hv)].
    - split; [cbn; lia | reflexivity].
    - split; [|apply cleanText_no_terminator].
      unfold isValidJobTitle in Hv.
      destruct (negb (nonempty (cleanText raw)) || (length (cleanText raw) <? 2));
        [discriminate|].
      destruct (200 <? length (cleanText raw)) eqn:E; [discriminate|].
      now apply Nat.ltb_ge in E. }
  destruct Hfound as [Hlen Hdot].
  destruct (cleanJobTitle_shape found) as (H1 & H2 & H3 & H4 & _).
  destruct (cleanJobTitle_no_separator _ Hdot) as (Hb & Hp & Hm).
  split; [lia|]. split; [exact H1|]. split; [exact H2|]. split; [exact H3|].
  apply forallb_forall. intros c Hc. apply negb_true_iff.
  destruct (N.eqb_spec c bullet) as [->|]; [contradiction|].
  destruct (N.eqb_spec c pipe) as [->|]; [contradiction|].
  destruct (N.eqb_spec c middot) as [->|]; [contradiction|].
  reflexivity.
Qed.

(** X10.  Whatever the page holds, the job title handed to the side panel
    has at most 200 units, no two adjacent white-space units, no white
    space at either end, no white space other than the plain space, and no
    bullet, vertical bar or middle dot. *)
Theorem extractJobTitle_result (selector : Type)
        (page : selector -> option jsstring) (selectors : list selector) :
  let jobTitle := extractJobTitle page selectors in
  length jobTitle <= 200
  /\ noWhitespaceRun jobTitle = true
  /\ noEdgeWhitespace jobTitle = true
  /\ forallb spaceOnly jobTitle = true
  /\ forallb (fun c => negb (N.eqb c bullet || N.eqb c pipe || N.eqb c middot))
             jobTitle = true.
Proof. apply extractJobTitle_facts. Qed.

Lemma fallback_result (allTextElements : list textNode) :
  extractCompanyFallback allTextElements = []
  \/ exists raw, extractCompanyFallback allTextElements = cleanText raw
                 /\ isValidCompanyNameRelaxed (cleanText raw) = true.
Proof.
  induction allTextElements as [|[raw bold] rest IH]; [now left|].
  cbn [extractCompanyFallback]. cbn zeta.
  destruct (negb (nonempty (cleanText raw)) || (length (cleanText raw) <? 2) || bold);
    [exact IH|].
  destruct (isValidCompanyNameRelaxed (cleanText raw)) eqn:E; [|exact IH].
  right. now exists raw.
Qed.

Lemma extractCompany_facts (selector : Type)
        (page : selector -> option jsstring)
        (firstExperienceItem : option (list selector * list textNode)) :
  let company := extractCompany page firstExperienceItem in
  length company <= 150
  /\ noWhitespaceRun company = true
  /\ startsClean is_ws_or_hyphen company = true
  /\ endsClean is_ws_or_hyphen company = true
  /\ forallb spaceOnly company = true
  /\ forallb (fun c => negb (N.eqb c bullet || N.eqb c pipe || N.eqb c middot))
             company = true.
Proof.
  cbn zeta. unfold extractCompany, companyLoop.
  destruct firstExperienceItem as [[selectors allTextElements]|];
    [|repeat split; cbn; lia].
  set (found := if negb (nonempty (fst (cascade page isValidCompanyName selectors)))
                then extractCompanyFallback allTextElements
                else fst (cascade page isValidCompanyName selectors)).
  assert (Hrelaxed : forall raw, isValidCompanyNameRelaxed (cleanText raw) = true ->
                                 length (cleanText raw) <= 150).
  { intros raw Hv. unfold isValidCompanyNameRelaxed in Hv.
    destruct (negb (nonempty (cleanText raw)) || (length (cleanText raw) <? 2));
      [discriminate|].
    destruct (150 <? length (cleanText raw)) eqn:E; [discriminate|].
    now apply Nat.ltb_ge in E. }
  assert (Hfound : length found <= 150 /\ forallb is_dot found = true).
  { subst found.
    destruct (cascade_result page isValidCompanyName selectors) as [->|(raw & -> & Hv)].
    - cbn [nonempty negb].
      destruct (fallback_result allTextElements) as [->|(raw & -> & Hv)].
      + split; [cbn; lia | reflexivity].
      + split; [now apply Hrelaxed | apply cleanText_no_terminator].
    - destruct (negb (nonempty (cleanText raw))).
      + destruct (fallback_result allTextElements) as [->|(raw' & -> & Hv')].
        * split; [cbn; lia | reflexivity].
        * split; [now apply Hrelaxed | apply cleanText_no_terminator].
      + split; [|apply cleanText_no_terminator].
        unfold isValidCompanyName in Hv.
        destruct (negb (nonempty (cleanText raw)) || (length (cleanText raw) <? 2));
          [discriminate|].
        destruct (150 <? length (cleanText raw)) eqn:E; [discriminate|].
        now apply Nat.ltb_ge in E. }
  destruct Hfound as [Hlen Hdot].
  destruct (cleanCompanyName_shape found) as (H1 & H2 & H3 & H4 & H5 & _).
  destruct (cleanCompanyName_no_separator _ Hdot) as (Hb & Hp & Hm).
  split; [lia|]. split; [exact H1|]. split; [exact H2|]. split; [exact H3|].
  split; [exact H4|].
  apply forallb_forall. intros c Hc. apply negb_true_iff.
  destruct (N.eqb_spec c bullet) as [->|]; [contradiction|].
  destruct (N.eqb_spec c pipe) as [->|]; [contradiction|].
  destruct (N.eqb_spec c middot) as [->|]; [contradiction|].
  reflexivity.
Qed.

(** X11.  Whatever the page holds, and whether no experience item was
    found or the name came from the selector loop or from the fallback,
    the organization name handed to the side panel has at most 150 units, no two adjacent white-space units,
    neither white space nor a hyphen at either end, no white space other
    than the plain space, and no bullet, vertical bar or middle dot. *)
Theorem extractCompany_result (selector : Type)
        (page : selector -> option jsstring)
        (firstExperienceItem : option (list selector * list textNode)) :
  let company := extractCompany page firstExperienceItem in
  length company <= 150
  /\ noWhitespaceRun company = true
  /\ startsClean is_ws_or_hyphen company = true
  /\ endsClean is_ws_or_hyphen company = true
  /\ forallb spaceOnly company = true
  /\ forallb (fun c => negb (N.eqb c bullet || N.eqb c pipe || N.eqb c middot))
             company = true.
Proof. apply extractCompany_facts. Qed.

(** ** The request-rate limiter *)

Section LimiterFacts.

Local Open Scope Z_scope.

Lemma canMakeRequest_settings (rl : rateLimiter) (now : Z) :
  maxRequests (snd (canMakeRequest rl now)) = maxRequests rl
  /\ windowMs (snd (canMakeRequest rl now)) = windowMs rl.
Proof.
  unfold canMakeRequest. cbn zeta.
  now destruct (maxRequests rl <=? _).
Qed.

Lemma filter_length_le (A : Type) (f : A -> bool) (l : list A) :
  (length (filter f l) <= length l)%nat.
Proof.
  induction l as [|a l IH]; cbn [filter length]; [lia|].
  destruct (f a); cbn [length]; lia.
Qed.

Lemma canMakeRequest_cap (rl : rateLimiter) (now : Z) :
  Z.of_nat (length (requests rl)) <= Z.max 0 (maxRequests rl) ->
  Z.of_nat (length (requests (snd (canMakeRequest rl now))))
  <= Z.max 0 (maxRequests rl).
Proof.
  intros Hcap. unfold canMakeRequest. cbn zeta.
  pose proof (filter_length_le (inWindow rl now) (requests rl)) as Hle.
  destruct (maxRequests rl <=? _) eqn:E; cbn [snd requests].
  - lia.
  - apply Z.leb_gt in E. rewrite length_app. cbn [length]. lia.
Qed.

Lemma canMakeRequest_stored (rl : rateLimiter) (now : Z) :
  0 < windowMs rl ->
  Forall (fun t => now - t < windowMs rl) (requests (snd (canMakeRequest rl now))).
Proof.
  intros Hw. unfold canMakeRequest. cbn zeta.
  assert (Hkept : Forall (fun t => now - t < windowMs rl)
                         (filter (inWindow rl now) (requests rl))).
  { apply Forall_forall. intros t Ht. apply filter_In in Ht as [_ Ht].
    now apply Z.ltb_lt in Ht. }
  destruct (maxRequests rl <=? _); cbn [snd requests]; [exact Hkept|].
  apply Forall_app. split; [exact Hkept|]. constructor; [lia | constructor].
Qed.

Lemma callsFrom_cap (times : list Z) :
  forall rl granted,
    Z.of_nat (length (requests rl)) <= Z.max 0 (maxRequests rl) ->
    incl (requests rl) granted ->
    (maxRequests rl <= 0 -> granted = []) ->
    let after := fst (callsFrom rl granted times) in
    let grants := snd (callsFrom rl granted times) in
    Z.of_nat (length (requests after)) <= Z.max 0 (maxRequests rl)
    /\ maxRequests after = maxRequests rl
    /\ windowMs after = windowMs rl
    /\ incl (requests after) grants
    /\ incl grants (granted ++ times)
    /\ (maxRequests rl <= 0 -> grants = []).
Proof.
  induction times as [|t times IH]; intros rl granted Hcap Hincl Hzero; cbn zeta.
  - cbn [callsFrom fst snd]. rewrite app_nil_r.
    repeat split; try assumption; apply incl_refl.
  - cbn [callsFrom].
    pose proof (@canMakeRequest_cap rl t Hcap) as Hcap'.
    destruct (canMakeRequest_settings rl t) as [Hm Hw].
    assert (Hkept : incl (filter (inWindow rl t) (requests rl)) granted).
    { intros x Hx. apply filter_In in Hx as [Hx _]. now apply Hincl. }
    assert (Hanswer :
      fst (canMakeRequest rl t) = true ->
      0 < maxRequests rl
      /\ requests (snd (canMakeRequest rl t))
         = filter (inWindow rl t) (requests rl) ++ [t]).
    { unfold canMakeRequest. cbn zeta.
      destruct (maxRequests rl <=? _) eqn:E; cbn [fst snd requests];
        [discriminate|]. intros _. apply Z.leb_gt in E. split; [lia | reflexivity]. }
    assert (Hrefused :
      fst (canMakeRequest rl t) = false ->
      requests (snd (canMakeRequest rl t)) = filter (inWindow rl t) (requests rl)).
    { unfold canMakeRequest. cbn zeta.
      destruct (maxRequests rl <=? _); cbn [fst snd requests];
        [reflexivity | discriminate]. }
    destruct (canMakeRequest rl t) as [answer rl'] eqn:Ecall.
    cbn [fst snd] in *. rewrite <- Hm in *.
    destruct answer.
    + destruct (Hanswer eq_refl) as [Hpos Hreq].
      specialize (IH rl' (granted ++ [t])). cbn zeta in IH.
      destruct IH as (H1 & H2 & H3 & H4 & H5 & H6).
      * exact Hcap'.
      * rewrite Hreq. apply incl_app; [|apply incl_appr, incl_refl].
        apply incl_appl. exact Hkept.
      * lia.
      * split; [exact H1|]. split; [congruence|]. split; [congruence|].
        split; [exact H4|]. split; [|lia].
        intros x Hx. apply H5 in Hx. rewrite <- app_assoc in Hx. exact Hx.
    + specialize (IH rl' granted). cbn zeta in IH.
      destruct IH as (H1 & H2 & H3 & H4 & H5 & H6).
      * exact Hcap'.
      * rewrite (Hrefused eq_refl). exact Hkept.
      * exact Hzero.
      * split; [exact H1|]. split; [congruence|]. split; [congruence|].
        split; [exact H4|]. split; [|exact H6].
        intros x Hx. apply H5 in Hx. apply in_app_iff in Hx as [Hx|Hx];
          apply in_app_iff; [now left | right; now right].
Qed.

(** X12.  Whatever the times of the calls, and even if the clock goes
    back, the limiter never stores more than [maxRequests] times (none when
    that is not positive), keeps its two settings, stores only times at
    which it said yes, says yes only at times at which it was asked, and
    says yes to nothing when [maxRequests] is not positive. *)
Theorem limiter_stores_at_most_max (max window : Z) (times : list Z) :
  let after := fst (calls max window times) in
  let grants := snd (calls max window times) in
  Z.of_nat (length (requests after)) <= Z.max 0 max
  /\ maxRequests after = max
  /\ windowMs after = window
  /\ incl (requests after) grants
  /\ incl grants times
  /\ (if max <=? 0 then grants = [] else True).
Proof.
  cbn zeta. unfold calls.
  destruct (@callsFrom_cap times (newLimiter max window) [])
    as (H1 & H2 & H3 & H4 & H5 & H6); cbn [newLimiter requests maxRequests length].
  - lia.
  - apply incl_refl.
  - reflexivity.
  - cbn [newLimiter maxRequests windowMs app] in *.
    repeat split; try assumption.
    destruct (Z.leb_spec max 0); [now apply H6 | exact I].
Qed.

Lemma grantedIn_app (w u : Z) (a b : list Z) :
  grantedIn w u (a ++ b) = grantedIn w u a ++ grantedIn w u b.
Proof. unfold grantedIn. apply filter_app. Qed.

Lemma filter_length_implied (A : Type) (f g : A -> bool) (l : list A) :
  (forall x, In x l -> f x = true -> g x = true) ->
  (length (filter f l) <= length (filter g l))%nat.
Proof.
  induction l as [|a l IH]; intros H; cbn [filter]; [lia|].
  assert (IH' : (length (filter f l) <= length (filter g l))%nat).
  { apply IH. intros x Hx. apply H. now right. }
  destruct (f a) eqn:Ef.
  - rewrite (H a (or_introl eq_refl) Ef). cbn [length]. lia.
  - destruct (g a); cbn [length]; lia.
Qed.

Lemma filter_filter_implied (A : Type) (f g : A -> bool) (l : list A) :
  (forall x, In x l -> f x = true -> g x = true) ->
  filter f (filter g l) = filter f l.
Proof.
  induction l as [|a l IH]; intros H; cbn [filter]; [reflexivity|].
  assert (IH' : filter f (filter g l) = filter f l).
  { apply IH. intros x Hx. apply H. now right. }
  destruct (g a) eqn:Eg.
  - cbn [filter]. now rewrite IH'.
  - destruct (f a) eqn:Ef; [|exact IH'].
    rewrite (H a (or_introl eq_refl) Ef) in Eg. discriminate.
Qed.

Lemma callsFrom_window (times : list Z) :
  forall rl granted last,
    0 < windowMs rl ->
    requests rl = filter (inWindow rl last) granted ->
    Forall (fun g => g <= last) granted ->
    (forall u, Z.of_nat (length (grantedIn (windowMs rl) u granted))
               <= Z.max 0 (maxRequests rl)) ->
    nondecreasing (last :: times) ->
    forall u, Z.of_nat (length (grantedIn (windowMs rl) u
                                          (snd (callsFrom rl granted times))))
              <= Z.max 0 (maxRequests rl).
Proof.
  induction times as [|t times IH]; intros rl granted last Hw Hreq Hle Hcount Hmono u.
  - cbn [callsFrom snd]. apply Hcount.
  - cbn [callsFrom].
    assert (Hlast : last <= t /\ nondecreasing (t :: times)).
    { cbn [nondecreasing] in Hmono. destruct Hmono as [H1 H2]. split; [exact H1|].
      exact H2. }
    destruct Hlast as [Hlast Hmono'].
    assert (Hkept : filter (inWindow rl t) (requests rl)
                    = filter (inWindow rl t) granted).
    { rewrite Hreq. apply filter_filter_implied. intros g _ Hg.
      unfold inWindow in *. apply Z.ltb_lt in Hg. apply Z.ltb_lt. lia. }
    assert (Hle' : Forall (fun g => g <= t) granted).
    { apply Forall_forall. intros g Hg.
      pose proof (proj1 (Forall_forall _ _) Hle g Hg). cbn beta in *. lia. }
    unfold canMakeRequest. cbn zeta. rewrite Hkept.
    destruct (maxRequests rl <=? Z.of_nat (length (filter (inWindow rl t) granted)))
      eqn:E.
    + cbn [snd].
      match goal with
      | |- context [callsFrom ?r granted times] =>
          pose proof (IH r granted t) as IH'
      end.
      cbn [windowMs maxRequests requests] in IH'.
      apply IH'; try assumption. reflexivity.
    + apply Z.leb_gt in E. cbn [snd].
      match goal with
      | |- context [callsFrom ?r (granted ++ [t]) times] =>
          pose proof (IH r (granted ++ [t]) t) as IH'
      end.
      cbn [windowMs maxRequests requests] in IH'.
      apply IH'; try assumption.
      * unfold inWindow. cbn [windowMs]. rewrite filter_app. cbn [filter].
        replace (t - t <? windowMs rl) with true
          by (symmetry; apply Z.ltb_lt; lia).
        reflexivity.
      * apply Forall_app. split; [exact Hle'|]. constructor; [lia|constructor].
      * intros v. rewrite grantedIn_app, length_app.
        unfold grantedIn at 2. cbn [filter].
        destruct ((v - windowMs rl <? t) && (t <=? v)) eqn:Ev.
        -- apply andb_true_iff in Ev as [Ev1 Ev2].
           apply Z.ltb_lt in Ev1. apply Z.leb_le in Ev2.
           assert (Hsub : (length (grantedIn (windowMs rl) v granted)
                           <= length (filter (inWindow rl t) granted))%nat).
           { unfold grantedIn. apply filter_length_implied. intros g Hg Hin.
             apply andb_true_iff in Hin as [Hin _]. apply Z.ltb_lt in Hin.
             unfold inWindow. apply Z.ltb_lt. lia. }
           cbn [length]. lia.
        -- cbn [length]. specialize (Hcount v). lia.
Qed.

(** X13.  When the clock never goes back and the window is positive, the
    limiter is a sliding-window limiter: in any span of [windowMs]
    milliseconds, its end included, it says yes at most [maxRequests]
    times. *)
Theorem limiter_sliding_window (max window : Z) (times : list Z) (u : Z) :
  0 < window ->
  nondecreasing times ->
  Z.of_nat (length (grantedIn window u (snd (calls max window times))))
  <= Z.max 0 max.
Proof.
  intros Hw Hmono. unfold calls.
  destruct times as [|t times]; [cbn; lia|].
  apply (@callsFrom_window (t :: times) (newLimiter max window) [] t).
  - exact Hw.
  - reflexivity.
  - constructor.
  - intros v. cbn. lia.
  - cbn [nondecreasing]. split; [lia | exact Hmono].
Qed.

Lemma limiter_sliding_window_witness :
  snd (calls 3 5000 [0; 1; 2; 3; 4999; 5000; 5001; 5002; 5003])
  = [0; 1; 2; 5000; 5001; 5002]
  /\ Z.of_nat (length (grantedIn 5000 5001
                 (snd (calls 3 5000 [0; 1; 2; 3; 4999; 5000; 5001; 5002; 5003]))))
     <= Z.max 0 3.
Proof.
  split; [reflexivity|].
  apply limiter_sliding_window; [reflexivity|].
  cbn [nondecreasing]. repeat split; apply Z.leb_le; reflexivity.
Defined.

(** X14.  After a refusal by a limiter that holds no more than
    [maxRequests] times, with [maxRequests] at least 1, the wait time is a
    number and not negative, and a call made once that wait is over is
    granted: the retry scheduled with it never needs a second wait. *)
Theorem retry_after_wait_is_granted
        (rl rl' : rateLimiter) (now asked later : Z) :
  1 <= maxRequests rl ->
  Z.of_nat (length (requests rl)) <= maxRequests rl ->
  canMakeRequest rl now = (false, rl') ->
  exists wait,
    getWaitTime rl' asked = Some wait
    /\ 0 <= wait
    /\ (asked + wait <= later -> fst (canMakeRequest rl' later) = true).
Proof.
  intros Hmax Hcap Hcall. unfold canMakeRequest in Hcall. cbn zeta in Hcall.
  pose proof (filter_length_le (inWindow rl now) (requests rl)) as Hle.
  destruct (maxRequests rl <=? Z.of_nat (length (filter (inWindow rl now) (requests rl))))
    eqn:E; [|discriminate].
  apply Z.leb_le in E. injection Hcall as <-.
  set (kept := filter (inWindow rl now) (requests rl)) in *.
  unfold getWaitTime. cbn [requests maxRequests windowMs].
  replace (Z.of_nat (length kept) <? maxRequests rl) with false
    by (symmetry; apply Z.ltb_ge; lia).
  destruct kept as [|oldest rest] eqn:Ekept; [cbn [length] in E; lia|].
  exists (Z.max 0 (windowMs rl - (asked - oldest))).
  split; [reflexivity|]. split; [lia|].
  intros Hlater. unfold canMakeRequest. cbn zeta. cbn [requests maxRequests windowMs].
  cbn [filter]. unfold inWindow at 1. cbn [windowMs].
  replace (later - oldest <? windowMs rl) with false
    by (symmetry; apply Z.ltb_ge; lia).
  match goal with
  | |- context [filter ?f rest] =>
      pose proof (filter_length_le f rest) as Hrest
  end.
  cbn [length] in *.
  match goal with
  | |- fst (if ?c then _ else _) = true => destruct c eqn:Ec
  end; [|reflexivity].
  apply Z.leb_le in Ec. lia.
Qed.

Lemma retry_after_wait_is_granted_witness :
  exists wait,
    getWaitTime (snd (canMakeRequest (fst (calls 3 5000 [0; 10; 20])) 30)) 31
    = Some wait
    /\ 0 <= wait
    /\ (31 + wait <= 5000 ->
        fst (canMakeRequest (snd (canMakeRequest (fst (calls 3 5000 [0; 10; 20])) 30))
                            5000) = true).
Proof.
  apply (@retry_after_wait_is_granted (fst (calls 3 5000 [0; 10; 20])) _ 30 31 5000).
  - apply Z.leb_le. reflexivity.
  - apply Z.leb_le. reflexivity.
  - reflexivity.
Defined.

End LimiterFacts.

(** ** The schema cache across a restart *)

Section ServiceFacts.

Context {NM : NumberModel}.

Lemma prop_get_set_same (A : Type) (o : list (jsstring * A)) (k : jsstring) (v : A) :
  prop_get (prop_set o k v) k = Some v.
Proof.
  induction o as [|[k' v'] o IH]; cbn [prop_set prop_get].
  - now rewrite str_eqb_refl.
  - destruct (str_eqb k' k) eqn:E; cbn [prop_get]; rewrite E; [reflexivity | exact IH].
Qed.

(** X15.  A schema that was fetched and written to the durable store
    survives a restart of the service worker: when the next fetch is
    rejected, or its body cannot be read, the call returns the same field
    types from the store, after one fetch, and puts them back in memory
    under the identity, with the time of the stored copy. *)
Theorem schema_survives_restart (cfg : config) (st : service) (w1 w2 : world)
        (tables : list tableInfo) (table : tableInfo) (fields : list fieldInfo) :
  cacheIsFresh st (configKeyOf cfg) (now w1) = false ->
  response w1 = HttpOk (Some tables) ->
  find (fun t => str_eqb (tableIdent t) (tableId cfg)
                 || str_eqb (tableName t) (tableId cfg)) tables = Some table ->
  tableFields table = Some fields ->
  storageSetFails w1 = false ->
  response w2 = NetworkError \/ response w2 = HttpOk None ->
  storageGetFails w2 = false ->
  let st1 := snd (fst (fetchTableSchema cfg st w1)) in
  fetchTableSchema cfg (restart st1) w2
  = (Some (fst (schemaOfFields fields)),
     {| cachedSchema :=
          Some {| configKey := configKeyOf cfg;
                  fieldTypes := fst (schemaOfFields fields);
                  fieldDetails := snd (schemaOfFields fields);
                  timestamp := persistTime w1 |};
        storage := storage st1 |},
     1).
Proof.
  intros Hstale Hr Hfind Hfields Hset Hr2 Hget. cbn zeta.
  destruct (schemaOfFields fields) as [ftypes fdetails] eqn:Es.
  assert (Hfirst :
    fetchTableSchema cfg st w1
    = (Some ftypes,
       {| cachedSchema :=
            Some {| configKey := configKeyOf cfg; fieldTypes := ftypes;
                    fieldDetails := fdetails; timestamp := storeTime w1 |};
          storage := prop_set (storage st) (storageKey (configKeyOf cfg))
                       {| storedFieldTypes := ftypes;
                          storedFieldDetails := fdetails;
                          storedTimestamp := persistTime w1 |} |},
       1)).
  { unfold fetchTableSchema. rewrite Hstale, Hr, Hfind.
    destruct table as [tid tname tfields]. cbn [tableFields] in Hfields.
    subst tfields. now rewrite Es, Hset. }
  rewrite Hfirst. cbn [fst snd storage].
  unfold fetchTableSchema, restart, cacheIsFresh. cbn [cachedSchema storage].
  assert (Hfall :
    storageFallback
      {| cachedSchema := None;
         storage := prop_set (storage st) (storageKey (configKeyOf cfg))
                      {| storedFieldTypes := ftypes;
                         storedFieldDetails := fdetails;
                         storedTimestamp := persistTime w1 |} |}
      w2 (configKeyOf cfg)
    = (Some ftypes,
       {| cachedSchema :=
            Some {| configKey := configKeyOf cfg; fieldTypes := ftypes;
                    fieldDetails := fdetails; timestamp := persistTime w1 |};
          storage := prop_set (storage st) (storageKey (configKeyOf cfg))
                       {| storedFieldTypes := ftypes;
                          storedFieldDetails := fdetails;
                          storedTimestamp := persistTime w1 |} |})).
  { unfold storageFallback. rewrite Hget. cbn [storage].
    now rewrite prop_get_set_same. }
  destruct Hr2 as [-> | ->]; now rewrite Hfall.
Qed.

Lemma joined_at_first_separator (sep : jschar) (a b x y : jsstring) :
  a ++ sep :: x = b ++ sep :: y -> ~ In sep a -> ~ In sep b ->
  a = b /\ x = y.
Proof.
  revert b. induction a as [|c a IH]; intros [|d b] E Ha Hb.
  - now injection E as ->.
  - injection E as <- _. exfalso. apply Hb. now left.
  - injection E as -> _. exfalso. apply Ha. now left.
  - injection E as -> E. destruct (IH b E) as [-> ->].
    + intros H. apply Ha. now right.
    + intros H. apply Hb. now right.
    + auto.
Qed.

(** X16.  What a call returns is filed under the key of the call, the
    string made of its base, a colon and its table: the field types
    returned are those of the entry in memory, and then that entry has the
    key of the call; or those of the table the remote just sent; or those
    of the durable copy stored under the key, and then the fetch was
    rejected or its body unreadable.  At most one fetch is made, and the
    entry in memory afterwards is the one from before or has the key of the
    call.  The key stands for base and table when no base holds a colon;
    two configurations of which one base holds a colon can share a key, and
    then one is served the schema of the other. *)
Theorem served_schema_is_filed_under_the_key (cfg : config) (st : service)
        (w : world) (served : types) :
  fst (fst (fetchTableSchema cfg st w)) = Some served ->
  ((exists entry, cachedSchema st = Some entry
                  /\ configKey entry = configKeyOf cfg
                  /\ fieldTypes entry = served)
   \/ (exists tables table fields,
         response w = HttpOk (Some tables)
         /\ In table tables
         /\ (tableIdent table = tableId cfg \/ tableName table = tableId cfg)
         /\ tableFields table = Some fields
         /\ served = fst (schemaOfFields fields))
   \/ (exists stored,
         prop_get (storage st) (storageKey (configKeyOf cfg)) = Some stored
         /\ storedFieldTypes stored = served
         /\ (response w = NetworkError \/ response w = HttpOk None)))
  /\ snd (fetchTableSchema cfg st w) <= 1
  /\ (cachedSchema (snd (fst (fetchTableSchema cfg st w))) = cachedSchema st
      \/ exists entry,
           cachedSchema (snd (fst (fetchTableSchema cfg st w))) = Some entry
           /\ configKey entry = configKeyOf cfg)
  /\ (forall other,
         configKeyOf other = configKeyOf cfg ->
         ~ In colon (baseId other) -> ~ In colon (baseId cfg) ->
         baseId other = baseId cfg /\ tableId other = tableId cfg).
Proof.
  intros Hserved.
  assert (Hkey : forall other,
             configKeyOf other = configKeyOf cfg ->
             ~ In colon (baseId other) -> ~ In colon (baseId cfg) ->
             baseId other = baseId cfg /\ tableId other = tableId cfg).
  { intros other E H1 H2. now apply (@joined_at_first_separator colon). }
  revert Hserved.
  enough (Hmain :
    fst (fst (fetchTableSchema cfg st w)) = Some served ->
    ((exists entry, cachedSchema st = Some entry
                    /\ configKey entry = configKeyOf cfg
                    /\ fieldTypes entry = served)
     \/ (exists tables table fields,
           response w = HttpOk (Some tables)
           /\ In table tables
           /\ (tableIdent table = tableId cfg \/ tableName table = tableId cfg)
           /\ tableFields table = Some fields
           /\ served = fst (schemaOfFields fields))
     \/ (exists stored,
           prop_get (storage st) (storageKey (configKeyOf cfg)) = Some stored
           /\ storedFieldTypes stored = served
           /\ (response w = NetworkError \/ response w = HttpOk None)))
    /\ snd (fetchTableSchema cfg st w) <= 1
    /\ (cachedSchema (snd (fst (fetchTableSchema cfg st w))) = cachedSchema st
        \/ exists entry,
             cachedSchema (snd (fst (fetchTableSchema cfg st w))) = Some entry
             /\ configKey entry = configKeyOf cfg)).
  { intros Hserved. destruct (Hmain Hserved) as (H1 & H2 & H3). auto. }
  clear Hkey.
  unfold fetchTableSchema. cbn zeta.
  destruct (cacheIsFresh st (configKeyOf cfg) (now w)) eqn:Efresh.
  - unfold cacheIsFresh in Efresh.
    destruct (cachedSchema st) as [c|] eqn:Ec; [|discriminate].
    cbn [fst snd]. intros [= <-].
    apply andb_true_iff in Efresh as [Efresh _].
    apply andb_true_iff in Efresh as [Ekey _]. apply str_eqb_eq in Ekey.
    split; [left; now exists c|]. split; [lia|]. left. exact Ec.
  - destruct (response w) as [ | status | [tables|] ] eqn:Er.
    + unfold storageFallback. destruct (storageGetFails w); [cbn; discriminate|].
      destruct (prop_get (storage st) (storageKey (configKeyOf cfg))) as [stored|] eqn:Eg;
        [|cbn; discriminate].
      cbn [fst snd]. intros [= <-]. split.
      * right. right. exists stored. auto.
      * split; [lia|]. right. eexists. split; reflexivity.
    + destruct (cachedSchema st) as [c|] eqn:Ec; [|cbn; discriminate].
      destruct (str_eqb (configKey c) (configKeyOf cfg)) eqn:Ekey; [|cbn; discriminate].
      cbn [fst snd]. intros [= <-]. apply str_eqb_eq in Ekey.
      split; [left; now exists c|]. split; [lia|]. left. exact Ec.
    + destruct (find _ tables) as [[tid tname [fields|]]|] eqn:Efind;
        try (cbn; discriminate).
      destruct (schemaOfFields fields) as [ftypes fdetails] eqn:Es.
      cbn [fst snd]. intros [= <-]. split.
      * right. left. apply find_some in Efind as [Hin Hmatch].
        exists tables, {| tableIdent := tid; tableName := tname;
                          tableFields := Some fields |}, fields.
        cbn [tableIdent tableName tableFields] in *.
        split; [reflexivity|]. split; [exact Hin|]. split.
        -- apply orb_true_iff in Hmatch as [H|H]; apply str_eqb_eq in H; auto.
        -- split; [reflexivity|]. now rewrite Es.
      * split; [lia|]. right. eexists. split; reflexivity.
    + unfold storageFallback. destruct (storageGetFails w); [cbn; discriminate|].
      destruct (prop_get (storage st) (storageKey (configKeyOf cfg))) as [stored|] eqn:Eg;
        [|cbn; discriminate].
      cbn [fst snd]. intros [= <-]. split.
      * right. right. exists stored. auto.
      * split; [lia|]. right. eexists. split; reflexivity.
Qed.

End ServiceFacts.

Lemma schema_survives_restart_witness :
  fetchTableSchema demoConfig
    (restart (snd (fst (fetchTableSchema demoConfig emptyService onlineWorld))))
    offlineWorld
  = (Some demoTypes,
     {| cachedSchema :=
          Some {| configKey := lit "app1:tbl1"; fieldTypes := demoTypes;
                  fieldDetails :=
                    [(lit "Name", (lit "singleLineText", VNull));
                     (lit "Job Title", (lit "singleLineText", VNull))];
                  timestamp := 1201 |};
        storage :=
          storage (snd (fst (fetchTableSchema demoConfig emptyService onlineWorld))) |},
     1).
Proof.
  apply (@schema_survives_restart NatNumbers demoConfig emptyService onlineWorld
           offlineWorld _ _ _ eq_refl eq_refl eq_refl eq_refl eq_refl
           (or_introl eq_refl) eq_refl).
Defined.

Lemma served_schema_is_filed_under_the_key_witness :
  (exists entry,
      cachedSchema unpersistedService = Some entry
      /\ configKey entry = configKeyOf demoConfig
      /\ fieldTypes entry = demoTypes)
  /\ configKeyOf leadsOfQ1 = configKeyOf q1LeadsOfApp1
  /\ fetchTableSchema leadsOfQ1
       (snd (fst (fetchTableSchema q1LeadsOfApp1 emptyService q1LeadsWorld)))
       q1LeadsWorld
     = (Some [(lit "Lead", lit "singleLineText")],
        snd (fst (fetchTableSchema q1LeadsOfApp1 emptyService q1LeadsWorld)), 0).
Proof.
  split; [|split; reflexivity].
  destruct (@served_schema_is_filed_under_the_key NatNumbers demoConfig
              unpersistedService serverErrorWorld demoTypes eq_refl)
    as [[H|[H|H]] _].
  - exact H.
  - destruct H as (tables & table & fields & H & _). discriminate H.
  - destruct H as (stored & H & _). discriminate H.
Defined.

(** ** The validator after the mapper and the transformer *)

Section ValidatorFacts.

Context {NM : NumberModel}.

Lemma judge_skipped (sch : schema) (fieldName : jsstring) (value : jsvalue) :
  judge sch fieldName value = Skipped <-> isBlank value = true.
Proof.
  unfold judge. destruct (isBlank value); [tauto|].
  split; [|discriminate]. destruct sch as [types|]; [|discriminate].
  destruct (fieldTypeOf (Some types) fieldName) as [fieldType|]; [|discriminate].
  destruct (str_eqb fieldType (lit "multipleRecordLinks")
            && negb (isValidLinkedRecord value)); [discriminate|].
  cbn zeta. destruct (isValid (validateFieldValue fieldName value fieldType));
    discriminate.
Qed.

Lemma verdict_count (sch : schema) (l : object) :
  length (filter (accepted sch) l) + length (flat_map (exclusionOf sch) l)
  + length (filter (fun e => isBlank (snd e)) l) = length l.
Proof.
  induction l as [|[k v] l IH]; [reflexivity|].
  cbn [filter flat_map length]. rewrite length_app.
  unfold accepted at 1, exclusionOf at 1. cbn [fst snd].
  pose proof (judge_skipped sch k v) as Hs.
  destruct (judge sch k v) as [ | | e] eqn:Ej.
  - rewrite (proj1 Hs eq_refl). cbn [length]. lia.
  - destruct (isBlank v); [destruct Hs as [_ Hs]; discriminate (Hs eq_refl)|].
    cbn [length]. lia.
  - destruct (isBlank v); [destruct Hs as [_ Hs]; discriminate (Hs eq_refl)|].
    cbn [length]. lia.
Qed.

(** X17.  The validator only sorts the fields it is given: every field is
    skipped (its value is null, undefined or the empty string), kept, or
    excluded, exactly one of the three; a kept field keeps its value; and
    without a schema every field that is not skipped is kept and nothing is
    excluded. *)
Theorem validation_partitions_fields (fields : object) (sch : schema) :
  NoDup (keys fields) ->
  length (fst (validateAndFilterFields fields sch))
  + length (snd (validateAndFilterFields fields sch))
  + length (filter (fun e => isBlank (snd e)) fields) = length fields
  /\ incl (fst (validateAndFilterFields fields sch)) fields
  /\ fst (validateAndFilterFields fields None)
     = filter (fun e => negb (isBlank (snd e))) fields
  /\ snd (validateAndFilterFields fields None) = [].
Proof.
  intros Hnd. rewrite !(@validate_shape _ _ _ Hnd). cbn [fst snd].
  split; [apply verdict_count|]. split; [apply incl_filter|]. split.
  - apply filter_ext. intros [k v]. unfold accepted, judge. cbn [fst snd].
    now destruct (isBlank v).
  - induction fields as [|[k v] l IH]; [reflexivity|]. cbn [flat_map].
    rewrite IH by (now inversion Hnd).
    unfold exclusionOf, judge. cbn [fst snd]. now destruct (isBlank v).
Qed.

Lemma mapped_NoDup (contactData : object) (l : mapping) :
  forall acc, NoDup (keys acc) ->
              NoDup (keys (fold_left (mapStep contactData) l acc)).
Proof.
  induction l as [|[k f] l IH]; intros acc Hacc; [exact Hacc|].
  cbn [fold_left]. apply IH.
  destruct (mapStep_cases contactData acc k f) as [(_ & _ & ->)|(_ & ->)];
    [now apply prop_set_NoDup | exact Hacc].
Qed.

Lemma mappingErrors_none (sch : schema) (l : mapping) (k f : jsstring) :
  flat_map (mappingErrorsOf sch) l = [] ->
  In (k, f) l -> nonempty f = true -> sch <> None ->
  fieldTypeOf sch f <> None.
Proof.
  intros Hnone Hin Hf Hsch Hty.
  assert (Hempty : mappingErrorsOf sch (k, f) = []).
  { destruct (mappingErrorsOf sch (k, f)) as [|e es] eqn:E; [reflexivity|].
    assert (Hine : In e (flat_map (mappingErrorsOf sch) l)).
    { apply in_flat_map. exists (k, f). split; [exact Hin|]. rewrite E. now left. }
    rewrite Hnone in Hine. destruct Hine. }
  unfold mappingErrorsOf in Hempty. rewrite Hf in Hempty. cbn [negb] in Hempty.
  destruct sch as [types|]; [|now apply Hsch].
  rewrite Hty in Hempty. discriminate.
Qed.

(** X18.  When the check of the field mappings, run on the mappings the
    mapper uses (the defaults overridden by the user's), reports no error
    against a schema, the validator excludes no field of the mapped record
    for being absent from that schema. *)
Theorem checked_mappings_are_never_unknown (contactData : object)
        (fieldMappings : mapping) (sch : schema) :
  fst (validateFieldMappings (spread defaultMappings fieldMappings) sch) = [] ->
  forallb (fun e => negb (isNotInSchema e))
          (snd (validateAndFilterFields
                  (mapContactDataToAirtable contactData fieldMappings) sch))
  = true.
Proof.
  unfold validateFieldMappings. cbn [fst]. intros Hnone.
  set (mapped := mapContactDataToAirtable contactData fieldMappings).
  assert (Hnd : NoDup (keys mapped)).
  { apply mapped_NoDup. constructor. }
  rewrite (@validate_shape _ _ _ Hnd). cbn [snd].
  apply forallb_forall. intros e He.
  apply in_flat_map in He as ([name v] & Hin & He).
  unfold exclusionOf, judge in He. cbn [fst snd] in He.
  destruct (isBlank v); [destruct He|].
  destruct sch as [types|]; [|destruct He].
  destruct (fieldTypeOf (Some types) name) as [fieldType|] eqn:Ety.
  - destruct (str_eqb fieldType (lit "multipleRecordLinks")
              && negb (isValidLinkedRecord v)).
    + destruct He as [<-|[]]. reflexivity.
    + cbn zeta in He. destruct (isValid (validateFieldValue name v fieldType));
        [destruct He|]. destruct He as [<-|[]]. reflexivity.
  - exfalso.
    assert (Hkey : In name (keys mapped)).
    { unfold keys. apply in_map_iff. now exists (name, v). }
    apply fold_mapStep_keys in Hkey as [[]|(k & Hk & Hf & _)].
    apply (@mappingErrors_none (Some types) _ k name Hnone Hk Hf); [discriminate|].
    exact Ety.
Qed.

Lemma attachmentOf_valid (x : jsvalue) :
  plainAttachment x = true -> isNull (attachmentOf x) = false ->
  hasUrlString (attachmentOf x) = true.
Proof.
  destruct x as [ | | b | n | s | items | o]; cbn [attachmentOf isNull];
    try discriminate.
  - intros _. destruct (startsWith (lit "http") s); [|discriminate].
    intros _. reflexivity.
  - cbn [plainAttachment]. unfold stringIfPresent.
    destruct (truthy (get o (lit "url"))) eqn:E; [|discriminate].
    cbn [negb]. rewrite orb_false_r. intros H _. exact H.
Qed.

Lemma transformed_passes (fieldName : jsstring) (value : jsvalue)
      (fieldType : jsstring) (v : jsvalue) :
  transformByFieldType fieldName value fieldType = Some v ->
  isNull v = false ->
  kindOf fieldType <> multipleAttachments \/ plainAttachments value = true ->
  isValid (validateFieldValue fieldName v fieldType) = true.
Proof.
  unfold transformByFieldType, validateFieldValue.
  destruct (kindOf fieldType) eqn:Ek; intros Ht Hnull Hatt.
  - (* multipleAttachments *)
    destruct Hatt as [Hatt|Hatt]; [now contradiction Hatt|].
    destruct value as [ | | b | n | s | items | o];
      try (injection Ht as <-; reflexivity).
    + destruct (startsWith (lit "http") s); injection Ht as <-; reflexivity.
    + injection Ht as <-. cbn [plainAttachments] in Hatt.
      assert (Hall : forallb hasUrlString
                       (filter (fun v => negb (isNull v)) (map attachmentOf items))
                     = true).
      { apply forallb_forall. intros y Hy. apply filter_In in Hy as [Hy Hnn].
        apply in_map_iff in Hy as (x & <- & Hx).
        apply attachmentOf_valid.
        - exact (proj1 (forallb_forall _ _) Hatt x Hx).
        - now apply negb_true_iff in Hnn. }
      now rewrite Hall.
  - (* multipleRecordLinks *)
    injection Ht as <-.
    destruct (linkedRecord_shape value) as [E|(items & E & Hitems)];
      rewrite E in *; [discriminate Hnull|].
    assert (Hall : forallb isString items = true).
    { apply forallb_forall. intros y Hy.
      pose proof (proj1 (Forall_forall _ _) Hitems y Hy) as Hid.
      cbn beta in Hid. now destruct y. }
    now rewrite Hall.
  - (* multipleSelects *)
    assert (Harr : exists items, v = VArr items).
    { destruct value as [ | | b | n | s | l | o].
      - cbn in Ht. injection Ht as <-. now eexists.
      - cbn in Ht. injection Ht as <-. now eexists.
      - destruct (toString (VBool b)); [|discriminate]. injection Ht as <-. now eexists.
      - destruct (toString (VNum n)); [|discriminate]. injection Ht as <-. now eexists.
      - injection Ht as <-. now eexists.
      - destruct (sequence (map toString l)); [|discriminate].
        injection Ht as <-. now eexists.
      - destruct (toString (VObj o)); [|discriminate]. injection Ht as <-. now eexists. }
    destruct Harr as [items ->]. reflexivity.
  - (* singleSelect *)
    match type of Ht with
    | match ?x with Some _ => _ | None => _ end = _ => destruct x; [|discriminate]
    end.
    now injection Ht as <-.
  - destruct (toString value); [|discriminate]. now injection Ht as <-.
  - destruct (toString value); [|discriminate]. now injection Ht as <-.
  - destruct (toString value); [|discriminate]. now injection Ht as <-.
  - destruct (toString value) as [s|]; [|discriminate]. injection Ht as <-.
    destruct (num_isNaN (str_parseFloat s)) eqn:E; [discriminate Hnull|].
    now rewrite E.
  - destruct (toString value) as [s|]; [|discriminate]. injection Ht as <-.
    destruct (num_isNaN (str_parseFloat s)) eqn:E; [discriminate Hnull|].
    now rewrite E.
  - destruct (toString value) as [s|]; [|discriminate]. injection Ht as <-.
    destruct (num_isNaN (str_parseFloat s)) eqn:E; [discriminate Hnull|].
    now rewrite E.
  - destruct (toString value) as [s|]; [|discriminate]. injection Ht as <-.
    destruct (num_isNaN (str_parseFloat s)) eqn:E; [discriminate Hnull|].
    now rewrite E.
  - destruct value; injection Ht as <-; reflexivity.
  - destruct (toString value); [|discriminate]. now injection Ht as <-.
  - destruct (toString value); [|discriminate]. now injection Ht as <-.
  - destruct (toString value); [|discriminate]. now injection Ht as <-.
  - destruct (toString value); [|discriminate]. now injection Ht as <-.
  - destruct (toString value); [|discriminate]. now injection Ht as <-.
  - reflexivity.
Qed.

(** X19.  What the transformer returns for a field type, when it returns
    a value and not the null that asks for exclusion, passes the
    validator's check of that type; for an attachments field this needs
    the given array to hold no object whose url is truthy and not a
    string. *)
Theorem transformed_value_passes_type_check (fieldName : jsstring)
        (value : jsvalue) (fieldType : jsstring) (v : jsvalue) :
  transformByFieldType fieldName value fieldType = Some v ->
  isNull v = false ->
  kindOf fieldType <> multipleAttachments \/ plainAttachments value = true ->
  validateFieldValue fieldName v fieldType = valid.
Proof.
  intros Ht Hnull Hatt.
  pose proof (@transformed_passes _ _ _ _ Ht Hnull Hatt) as H.
  unfold validateFieldValue in *.
  destruct (kindOf fieldType); destruct v as [ | | b | n | s | items | o];
    try reflexivity; try discriminate H.
  - now destruct (forallb hasUrlString items).
  - now destruct (forallb isString items).
  - now destruct (num_isNaN n).
  - now destruct (num_isNaN n).
  - now destruct (num_isNaN n).
  - now destruct (num_isNaN n).
Qed.

(** X20.  After the transformer, the validator reports a type mismatch
    only for a linked-record field, for an attachments field, or for a
    field whose transformation threw, so that the value it was given was
    kept: for every other field type the two agree. *)
Theorem mismatch_only_where_transformer_differs (fields : object) (sch : schema)
        (fieldName : jsstring) (why : option jsstring) (expectedType : jsstring)
        (actualValue : jsvalue) :
  In (Mismatch fieldName why expectedType actualValue)
     (snd (transformAndValidate fields sch)) ->
  fieldTypeOf sch fieldName = Some expectedType
  /\ (kindOf expectedType = multipleRecordLinks
      \/ kindOf expectedType = multipleAttachments
      \/ transformByFieldType fieldName actualValue expectedType = None).
Proof.
  unfold transformAndValidate. intros Hin.
  assert (Hnd : NoDup (keys (transformFieldsForAirtable fields sch))).
  { unfold transformFieldsForAirtable. apply transformed_NoDup. constructor. }
  rewrite (@validate_shape _ _ _ Hnd) in Hin. cbn [snd] in Hin.
  apply in_flat_map in Hin as ([name v] & Hv & He).
  unfold transformFieldsForAirtable in Hv.
  apply transformed_entries in Hv as [[]|(x & Hx)]. cbn [fst snd] in Hx.
  unfold exclusionOf, judge in He. cbn [fst snd] in He.
  destruct (isBlank v) eqn:Eb; [destruct He|].
  destruct sch as [types|]; [|destruct He].
  destruct (fieldTypeOf (Some types) name) as [fieldType|] eqn:Ety;
    [|destruct He as [He|[]]; discriminate He].
  destruct (str_eqb fieldType (lit "multipleRecordLinks")
            && negb (isValidLinkedRecord v)) eqn:Elink.
  - destruct He as [He|[]]. injection He as <- <- <- <-.
    split; [exact Ety|]. left.
    apply andb_true_iff in Elink as [Elink _]. apply str_eqb_eq in Elink.
    now rewrite Elink.
  - cbn zeta in He.
    destruct (isValid (validateFieldValue name v fieldType)) eqn:Evalid;
      [destruct He|].
    destruct He as [He|[]]. injection He as <- _ <- <-.
    split; [exact Ety|].
    unfold written in Hx. cbn [fst snd] in Hx.
    destruct (isBlank x); [discriminate|]. rewrite Ety in Hx.
    destruct (transformByFieldType name x fieldType) as [tv|] eqn:Et.
    + assert (Hnull : isNull tv = false /\ tv = v).
      { destruct tv; try discriminate Hx; injection Hx as <-; now split. }
      destruct Hnull as [Hnull ->].
      assert (D : kindOf fieldType = multipleAttachments
                  \/ kindOf fieldType <> multipleAttachments).
      { destruct (kindOf fieldType); (now left) || (right; discriminate). }
      destruct D as [E|E]; [now right; left|].
      pose proof (@transformed_passes _ _ _ _ Et Hnull (or_introl E)) as Hok.
      rewrite Hok in Evalid. discriminate.
    + injection Hx as <-. right. right. exact Et.
Qed.

End ValidatorFacts.

Lemma validation_partitions_fields_witness :
  length (fst (validateAndFilterFields janeRecord janeSchema))
  + length (snd (validateAndFilterFields janeRecord janeSchema))
  + length (filter (fun e => isBlank (snd e)) janeRecord) = length janeRecord
  /\ incl (fst (validateAndFilterFields janeRecord janeSchema)) janeRecord
  /\ fst (validateAndFilterFields janeRecord None)
     = filter (fun e => negb (isBlank (snd e))) janeRecord
  /\ snd (validateAndFilterFields janeRecord None) = [].
Proof.
  apply (@validation_partitions_fields NatNumbers janeRecord janeSchema).
  repeat (constructor;
          [cbn; intros H; repeat (destruct H as [H|H]; [discriminate H|]); exact H|]).
  constructor.
Defined.

Lemma checked_mappings_are_never_unknown_witness :
  forallb (fun e => negb (isNotInSchema e))
          (snd (validateAndFilterFields
                  (mapContactDataToAirtable janeProfile []) defaultSchema))
  = true.
Proof.
  apply (@checked_mappings_are_never_unknown NatNumbers janeProfile [] defaultSchema).
  reflexivity.
Defined.

Lemma transformed_value_passes_type_check_witness :
  validateFieldValue (lit "Tag")
    (VArr [VStr (lit "lead"); VStr (lit "berlin")]) (lit "multipleSelects")
  = valid.
Proof.
  apply (@transformed_value_passes_type_check NatNumbers (lit "Tag")
           (VStr (lit "lead, berlin")) (lit "multipleSelects")).
  - reflexivity.
  - reflexivity.
  - left. discriminate.
Defined.

Lemma mismatch_only_where_transformer_differs_witness :
  fieldTypeOf linkSchema (lit "Company") = Some (lit "multipleRecordLinks")
  /\ (kindOf (lit "multipleRecordLinks") = multipleRecordLinks
      \/ kindOf (lit "multipleRecordLinks") = multipleAttachments
      \/ transformByFieldType (lit "Company") (VArr [VStr (lit "httpbin-rec1")])
           (lit "multipleRecordLinks") = None).
Proof.
  apply (@mismatch_only_where_transformer_differs NatNumbers linkRecord linkSchema
           (lit "Company")
           (Some (lit "Linked record field requires array of record IDs, not URLs or text"))).
  left. reflexivity.
Defined.

(** ** The name in an unknown-field error *)

Lemma search_skips (A : Type) (m : bool -> jsstring -> option A) (pre s : jsstring) :
  (forall b c rest, In c pre -> m b (c :: rest) = None) ->
  forall b, exists b', search m b (pre ++ s) = search m b' s.
Proof.
  intros Hm. induction pre as [|c pre IH]; intros b; [now exists b|].
  cbn [app search]. rewrite (Hm b c (pre ++ s)) by now left.
  cbn [orelse]. apply IH. intros b' d rest Hd. apply Hm. now right.
Qed.

Lemma firstn_length_app (A : Type) (a b c : list A) :
  firstn (length (a ++ b) - length b) (a ++ c) = a.
Proof.
  rewrite length_app. replace (length a + length b - length b) with (length a + 0) by lia.
  rewrite firstn_app_2. cbn [firstn]. apply app_nil_r.
Qed.

Lemma quotedName_first (pre name post : jsstring) :
  ~ In dquote pre -> name <> [] -> ~ In dquote name ->
  quotedName (pre ++ [dquote] ++ name ++ [dquote] ++ post) = Some name.
Proof.
  intros Hpre Hne Hname. unfold quotedName, group1.
  match goal with
  | |- search ?m true _ = _ =>
      destruct (@search_skips _ m pre ([dquote] ++ name ++ [dquote] ++ post)) with (b := true)
        as [b' ->]
  end.
  { intros b c rest Hc. unfold ch. rewrite rmatch_cls.
    destruct (N.eqb_spec dquote c) as [<-|]; [contradiction | reflexivity]. }
  cbn [app search]. unfold ch at 1. rewrite rmatch_cls, N.eqb_refl.
  destruct name as [|n0 name']; [contradiction|].
  assert (Hn0 : negb (N.eqb n0 dquote) = true).
  { apply negb_true_iff, N.eqb_neq. intros ->. apply Hname. now left. }
  assert (Hrest : forallb (fun c => negb (N.eqb c dquote)) name' = true).
  { apply forallb_forall. intros c Hc. apply negb_true_iff, N.eqb_neq.
    intros ->. apply Hname. now right. }
  unfold plus. rewrite rmatch_seq. cbn [app]. rewrite rmatch_cls, Hn0.
  rewrite (@rmatch_star_class_greedy _ _ name' false (dquote :: post) _ (n0 :: name')).
  - reflexivity.
  - exact Hrest.
  - reflexivity.
  - intros b2. unfold ch. rewrite rmatch_cls, N.eqb_refl. f_equal.
    apply (@firstn_length_app _ (n0 :: name') (dquote :: post) (dquote :: post)).
Qed.

Section ErrorFacts.

Context {NM : NumberModel}.

(** X21.  For an error of the type UNKNOWN_FIELD_NAME whose message has a
    non-empty text between its first two double quotes, the parser reports
    exactly that text as the one unknown field and as the one field error,
    whatever comes before and after it in the message; the message of the
    result names it too, unless a status word in the error text takes its
    place. *)
Theorem parseAirtableError_names_unknown_field
        (err : jsError) (o e : object) (sentFields : jsvalue)
        (pre name post : jsstring) :
  get o (lit "error") = VObj e ->
  get e (lit "type") = VStr (lit "UNKNOWN_FIELD_NAME") ->
  get e (lit "message") = VStr (pre ++ [dquote] ++ name ++ [dquote] ++ post) ->
  ~ In dquote pre -> name <> [] -> ~ In dquote name ->
  parseAirtableError err (VObj o) sentFields
  = Some {| message :=
              statusMessage (errorText err)
                (VStr (lit "Unknown field: " ++ [dquote] ++ name ++ [dquote]
                       ++ lit ". Please check your field mappings in the configuration section."));
            unknownFields := [name];
            fieldErrors :=
              [{| field := name;
                  error := lit "Field does not exist in Airtable table" |}] |}.
Proof.
  intros Herr Htype Hmsg Hpre Hne Hname.
  unfold parseAirtableError, parseBody.
  cbn [truthy isObject andb member]. rewrite Herr.
  cbn [truthy isObject andb member]. rewrite Htype, Hmsg.
  assert (Htruthy : truthy (VStr (pre ++ [dquote] ++ name ++ [dquote] ++ post)) = true).
  { cbn [truthy]. now destruct pre. }
  unfold orEmpty. rewrite Htruthy.
  change (truthy (VStr (lit "UNKNOWN_FIELD_NAME"))) with true. cbn iota.
  unfold isType at 1. rewrite str_eqb_refl.
  now rewrite (@quotedName_first pre name post Hpre Hne Hname).
Qed.

End ErrorFacts.

Lemma parseAirtableError_names_unknown_field_witness :
  parseAirtableError {| errorText := lit "Request failed" |} unknownFieldBody VNull
  = Some {| message :=
              statusMessage (lit "Request failed")
                (VStr (lit "Unknown field: " ++ [dquote] ++ lit "Phone" ++ [dquote]
                       ++ lit ". Please check your field mappings in the configuration section."));
            unknownFields := [lit "Phone"];
            fieldErrors :=
              [{| field := lit "Phone";
                  error := lit "Field does not exist in Airtable table" |}] |}.
Proof.
  apply (@parseAirtableError_names_unknown_field NatNumbers
           {| errorText := lit "Request failed" |}
           [(lit "error",
             VObj [(lit "type", VStr (lit "UNKNOWN_FIELD_NAME"));
                   (lit "message",
                    VStr (lit "Unknown field name: " ++ [dquote] ++ lit "Phone"
                          ++ [dquote]))])]
           [(lit "type", VStr (lit "UNKNOWN_FIELD_NAME"));
            (lit "message",
             VStr (lit "Unknown field name: " ++ [dquote] ++ lit "Phone" ++ [dquote]))]
           VNull (lit "Unknown field name: ") (lit "Phone") []).
  - reflexivity.
  - reflexivity.
  - reflexivity.
  - cbn. intros H. repeat (destruct H as [H|H]; [discriminate H|]). exact H.
  - discriminate.
  - cbn. intros H. repeat (destruct H as [H|H]; [discriminate H|]). exact H.
Defined.

(** ** What a save sends *)

Section SaveFacts.

Context {NM : NumberModel}.





End SaveFacts.


(** ** The final cleaning of the profile *)

Lemma cleanText_fixed (s : jsstring) :
  noWhitespaceRun s = true -> forallb spaceOnly s = true ->
  noEdgeWhitespace s = true -> length s <= 1000 ->
  cleanText s = s.
Proof.
  intros Hrun Hsp Hedge Hlen. unfold noEdgeWhitespace in Hedge.
  apply andb_true_iff in Hedge as [Hst Hend].
  unfold cleanText. destruct s as [|c s]; [reflexivity|]. cbn [nonempty negb].
  rewrite (dropWhileEnd_firstn_shape _ Hrun Hsp Hst).
  rewrite (dropWhileEnd_id _ _ Hend). unfold substring0. now apply firstn_all2.
Qed.

(** X24.  The final cleaning of the profile changes neither the job title
    nor the organization name the extractor produced: both are already in
    the form the cleaning gives. *)
Theorem final_clean_keeps_title_and_company (selector : Type)
        (page : selector -> option jsstring) (titleSelectors : list selector)
        (firstExperienceItem : option (list selector * list textNode)) :
  cleanText (extractJobTitle page titleSelectors) = extractJobTitle page titleSelectors
  /\ cleanText (extractCompany page firstExperienceItem)
     = extractCompany page firstExperienceItem.
Proof.
  split.
  - destruct (extractJobTitle_facts page titleSelectors) as (Hlen & Hrun & Hedge & Hsp & _).
    apply cleanText_fixed; try assumption. lia.
  - destruct (extractCompany_facts page firstExperienceItem)
      as (Hlen & Hrun & Hst & Hend & Hsp & _).
    assert (Hw : forall c, is_ws c = true -> is_ws_or_hyphen c = true).
    { intros c Hc. unfold is_ws_or_hyphen. now rewrite Hc. }
    apply cleanText_fixed; try assumption; [|lia].
    unfold noEdgeWhitespace.
    rewrite (@startsClean_weaken is_ws_or_hyphen is_ws _ Hw Hst).
    exact (@startsClean_weaken is_ws_or_hyphen is_ws _ Hw Hend).
Qed.

Section ProfileFacts.

Context {NM : NumberModel}.

Lemma get_of_entry (data : object) (k : jsstring) (v : jsvalue) :
  NoDup (keys data) -> In (k, v) data -> get data k = v.
Proof.
  unfold get. induction data as [|[k' v'] data IH]; intros Hnd Hin; [destruct Hin|].
  cbn [prop_get]. inversion Hnd as [|? ? Hnot Hrest]; subst.
  destruct Hin as [[= -> ->]|Hin].
  - now rewrite str_eqb_refl.
  - destruct (str_eqb k' k) eqn:E; [|now apply IH].
    apply str_eqb_eq in E. subst k'. exfalso. apply Hnot.
    unfold keys. apply in_map_iff. now exists (k, v).
Qed.

Lemma cleanProfile_fold (data l : object) :
  (forall e, In e l -> get data (fst e) = snd e) ->
  NoDup (keys l) ->
  forall acc,
    (forall k, In k (keys acc) -> ~ In k (keys l)) ->
    fold_left (fun cleaned key => prop_set cleaned key (cleanValue (get data key)))
              (keys l) acc
    = acc ++ map (fun e => (fst e, cleanValue (snd e))) l.
Proof.
  induction l as [|[k v] l IH]; intros Hget Hnd acc Hacc.
  - cbn. now rewrite app_nil_r.
  - inversion Hnd as [|? ? Hnot Hrest]; subst.
    cbn [keys map fst fold_left]. fold (keys l).
    pose proof (Hget (k, v) (or_introl eq_refl)) as Hk. cbn [fst snd] in Hk.
    rewrite Hk. cbn [fst snd].
    rewrite prop_set_absent by (intros Hk'; apply (Hacc k Hk'); now left).
    rewrite IH.
    + now rewrite <- app_assoc.
    + intros e He. apply Hget. now right.
    + exact Hrest.
    + intros x Hx. rewrite keys_app in Hx. apply in_app_iff in Hx as [Hx|Hx].
      * intros Hl. apply (Hacc x Hx). now right.
      * destruct Hx as [<-|[]]. exact Hnot.
Qed.

(** X25.  The final cleaning keeps the keys of the profile and their
    order, cleans every value that is a string and leaves every other
    value as it is. *)
Theorem cleanProfileData_cleans_each_string (data : object) :
  NoDup (keys data) ->
  cleanProfileData data = map (fun e => (fst e, cleanValue (snd e))) data.
Proof.
  intros Hnd. unfold cleanProfileData.
  rewrite (@cleanProfile_fold data data); [reflexivity| |exact Hnd|intros k []].
  intros [k v] He. now apply get_of_entry.
Qed.

End ProfileFacts.

Lemma cleanProfileData_cleans_each_string_witness :
  cleanProfileData
    [ (lit "fullName", VStr (lit "  Jane   Doe "));
      (lit "tags", VArr [VStr (lit " a ")]) ]
  = [ (lit "fullName", VStr (lit "Jane Doe"));
      (lit "tags", VArr [VStr (lit " a ")]) ].
Proof.
  apply (@cleanProfileData_cleans_each_string NatNumbers
           [ (lit "fullName", VStr (lit "  Jane   Doe "));
             (lit "tags", VArr [VStr (lit " a ")]) ]).
  repeat (constructor;
          [cbn; intros H; repeat (destruct H as [H|H]; [discriminate H|]); exact H|]).
  constructor.
Defined.
